(** * Streamlineer: the template builder's ordered-collection editing model

    Shallow embedding of the [Template] component
    (frontend/src/components/Dashboard/Dashboard.js): its state
    (title fields, pages, per-page questions, drag state) and its event
    handlers, followed by the properties of the reorder, insert and remove
    operations.

    Conventions of the embedding.
    - A JavaScript array is a [list] of slots; a slot is [Some o] for an
      object and [None] for [undefined] (the value [splice] hands back
      through [const [removed] = ...] when nothing was removed).
    - Reading a property of [undefined] raises a [TypeError]; handlers
      therefore return a [JS.result].
    - Numbers are integers ([Z]): indices, ids and [Date.now()] readings are
      all far below 2^53, where JavaScript numbers are exact.
    - [Date.now()] is an input of the handler that calls it.
    - A handler runs on the state of the render that created it: the
      component state is threaded explicitly, [setX(updater)] becomes the
      updater applied to the current value of [X]. *)

From Stdlib Require Import ZArith List String Bool Lia Permutation.
Import ListNotations.
Local Open Scope string_scope.
Local Open Scope list_scope.
Local Open Scope Z_scope.

(* ================================================================== *)
(** ** JavaScript arrays and errors *)

Module JS.

Inductive result (A : Type) : Type :=
| Ok (a : A)
| TypeError.
Arguments Ok {A} a.
Arguments TypeError {A}.

Definition bind {A B : Type} (r : result A) (k : A -> result B) : result B :=
  match r with
  | Ok a => k a
  | TypeError => TypeError
  end.

(** An array slot holds an object or [undefined]. *)
Definition array (A : Type) : Type := list (option A).

Definition undefined {A : Type} : option A := None.

(** [arr.length] *)
Definition length {A : Type} (arr : array A) : Z := Z.of_nat (List.length arr).

(** [arr.map(f)], left to right; the first exception aborts the call. *)
Fixpoint map {A B : Type} (f : option A -> result B) (arr : array A)
  : result (list B) :=
  match arr with
  | [] => Ok []
  | x :: rest =>
      bind (f x) (fun y =>
      bind (map f rest) (fun ys => Ok (y :: ys)))
  end.

(** [arr.filter(f)] *)
Fixpoint filter {A : Type} (f : option A -> result bool) (arr : array A)
  : result (array A) :=
  match arr with
  | [] => Ok []
  | x :: rest =>
      bind (f x) (fun keep =>
      bind (filter f rest) (fun ys => Ok (if keep then x :: ys else ys)))
  end.

(** [arr.findIndex(f)], scanning from position [i]; [-1] when no element
    satisfies [f]. The scan stops at the first match. *)
Fixpoint findIndex_from {A : Type} (f : option A -> result bool)
  (arr : array A) (i : Z) : result Z :=
  match arr with
  | [] => Ok (-1)
  | x :: rest =>
      bind (f x) (fun found =>
      if found then Ok i else findIndex_from f rest (i + 1))
  end.

Definition findIndex {A : Type} (f : option A -> result bool) (arr : array A)
  : result Z :=
  findIndex_from f arr 0.

(** [arr.splice(start, deleteCount, ...items)] on integer arguments
    (ECMAScript, Array.prototype.splice): a negative [start] counts from
    the end, [start] and [deleteCount] are clamped to the array.
    Returns the removed elements and the array after the call. *)
Definition splice {A : Type} (arr : array A) (start deleteCount : Z)
  (items : array A) : array A * array A :=
  let len := length arr in
  let actualStart :=
    if start <? 0 then Z.max (len + start) 0 else Z.min start len in
  let actualDeleteCount := Z.min (Z.max deleteCount 0) (len - actualStart) in
  let k := Z.to_nat actualStart in
  let d := Z.to_nat actualDeleteCount in
  (firstn d (skipn k arr), firstn k arr ++ items ++ skipn (k + d) arr).

(** [const [removed] = xs]: the first element, [undefined] when [xs] is
    empty. *)
Definition first {A : Type} (xs : array A) : option A :=
  match xs with
  | [] => undefined
  | x :: _ => x
  end.

End JS.

Import JS.

Notation "x <- r ;; k" := (JS.bind r (fun x => k))
  (at level 61, r at next level, right associativity).

(* ================================================================== *)
(** ** Data model *)

(** [{ id, label, type }] *)
Record Field : Type := mkField {
  field_id : Z;
  field_label : string;
  field_type : string
}.

(** [{ id, text, type }] *)
Record Question : Type := mkQuestion {
  question_id : Z;
  question_text : string;
  question_type : string
}.

(** [{ id, title, questions }] *)
Record Page : Type := mkPage {
  page_id : Z;
  page_title : string;
  page_questions : array Question
}.

(** [draggedQuestion: { pageId, idx }], each [null] or a number. *)
Record DraggedQuestion : Type := mkDraggedQuestion {
  pageId : option Z;
  idx : option Z
}.

(** The [useState] cells of [Template]. *)
Record State : Type := mkState {
  templateTitle : string;
  templateDescription : string;
  templateImage : option string;
  titleFields : array Field;
  pages : array Page;
  draggedFieldIdx : option Z;
  draggedQuestion : DraggedQuestion
}.

(** The keys the component passes to [handleTitleFieldChange]
    (['label'], ['type']) and to [handleQuestionChange] (['text'],
    ['type']). *)
Inductive FieldKey : Type := KeyLabel | KeyFieldType.
Inductive QuestionKey : Type := KeyText | KeyQuestionType.

(** [{ ...f, [key]: value }] *)
Definition field_with (f : Field) (key : FieldKey) (value : string) : Field :=
  match key with
  | KeyLabel => mkField (field_id f) value (field_type f)
  | KeyFieldType => mkField (field_id f) (field_label f) value
  end.

(** [{ ...q, [key]: value }] *)
Definition question_with (q : Question) (key : QuestionKey) (value : string)
  : Question :=
  match key with
  | KeyText => mkQuestion (question_id q) value (question_type q)
  | KeyQuestionType => mkQuestion (question_id q) (question_text q) value
  end.

(** [{ ...p, title: value }] and [{ ...p, questions: qs }] *)
Definition page_with_title (p : Page) (value : string) : Page :=
  mkPage (page_id p) value (page_questions p).

Definition page_with_questions (p : Page) (qs : array Question) : Page :=
  mkPage (page_id p) (page_title p) qs.

(** The state setters. *)
Definition setTemplateTitle (v : string) (s : State) : State :=
  mkState v (templateDescription s) (templateImage s) (titleFields s)
    (pages s) (draggedFieldIdx s) (draggedQuestion s).

Definition setTemplateDescription (v : string) (s : State) : State :=
  mkState (templateTitle s) v (templateImage s) (titleFields s)
    (pages s) (draggedFieldIdx s) (draggedQuestion s).

Definition setTemplateImage (v : option string) (s : State) : State :=
  mkState (templateTitle s) (templateDescription s) v (titleFields s)
    (pages s) (draggedFieldIdx s) (draggedQuestion s).

Definition setTitleFields (v : array Field) (s : State) : State :=
  mkState (templateTitle s) (templateDescription s) (templateImage s) v
    (pages s) (draggedFieldIdx s) (draggedQuestion s).

Definition setPages (v : array Page) (s : State) : State :=
  mkState (templateTitle s) (templateDescription s) (templateImage s)
    (titleFields s) v (draggedFieldIdx s) (draggedQuestion s).

Definition setDraggedFieldIdx (v : option Z) (s : State) : State :=
  mkState (templateTitle s) (templateDescription s) (templateImage s)
    (titleFields s) (pages s) v (draggedQuestion s).

Definition setDraggedQuestion (v : DraggedQuestion) (s : State) : State :=
  mkState (templateTitle s) (templateDescription s) (templateImage s)
    (titleFields s) (pages s) (draggedFieldIdx s) v.

(** The initial values given to [useState]. *)
Definition initialState : State := {|
  templateTitle := "Untitled template";
  templateDescription := "";
  templateImage := None;
  titleFields :=
    [ Some (mkField 1 "Site conducte" "site");
      Some (mkField 2 "Conducted on" "date");
      Some (mkField 3 "Prepared by" "person");
      Some (mkField 4 "Location" "location") ];
  pages :=
    [ Some (mkPage 1 "Untitled Page" [ Some (mkQuestion 1 "" "yesno") ]) ];
  draggedFieldIdx := None;
  draggedQuestion := mkDraggedQuestion None None
|}.

(* ================================================================== *)
(** ** Event handlers of [Template] *)

(** *** Title fields *)

(** [fields.map(f => f.id === id ? { ...f, [key]: value } : f)] *)
Definition handleTitleFieldChange (id : Z) (key : FieldKey) (value : string)
  (s : State) : result State :=
  fields <- JS.map (fun f =>
      match f with
      | None => TypeError
      | Some o => Ok (if field_id o =? id then Some (field_with o key value) else f)
      end) (titleFields s) ;;
  Ok (setTitleFields fields s).

(** [[...fields, { id: Date.now(), label: '', type: 'site' }]] *)
Definition addTitleField (now : Z) (s : State) : result State :=
  Ok (setTitleFields (titleFields s ++ [Some (mkField now "" "site")]) s).

(** [fields.filter(f => f.id !== id)] *)
Definition removeTitleField (id : Z) (s : State) : result State :=
  fields <- JS.filter (fun f =>
      match f with
      | None => TypeError
      | Some o => Ok (negb (field_id o =? id))
      end) (titleFields s) ;;
  Ok (setTitleFields fields s).

(** The updater of [moveTitleField]. *)
Definition moveTitleField_updater (idx : Z) (direction : string)
  (fields : array Field) : array Field :=
  let newIdx := if String.eqb direction "up" then idx - 1 else idx + 1 in
  if (newIdx <? 0) || (newIdx >=? JS.length fields) then fields
  else
    let newFields := fields in
    let (spliced, newFields) := JS.splice newFields idx 1 [] in
    let removed := JS.first spliced in
    let (_, newFields) := JS.splice newFields newIdx 0 [removed] in
    newFields.

Definition moveTitleField (idx : Z) (direction : string) (s : State)
  : result State :=
  Ok (setTitleFields (moveTitleField_updater idx direction (titleFields s)) s).

Definition handleTitleFieldDragStart (idx : Z) (s : State) : result State :=
  Ok (setDraggedFieldIdx (Some idx) s).


(** The updater of [handleTitleFieldDrop]; [dragged] is the captured
    [draggedFieldIdx]. *)
Definition handleTitleFieldDrop_updater (dragged idx : Z)
  (fields : array Field) : array Field :=
  let newFields := fields in
  let (spliced, newFields) := JS.splice newFields dragged 1 [] in
  let removed := JS.first spliced in
  let (_, newFields) := JS.splice newFields idx 0 [removed] in
  newFields.

Definition handleTitleFieldDrop (idx : Z) (s : State) : result State :=
  match draggedFieldIdx s with
  | None => Ok s
  | Some dragged =>
      if dragged =? idx then Ok s
      else
        Ok (setDraggedFieldIdx None
              (setTitleFields
                 (handleTitleFieldDrop_updater dragged idx (titleFields s)) s))
  end.

(** *** Pages *)

(** [addPage] reads the clock twice: [now1] for the page id, [now2] for
    the id of its first question. *)
Definition addPage (now1 now2 : Z) (s : State) : result State :=
  Ok (setPages
        (pages s ++
           [Some (mkPage now1 "Untitled Page"
                    [Some (mkQuestion (now2 + 1) "" "yesno")])]) s).

(** [pgs.length > 1 ? pgs.filter(p => p.id !== id) : pgs] *)
Definition removePage (id : Z) (s : State) : result State :=
  pgs <- (if JS.length (pages s) >? 1
          then JS.filter (fun p =>
                 match p with
                 | None => TypeError
                 | Some o => Ok (negb (page_id o =? id))
                 end) (pages s)
          else Ok (pages s)) ;;
  Ok (setPages pgs s).

(** [pgs.map(p => p.id === id ? { ...p, title: value } : p)] *)
Definition handlePageTitleChange (id : Z) (value : string) (s : State)
  : result State :=
  pgs <- JS.map (fun p =>
      match p with
      | None => TypeError
      | Some o => Ok (if page_id o =? id then Some (page_with_title o value) else p)
      end) (pages s) ;;
  Ok (setPages pgs s).

(** The updater of [movePage]. *)
Definition movePage_updater (id : Z) (direction : string) (pgs : array Page)
  : result (array Page) :=
  idx <- JS.findIndex (fun p =>
      match p with
      | None => TypeError
      | Some o => Ok (page_id o =? id)
      end) pgs ;;
  if idx <? 0 then Ok pgs
  else
    let newIdx := if String.eqb direction "up" then idx - 1 else idx + 1 in
    if (newIdx <? 0) || (newIdx >=? JS.length pgs) then Ok pgs
    else
      let newPages := pgs in
      let (spliced, newPages) := JS.splice newPages idx 1 [] in
      let removed := JS.first spliced in
      let (_, newPages) := JS.splice newPages newIdx 0 [removed] in
      Ok newPages.

Definition movePage (id : Z) (direction : string) (s : State) : result State :=
  pgs <- movePage_updater id direction (pages s) ;;
  Ok (setPages pgs s).

(** *** Questions of a page *)

(** The function [addQuestion] maps over the pages. *)
Definition addQuestion_page (pageId now : Z) (p : option Page)
  : result (option Page) :=
  match p with
  | None => TypeError
  | Some o =>
      Ok (if page_id o =? pageId
          then Some (page_with_questions o
                       (page_questions o ++ [Some (mkQuestion now "" "yesno")]))
          else p)
  end.

Definition addQuestion (pageId now : Z) (s : State) : result State :=
  pgs <- JS.map (addQuestion_page pageId now) (pages s) ;;
  Ok (setPages pgs s).

(** The function [removeQuestion] maps over the pages:
    [p.questions.length > 1 ? p.questions.filter(q => q.id !== qid)
                            : p.questions]. *)
Definition removeQuestion_page (pageId qid : Z) (p : option Page)
  : result (option Page) :=
  match p with
  | None => TypeError
  | Some o =>
      if page_id o =? pageId
      then
        qs <- (if JS.length (page_questions o) >? 1
               then JS.filter (fun q =>
                      match q with
                      | None => TypeError
                      | Some oq => Ok (negb (question_id oq =? qid))
                      end) (page_questions o)
               else Ok (page_questions o)) ;;
        Ok (Some (page_with_questions o qs))
      else Ok p
  end.

Definition removeQuestion (pageId qid : Z) (s : State) : result State :=
  pgs <- JS.map (removeQuestion_page pageId qid) (pages s) ;;
  Ok (setPages pgs s).

(** The function [handleQuestionChange] maps over the pages. *)
Definition handleQuestionChange_page (pageId qid : Z) (key : QuestionKey)
  (value : string) (p : option Page) : result (option Page) :=
  match p with
  | None => TypeError
  | Some o =>
      if page_id o =? pageId
      then
        qs <- JS.map (fun q =>
            match q with
            | None => TypeError
            | Some oq =>
                Ok (if question_id oq =? qid
                    then Some (question_with oq key value) else q)
            end) (page_questions o) ;;
        Ok (Some (page_with_questions o qs))
      else Ok p
  end.

Definition handleQuestionChange (pageId qid : Z) (key : QuestionKey)
  (value : string) (s : State) : result State :=
  pgs <- JS.map (handleQuestionChange_page pageId qid key value) (pages s) ;;
  Ok (setPages pgs s).

(** The function [moveQuestion] maps over the pages. *)
Definition moveQuestion_page (pageId idx : Z) (direction : string)
  (p : option Page) : result (option Page) :=
  match p with
  | None => TypeError
  | Some o =>
      if negb (page_id o =? pageId) then Ok p
      else
        let newIdx := if String.eqb direction "up" then idx - 1 else idx + 1 in
        if (newIdx <? 0) || (newIdx >=? JS.length (page_questions o)) then Ok p
        else
          let newQuestions := page_questions o in
          let (spliced, newQuestions) := JS.splice newQuestions idx 1 [] in
          let removed := JS.first spliced in
          let (_, newQuestions) := JS.splice newQuestions newIdx 0 [removed] in
          Ok (Some (page_with_questions o newQuestions))
  end.

Definition moveQuestion (pageId idx : Z) (direction : string) (s : State)
  : result State :=
  pgs <- JS.map (moveQuestion_page pageId idx direction) (pages s) ;;
  Ok (setPages pgs s).

(** [setDraggedQuestion({ pageId, idx })] *)
Definition handleQuestionDragStart (pageId idx : Z) (s : State) : result State :=
  Ok (setDraggedQuestion (mkDraggedQuestion (Some pageId) (Some idx)) s).

(** [draggedQuestion.pageId !== pageId || draggedQuestion.idx !== idx] *)
Definition handleQuestionDragOver (pageId_ idx_ : Z) (s : State) : bool :=
  negb (match pageId (draggedQuestion s) with
        | None => false
        | Some d => d =? pageId_
        end)
  || negb (match idx (draggedQuestion s) with
           | None => false
           | Some d => d =? idx_
           end).

(** The function [handleQuestionDrop] maps over the pages; [dragged] is the
    captured [draggedQuestion.idx]. *)
Definition handleQuestionDrop_page (dragged pageId idx : Z) (p : option Page)
  : result (option Page) :=
  match p with
  | None => TypeError
  | Some o =>
      if negb (page_id o =? pageId) then Ok p
      else
        let newQuestions := page_questions o in
        let (spliced, newQuestions) := JS.splice newQuestions dragged 1 [] in
        let removed := JS.first spliced in
        let (_, newQuestions) := JS.splice newQuestions idx 0 [removed] in
        Ok (Some (page_with_questions o newQuestions))
  end.

Definition handleQuestionDrop (pageId_ idx_ : Z) (s : State) : result State :=
  match pageId (draggedQuestion s), idx (draggedQuestion s) with
  | Some _, Some dragged =>
      pgs <- JS.map (handleQuestionDrop_page dragged pageId_ idx_) (pages s) ;;
      Ok (setDraggedQuestion (mkDraggedQuestion None None) (setPages pgs s))
  | _, _ => Ok s
  end.

(** *** Sequences of events *)

Inductive Op : Type :=
| OpSetTemplateTitle (value : string)
| OpSetTemplateDescription (value : string)
| OpSetTemplateImage (value : option string)
| OpHandleTitleFieldChange (id : Z) (key : FieldKey) (value : string)
| OpAddTitleField (now : Z)
| OpRemoveTitleField (id : Z)
| OpMoveTitleField (idx : Z) (direction : string)
| OpHandleTitleFieldDragStart (idx : Z)
| OpHandleTitleFieldDrop (idx : Z)
| OpAddPage (now1 now2 : Z)
| OpRemovePage (id : Z)
| OpHandlePageTitleChange (id : Z) (value : string)
| OpMovePage (id : Z) (direction : string)
| OpAddQuestion (pageId now : Z)
| OpRemoveQuestion (pageId qid : Z)
| OpHandleQuestionChange (pageId qid : Z) (key : QuestionKey) (value : string)
| OpMoveQuestion (pageId idx : Z) (direction : string)
| OpHandleQuestionDragStart (pageId idx : Z)
| OpHandleQuestionDrop (pageId idx : Z).

Definition step (op : Op) (s : State) : result State :=
  match op with
  | OpSetTemplateTitle v => Ok (setTemplateTitle v s)
  | OpSetTemplateDescription v => Ok (setTemplateDescription v s)
  | OpSetTemplateImage v => Ok (setTemplateImage v s)
  | OpHandleTitleFieldChange id key v => handleTitleFieldChange id key v s
  | OpAddTitleField now => addTitleField now s
  | OpRemoveTitleField id => removeTitleField id s
  | OpMoveTitleField i d => moveTitleField i d s
  | OpHandleTitleFieldDragStart i => handleTitleFieldDragStart i s
  | OpHandleTitleFieldDrop i => handleTitleFieldDrop i s
  | OpAddPage now1 now2 => addPage now1 now2 s
  | OpRemovePage id => removePage id s
  | OpHandlePageTitleChange id v => handlePageTitleChange id v s
  | OpMovePage id d => movePage id d s
  | OpAddQuestion p now => addQuestion p now s
  | OpRemoveQuestion p q => removeQuestion p q s
  | OpHandleQuestionChange p q key v => handleQuestionChange p q key v s
  | OpMoveQuestion p i d => moveQuestion p i d s
  | OpHandleQuestionDragStart p i => handleQuestionDragStart p i s
  | OpHandleQuestionDrop p i => handleQuestionDrop p i s
  end.

(** The events are handled one after the other; an exception ends the run. *)
Fixpoint run (ops : list Op) (s : State) : result State :=
  match ops with
  | [] => Ok s
  | op :: rest => s' <- step op s ;; run rest s'
  end.

(* ================================================================== *)
(** ** Reference operations on ordered collections *)

(** The two [splice] calls every reorder handler makes on its copy of the
    array: take out the element at [src], put what came out back at [tgt]. *)
Definition spliceMove {A : Type} (src tgt : Z) (arr : array A) : array A :=
  let (spliced, arr1) := JS.splice arr src 1 [] in
  let (_, arr2) := JS.splice arr1 tgt 0 [JS.first spliced] in
  arr2.

(** The collection without its element at position [i]. *)
Definition remove_at {A : Type} (i : nat) (l : list A) : list A :=
  firstn i l ++ skipn (S i) l.

(** [x] placed before the current occupant of position [j]. *)
Definition insert_before {A : Type} (j : nat) (x : A) (l : list A) : list A :=
  firstn j l ++ x :: skipn j l.

(** Pointer-drag reorder as the specification words it: remove the element
    at [src], reinsert it before the occupant of [tgt] after the removal;
    nothing happens when [src = tgt] or when [src] names no element. *)
Definition dragReorder {A : Type} (C : list A) (src tgt : nat) : list A :=
  if Nat.eqb src tgt then C
  else match nth_error C src with
       | Some x => insert_before tgt x (remove_at src C)
       | None => C
       end.

(** No slot of the array is [undefined]. *)
Definition all_live {A : Type} (arr : array A) : bool :=
  forallb (fun x => match x with Some _ => true | None => false end) arr.

(** The ids carried by the objects of a collection, in order. *)
Definition ids_of {A : Type} (id : A -> Z) (arr : array A) : list Z :=
  flat_map (fun x => match x with Some o => [id o] | None => [] end) arr.

(** The objects of a collection whose id is not [id0], in order. *)
Definition without_id {A : Type} (id : A -> Z) (id0 : Z) (arr : array A)
  : array A :=
  List.filter (fun x => match x with
                        | Some o => negb (id o =? id0)
                        | None => true
                        end) arr.


(** The question list of the page in slot [k]. *)
Definition questions_at (k : nat) (pgs : array Page) : option (array Question) :=
  match nth_error pgs k with
  | Some (Some o) => Some (page_questions o)
  | _ => None
  end.

(** Every page is an object and so is every question of every page: the
    page handlers read [p.id] and [q.id] without a [TypeError]. *)
Definition pages_live (pgs : array Page) : bool :=
  forallb (fun p => match p with
                    | Some o => all_live (page_questions o)
                    | None => false
                    end) pgs.

(** The body shared by the updaters of [moveTitleField], [movePage] and
    [moveQuestion]. *)
Definition stepMove {A : Type} (idx : Z) (direction : string) (arr : array A)
  : array A :=
  let newIdx := if String.eqb direction "up" then idx - 1 else idx + 1 in
  if (newIdx <? 0) || (newIdx >=? JS.length arr) then arr
  else spliceMove idx newIdx arr.

(** [C'] is [C] with the elements at positions [n] and [n + 1] exchanged;
    every other element keeps its position. *)
Definition swapped_at {A : Type} (n : nat) (C C' : list A) : Prop :=
  exists a x y b,
    C = a ++ x :: y :: b /\ List.length a = n /\ C' = a ++ y :: x :: b.

(** The outcome of a step move at [idx]: nothing changes at the boundary
    the move would cross, otherwise the element trades places with its
    neighbour in that direction. *)
Definition stepMoved {A : Type} (idx : Z) (direction : string)
  (C C' : list A) : Prop :=
  (direction = "up" ->
     (idx = 0 -> C' = C) /\
     (0 < idx -> swapped_at (Z.to_nat (idx - 1)) C C')) /\
  (direction = "down" ->
     (idx = Z.of_nat (List.length C) - 1 -> C' = C) /\
     (idx < Z.of_nat (List.length C) - 1 -> swapped_at (Z.to_nat idx) C C')).

(** [pgs.findIndex(p => p.id === id)], as [movePage] computes it. *)
Definition pageIndex (id : Z) (pgs : array Page) : result Z :=
  JS.findIndex (fun p =>
      match p with
      | None => TypeError
      | Some o => Ok (page_id o =? id)
      end) pgs.


(** A template with two pages of two questions each, as the builder shows
    it after one [addPage] and two [addQuestion]. *)
Definition twoPageState : State := {|
  templateTitle := "Untitled template";
  templateDescription := "";
  templateImage := None;
  titleFields := titleFields initialState;
  pages :=
    [ Some (mkPage 1 "Untitled Page"
              [ Some (mkQuestion 1 "" "yesno");
                Some (mkQuestion 1700000000000 "" "yesno") ]);
      Some (mkPage 1700000001000 "Untitled Page"
              [ Some (mkQuestion 1700000001001 "" "yesno");
                Some (mkQuestion 1700000002000 "" "yesno") ]) ];
  draggedFieldIdx := None;
  draggedQuestion := mkDraggedQuestion None None
|}.

(** The initial template after a drag was started on the last title field
    (index 3) and that field was removed before any drop: the captured
    index now lies beyond the three remaining fields. *)
Definition staleDragState : State := {|
  templateTitle := "Untitled template";
  templateDescription := "";
  templateImage := None;
  titleFields :=
    [ Some (mkField 1 "Site conducte" "site");
      Some (mkField 2 "Conducted on" "date");
      Some (mkField 3 "Prepared by" "person") ];
  pages := pages initialState;
  draggedFieldIdx := Some 3;
  draggedQuestion := mkDraggedQuestion None None
|}.

(** The initial template after two [addPage] calls that read the same
    clock value: two pages carry the id 1700000001000. *)
Definition repeatedIdState : State := {|
  templateTitle := "Untitled template";
  templateDescription := "";
  templateImage := None;
  titleFields := titleFields initialState;
  pages :=
    [ Some (mkPage 1 "Untitled Page" [ Some (mkQuestion 1 "" "yesno") ]);
      Some (mkPage 1700000001000 "Untitled Page"
              [ Some (mkQuestion 1700000001001 "" "yesno") ]);
      Some (mkPage 1700000001000 "Untitled Page"
              [ Some (mkQuestion 1700000001001 "" "yesno") ]) ];
  draggedFieldIdx := None;
  draggedQuestion := mkDraggedQuestion None None
|}.

(** The handlers addressed to the questions of the page with id [pageId_]. *)
Inductive question_handler (pageId_ : Z) : (State -> result State) -> Prop :=
| qh_add (now : Z) :
    question_handler pageId_ (addQuestion pageId_ now)
| qh_remove (qid : Z) :
    question_handler pageId_ (removeQuestion pageId_ qid)
| qh_move (idx_ : Z) (direction : string) :
    question_handler pageId_ (moveQuestion pageId_ idx_ direction)
| qh_change (qid : Z) (key : QuestionKey) (value : string) :
    question_handler pageId_ (handleQuestionChange pageId_ qid key value)
| qh_drop (idx_ : Z) :
    question_handler pageId_ (handleQuestionDrop pageId_ idx_).

(** [s'] differs from [s] at most in the drag state and in the pages whose
    id is [pageId_]: title, description, image and title fields are those
    of [s], there are as many pages, and every page with another id is in
    its slot as it was. *)
Definition unchanged_outside_page (pageId_ : Z) (s s' : State) : Prop :=
  templateTitle s' = templateTitle s /\
  templateDescription s' = templateDescription s /\
  templateImage s' = templateImage s /\
  titleFields s' = titleFields s /\
  List.length (pages s') = List.length (pages s) /\
  forall k o,
    nth_error (pages s) k = Some (Some o) ->
    page_id o <> pageId_ ->
    nth_error (pages s') k = Some (Some o).

(** The invariant of the builder on a page: it has a question, and its
    questions carry pairwise distinct ids. *)
Definition page_ok (o : Page) : Prop :=
  page_questions o <> [] /\ NoDup (ids_of question_id (page_questions o)).

(** The invariant on the page list: there is a page, the pages carry
    pairwise distinct ids, and every slot holds a page that is [page_ok]. *)
Definition pages_ok (pgs : array Page) : Prop :=
  pgs <> [] /\
  NoDup (ids_of page_id pgs) /\
  Forall (fun p => exists o, p = Some o /\ page_ok o) pgs.

(** The clock reading an insert is about to use as an id is not an id of
    the collection it extends. Other events read no clock. *)
Definition clock_fresh (op : Op) (s : State) : Prop :=
  match op with
  | OpAddPage now1 _ => ~ In now1 (ids_of page_id (pages s))
  | OpAddQuestion pageId_ now =>
      forall o, In (Some o) (pages s) -> page_id o = pageId_ ->
                ~ In now (ids_of question_id (page_questions o))
  | _ => True
  end.

(** The states the builder reaches from its initial state when every
    insert reads a fresh clock value. *)
Inductive reachable : State -> Prop :=
| reach_init : reachable initialState
| reach_step (s : State) (op : Op) (s' : State) :
    reachable s -> clock_fresh op s -> step op s = Ok s' -> reachable s'.

(** There is a page, every slot of the page list holds a page, and every
    page has a question. *)
Definition nonempty_lists (s : State) : Prop :=
  pages s <> [] /\
  Forall (fun p => exists o, p = Some o /\ page_questions o <> []) (pages s).

(* ================================================================== *)
(** ** What [Template] renders and which events it offers *)

(** The keys React reads while rendering: [key={field.id}] for every title
    field row, [key={page.id}] for every page card and [key={q.id}] for
    every question row. Reading the id of an [undefined] slot throws, and
    the component has no error boundary. *)
Definition renderPageKeys (p : option Page) : result (Z * list Z) :=
  match p with
  | None => TypeError
  | Some o =>
      qs <- JS.map (fun q =>
          match q with
          | None => TypeError
          | Some oq => Ok (question_id oq)
          end) (page_questions o) ;;
      Ok (page_id o, qs)
  end.

Definition renderKeys (s : State) : result (list Z * list (Z * list Z)) :=
  rows <- JS.map (fun f =>
      match f with
      | None => TypeError
      | Some o => Ok (field_id o)
      end) (titleFields s) ;;
  cards <- JS.map renderPageKeys (pages s) ;;
  Ok (rows, cards).

(** Every slot of every collection holds an object. *)
Definition renderable (s : State) : bool :=
  all_live (titleFields s) && pages_live (pages s).

(** The events the rendered markup can deliver in state [s]: each handler
    with the arguments its row binds ([idx] of the row, [field.id],
    [page.id], [q.id]), the move and remove buttons only where they are
    not [disabled]. *)
Inductive offers (s : State) : Op -> Prop :=
| offers_setTemplateTitle (value : string) :
    offers s (OpSetTemplateTitle value)
| offers_setTemplateDescription (value : string) :
    offers s (OpSetTemplateDescription value)
| offers_setTemplateImage (value : string) :
    offers s (OpSetTemplateImage (Some value))
| offers_handleTitleFieldChange (k : nat) (f : Field) key value :
    nth_error (titleFields s) k = Some (Some f) ->
    offers s (OpHandleTitleFieldChange (field_id f) key value)
| offers_addTitleField (now : Z) :
    offers s (OpAddTitleField now)
| offers_removeTitleField (k : nat) (f : Field) :
    nth_error (titleFields s) k = Some (Some f) ->
    1 < JS.length (titleFields s) ->
    offers s (OpRemoveTitleField (field_id f))
| offers_moveTitleField_up (i : Z) :
    0 < i < JS.length (titleFields s) ->
    offers s (OpMoveTitleField i "up")
| offers_moveTitleField_down (i : Z) :
    0 <= i < JS.length (titleFields s) - 1 ->
    offers s (OpMoveTitleField i "down")
| offers_handleTitleFieldDragStart (i : Z) :
    0 <= i < JS.length (titleFields s) ->
    offers s (OpHandleTitleFieldDragStart i)
| offers_handleTitleFieldDrop (i : Z) :
    0 <= i < JS.length (titleFields s) ->
    offers s (OpHandleTitleFieldDrop i)
| offers_addPage (now1 now2 : Z) :
    offers s (OpAddPage now1 now2)
| offers_removePage (k : nat) (p : Page) :
    nth_error (pages s) k = Some (Some p) ->
    1 < JS.length (pages s) ->
    offers s (OpRemovePage (page_id p))
| offers_handlePageTitleChange (k : nat) (p : Page) value :
    nth_error (pages s) k = Some (Some p) ->
    offers s (OpHandlePageTitleChange (page_id p) value)
| offers_movePage_up (k : nat) (p : Page) :
    nth_error (pages s) k = Some (Some p) ->
    (0 < k)%nat ->
    offers s (OpMovePage (page_id p) "up")
| offers_movePage_down (k : nat) (p : Page) :
    nth_error (pages s) k = Some (Some p) ->
    (S k < List.length (pages s))%nat ->
    offers s (OpMovePage (page_id p) "down")
| offers_addQuestion (k : nat) (p : Page) (now : Z) :
    nth_error (pages s) k = Some (Some p) ->
    offers s (OpAddQuestion (page_id p) now)
| offers_removeQuestion (k : nat) (p : Page) (j : nat) (q : Question) :
    nth_error (pages s) k = Some (Some p) ->
    nth_error (page_questions p) j = Some (Some q) ->
    1 < JS.length (page_questions p) ->
    offers s (OpRemoveQuestion (page_id p) (question_id q))
| offers_handleQuestionChange (k : nat) (p : Page) (j : nat) (q : Question)
    key value :
    nth_error (pages s) k = Some (Some p) ->
    nth_error (page_questions p) j = Some (Some q) ->
    offers s (OpHandleQuestionChange (page_id p) (question_id q) key value)
| offers_moveQuestion_up (k : nat) (p : Page) (i : Z) :
    nth_error (pages s) k = Some (Some p) ->
    0 < i < JS.length (page_questions p) ->
    offers s (OpMoveQuestion (page_id p) i "up")
| offers_moveQuestion_down (k : nat) (p : Page) (i : Z) :
    nth_error (pages s) k = Some (Some p) ->
    0 <= i < JS.length (page_questions p) - 1 ->
    offers s (OpMoveQuestion (page_id p) i "down")
| offers_handleQuestionDragStart (k : nat) (p : Page) (i : Z) :
    nth_error (pages s) k = Some (Some p) ->
    0 <= i < JS.length (page_questions p) ->
    offers s (OpHandleQuestionDragStart (page_id p) i)
| offers_handleQuestionDrop (k : nat) (p : Page) (i : Z) :
    nth_error (pages s) k = Some (Some p) ->
    0 <= i < JS.length (page_questions p) ->
    offers s (OpHandleQuestionDrop (page_id p) i).

(** The index a drop is about to take its element from lies below the
    length of the list the drop works on. Events other than drops, and
    drops with no drag in progress, take no element. *)
Definition drop_source_below_length (op : Op) (s : State) : Prop :=
  match op with
  | OpHandleTitleFieldDrop _ =>
      match draggedFieldIdx s with
      | Some d => d < JS.length (titleFields s)
      | None => True
      end
  | OpHandleQuestionDrop pageId_ _ =>
      match pageId (draggedQuestion s), idx (draggedQuestion s) with
      | Some _, Some d =>
          forall o, In (Some o) (pages s) -> page_id o = pageId_ ->
                    d < JS.length (page_questions o)
      | _, _ => True
      end
  | _ => True
  end.

(** The clock reading of an insert is not an id of the collection the
    insert extends, title fields included. *)
Definition insert_fresh (op : Op) (s : State) : Prop :=
  clock_fresh op s /\
  match op with
  | OpAddTitleField now => ~ In now (ids_of field_id (titleFields s))
  | _ => True
  end.

(** The states reached from the initial state through inserts that read
    fresh clock values. *)
Inductive reachable_fresh : State -> Prop :=
| reach_fresh_init : reachable_fresh initialState
| reach_fresh_step (s : State) (op : Op) (s' : State) :
    reachable_fresh s -> insert_fresh op s -> step op s = Ok s' ->
    reachable_fresh s'.

(** The cells of the state a handler may write. *)
Inductive Cell : Type :=
| CellTitle | CellDescription | CellImage
| CellTitleFields | CellPages | CellDraggedFieldIdx | CellDraggedQuestion.

(** The [useState] setters each handler calls. *)
Definition writes (op : Op) : list Cell :=
  match op with
  | OpSetTemplateTitle _ => [CellTitle]
  | OpSetTemplateDescription _ => [CellDescription]
  | OpSetTemplateImage _ => [CellImage]
  | OpHandleTitleFieldChange _ _ _ | OpAddTitleField _
  | OpRemoveTitleField _ | OpMoveTitleField _ _ => [CellTitleFields]
  | OpHandleTitleFieldDragStart _ => [CellDraggedFieldIdx]
  | OpHandleTitleFieldDrop _ => [CellTitleFields; CellDraggedFieldIdx]
  | OpAddPage _ _ | OpRemovePage _ | OpHandlePageTitleChange _ _
  | OpMovePage _ _ | OpAddQuestion _ _ | OpRemoveQuestion _ _
  | OpHandleQuestionChange _ _ _ _ | OpMoveQuestion _ _ _ => [CellPages]
  | OpHandleQuestionDragStart _ _ => [CellDraggedQuestion]
  | OpHandleQuestionDrop _ _ => [CellPages; CellDraggedQuestion]
  end.

(** [s] and [s'] hold the same value in cell [c]. *)
Definition same_cell (c : Cell) (s s' : State) : Prop :=
  match c with
  | CellTitle => templateTitle s' = templateTitle s
  | CellDescription => templateDescription s' = templateDescription s
  | CellImage => templateImage s' = templateImage s
  | CellTitleFields => titleFields s' = titleFields s
  | CellPages => pages s' = pages s
  | CellDraggedFieldIdx => draggedFieldIdx s' = draggedFieldIdx s
  | CellDraggedQuestion => draggedQuestion s' = draggedQuestion s
  end.

(** [s'] holds what [s] holds in every cell but [c]. *)
Definition same_but_cell (c : Cell) (s s' : State) : Prop :=
  forall c', c' <> c -> same_cell c' s s'.

(** The slot [k] of [pgs] holds a page with the id and the title of [o]
    and with the question list [qs]. *)
Definition slot_holds (k : nat) (o : Page) (qs : array Question)
  (pgs : array Page) : Prop :=
  exists p,
    nth_error pgs k = Some (Some p) /\
    page_id p = page_id o /\
    page_title p = page_title o /\
    page_questions p = qs.

(** The page [o] sits in slot [k] and no earlier slot holds a page with
    its id: [o] is the first page carrying the id. *)
Definition first_carrier (k : nat) (o : Page) (pgs : array Page) : Prop :=
  nth_error pgs k = Some (Some o) /\
  forall j, (j < k)%nat ->
    exists o', nth_error pgs j = Some (Some o') /\ page_id o' <> page_id o.

(** The field [f'] is [f] after the attribute [key] was set to [value]
    when [hit] holds, and [f] as it was otherwise, attribute by
    attribute. *)
Definition field_edited (hit : bool) (key : FieldKey) (value : string)
  (f f' : Field) : Prop :=
  field_id f' = field_id f /\
  field_label f'
  = (if hit && match key with KeyLabel => true | KeyFieldType => false end
     then value else field_label f) /\
  field_type f'
  = (if hit && match key with KeyFieldType => true | KeyLabel => false end
     then value else field_type f).

(** The same for a question. *)
Definition question_edited (hit : bool) (key : QuestionKey) (value : string)
  (q q' : Question) : Prop :=
  question_id q' = question_id q /\
  question_text q'
  = (if hit && match key with KeyText => true | KeyQuestionType => false end
     then value else question_text q) /\
  question_type q'
  = (if hit && match key with KeyQuestionType => true | KeyText => false end
     then value else question_type q).

(** Shows [slot_holds] from the page [H] finds in the slot, attribute by
    attribute. *)
Ltac show_slot H :=
  eexists; split; [exact H|]; split; [reflexivity|]; split; reflexivity.

(** Follows a handler call that answered [Ok] through its binds and
    branches. *)
Ltac follow_handler H :=
  repeat match type of H with
    | JS.bind ?r _ = Ok _ =>
        let E := fresh "E" in
        destruct r eqn:E; cbn [JS.bind] in H; [|discriminate H]
    | match ?x with _ => _ end = Ok _ =>
        let E := fresh "E" in destruct x eqn:E
    end.

(* ================================================================== *)
(** ** The schedule board ([Schedule] component) *)

Module Schedule.

(** One entry of [schedules]. *)
Record Item : Type := mkItem {
  id : Z;
  templateName : string;
  inspectorName : string;
  inspectorEmail : string;
  location : string;
  scheduledDate : string;
  scheduledTime : string;
  status : string;
  priority : string;
  notes : string;
  createdBy : string;
  createdAt : string
}.

(** [newSchedule], the form under edit. *)
Record Form : Type := mkForm {
  form_templateName : string;
  form_inspectorName : string;
  form_inspectorEmail : string;
  form_location : string;
  form_scheduledDate : string;
  form_scheduledTime : string;
  form_priority : string;
  form_notes : string
}.

Record Inspector : Type := mkInspector {
  name : string;
  email : string
}.

(** The [useState] cells of [Schedule]. *)
Record State : Type := mkState {
  schedules : list Item;
  showCreateForm : bool;
  newSchedule : Form
}.

Definition availableTemplates : list string :=
  [ "Safety Inspection Template";
    "Equipment Maintenance Template";
    "Fire Safety Template";
    "Environmental Compliance Template" ].

Definition availableInspectors : list Inspector :=
  [ mkInspector "John Smith" "john.smith@company.com";
    mkInspector "Sarah Johnson" "sarah.johnson@company.com";
    mkInspector "Mike Davis" "mike.davis@company.com";
    mkInspector "Lisa Wilson" "lisa.wilson@company.com" ].

(** The form as [useState] and [handleCreateSchedule] set it. *)
Definition emptyForm : Form :=
  mkForm "" "" "" "" "" "" "medium" "".

Definition initialState : State := {|
  schedules :=
    [ mkItem 1 "Safety Inspection Template" "John Smith"
        "john.smith@company.com" "Building A - Floor 3" "2024-01-20" "09:00"
        "scheduled" "high" "Focus on electrical safety and fire exits"
        "Manager" "2024-01-15";
      mkItem 2 "Equipment Maintenance Template" "Sarah Johnson"
        "sarah.johnson@company.com" "Warehouse B" "2024-01-22" "14:00"
        "in-progress" "medium" "Check all forklifts and lifting equipment"
        "Manager" "2024-01-16" ];
  showCreateForm := false;
  newSchedule := emptyForm
|}.

(** [{ id: schedules.length + 1, ...newSchedule, status: 'scheduled',
       createdBy: 'Manager', createdAt: today }]; [today] is
    [new Date().toISOString().split('T')[0]]. *)
Definition handleCreateSchedule (today : string) (s : State) : State :=
  let f := newSchedule s in
  let schedule :=
    mkItem (Z.of_nat (List.length (schedules s)) + 1)
      (form_templateName f) (form_inspectorName f) (form_inspectorEmail f)
      (form_location f) (form_scheduledDate f) (form_scheduledTime f)
      "scheduled" (form_priority f) (form_notes f) "Manager" today in
  mkState (schedules s ++ [schedule]) false emptyForm.

(** [{ ...schedule, status: newStatus }] *)
Definition with_status (i : Item) (newStatus : string) : Item :=
  mkItem (id i) (templateName i) (inspectorName i) (inspectorEmail i)
    (location i) (scheduledDate i) (scheduledTime i) newStatus (priority i)
    (notes i) (createdBy i) (createdAt i).

(** [prev.map(schedule => schedule.id === id ? { ...schedule, status:
    newStatus } : schedule)] *)
Definition updateScheduleStatus (id0 : Z) (newStatus : string) (s : State)
  : State :=
  mkState
    (List.map (fun schedule =>
                 if id schedule =? id0 then with_status schedule newStatus
                 else schedule) (schedules s))
    (showCreateForm s) (newSchedule s).

Definition getStatusColor (st : string) : string :=
  if String.eqb st "scheduled" then "#2196f3"
  else if String.eqb st "in-progress" then "#ff9800"
  else if String.eqb st "completed" then "#4caf50"
  else if String.eqb st "cancelled" then "#f44336"
  else "#666".

Definition getPriorityColor (pr : string) : string :=
  if String.eqb pr "high" then "#f44336"
  else if String.eqb pr "medium" then "#ff9800"
  else if String.eqb pr "low" then "#4caf50"
  else "#666".

(** [availableInspectors.find(i => i.name === value)] *)
Definition findInspector (value : string) : option Inspector :=
  List.find (fun i => String.eqb (name i) value) availableInspectors.

(** The [onChange] of the inspector select. *)
Definition selectInspector (value : string) (s : State) : State :=
  let f := newSchedule s in
  let inspector := findInspector value in
  mkState (schedules s) (showCreateForm s)
    (mkForm (form_templateName f) value
       (match inspector with
        | Some i => email i
        | None => ""
        end)
       (form_location f) (form_scheduledDate f) (form_scheduledTime f)
       (form_priority f) (form_notes f)).

(** The other [onChange] handlers of the form: [{ ...prev, key: value }]. *)
Inductive FormKey : Type :=
| KTemplateName | KLocation | KScheduledDate | KScheduledTime | KPriority
| KNotes.

Definition setFormField (key : FormKey) (value : string) (s : State) : State :=
  let f := newSchedule s in
  mkState (schedules s) (showCreateForm s)
    (match key with
     | KTemplateName =>
         mkForm value (form_inspectorName f) (form_inspectorEmail f)
           (form_location f) (form_scheduledDate f) (form_scheduledTime f)
           (form_priority f) (form_notes f)
     | KLocation =>
         mkForm (form_templateName f) (form_inspectorName f)
           (form_inspectorEmail f) value (form_scheduledDate f)
           (form_scheduledTime f) (form_priority f) (form_notes f)
     | KScheduledDate =>
         mkForm (form_templateName f) (form_inspectorName f)
           (form_inspectorEmail f) (form_location f) value
           (form_scheduledTime f) (form_priority f) (form_notes f)
     | KScheduledTime =>
         mkForm (form_templateName f) (form_inspectorName f)
           (form_inspectorEmail f) (form_location f) (form_scheduledDate f)
           value (form_priority f) (form_notes f)
     | KPriority =>
         mkForm (form_templateName f) (form_inspectorName f)
           (form_inspectorEmail f) (form_location f) (form_scheduledDate f)
           (form_scheduledTime f) value (form_notes f)
     | KNotes =>
         mkForm (form_templateName f) (form_inspectorName f)
           (form_inspectorEmail f) (form_location f) (form_scheduledDate f)
           (form_scheduledTime f) (form_priority f) value
     end).

Definition setShowCreateForm (b : bool) (s : State) : State :=
  mkState (schedules s) b (newSchedule s).

(** The events of the board. *)
Inductive Event : Type :=
| EvSetShowCreateForm (b : bool)
| EvSetFormField (key : FormKey) (value : string)
| EvSelectInspector (value : string)
| EvCreateSchedule (today : string)
| EvUpdateScheduleStatus (id0 : Z) (newStatus : string).

Definition step (ev : Event) (s : State) : State :=
  match ev with
  | EvSetShowCreateForm b => setShowCreateForm b s
  | EvSetFormField key value => setFormField key value s
  | EvSelectInspector value => selectInspector value s
  | EvCreateSchedule today => handleCreateSchedule today s
  | EvUpdateScheduleStatus id0 newStatus => updateScheduleStatus id0 newStatus s
  end.

Definition run (evs : list Event) (s : State) : State :=
  fold_left (fun t ev => step ev t) evs s.

(** The option values of the status select of a card and of the priority
    select of the form. *)
Definition statusOptions : list string :=
  [ "scheduled"; "in-progress"; "completed"; "cancelled" ].

Definition priorityOptions : list string := [ "low"; "medium"; "high" ].

(** The events the markup can deliver: a select hands over one of its
    option values, a status select sits on a card and passes the id of its
    schedule; text inputs hand over any string. *)
Inductive offers (s : State) : Event -> Prop :=
| offers_setShowCreateForm b : offers s (EvSetShowCreateForm b)
| offers_templateName value :
    In value ("" :: availableTemplates) ->
    offers s (EvSetFormField KTemplateName value)
| offers_location value : offers s (EvSetFormField KLocation value)
| offers_scheduledDate value : offers s (EvSetFormField KScheduledDate value)
| offers_scheduledTime value : offers s (EvSetFormField KScheduledTime value)
| offers_priority value :
    In value priorityOptions -> offers s (EvSetFormField KPriority value)
| offers_notes value : offers s (EvSetFormField KNotes value)
| offers_selectInspector value :
    In value ("" :: List.map name availableInspectors) ->
    offers s (EvSelectInspector value)
| offers_createSchedule today : offers s (EvCreateSchedule today)
| offers_updateScheduleStatus (i : Item) newStatus :
    In i (schedules s) -> In newStatus statusOptions ->
    offers s (EvUpdateScheduleStatus (id i) newStatus).

(** The states the board reaches through offered events. *)
Inductive reachable : State -> Prop :=
| board_init : reachable initialState
| board_step s ev : reachable s -> offers s ev -> reachable (step ev s).

(** The email the inspector table gives for a name, [''] for a name it
    does not list. *)
Definition emailOf (value : string) : string :=
  match findInspector value with
  | Some i => email i
  | None => ""
  end.

(** The entry [i'] is [i] in every attribute but the status. *)
Definition same_but_status (i i' : Item) : Prop :=
  id i' = id i /\
  templateName i' = templateName i /\
  inspectorName i' = inspectorName i /\
  inspectorEmail i' = inspectorEmail i /\
  location i' = location i /\
  scheduledDate i' = scheduledDate i /\
  scheduledTime i' = scheduledTime i /\
  priority i' = priority i /\
  notes i' = notes i /\
  createdBy i' = createdBy i /\
  createdAt i' = createdAt i.

End Schedule.

(* ================================================================== *)
(** ** Form validation ([SignUp] and [Login] components) *)

(** The values of the form inputs are matched by regular expressions and
    measured by [length]: they are sequences of UTF-16 code units. *)
Definition jsstring : Type := list Z.

(** Regular expressions without captures, and [RegExp.prototype.test] for
    expressions of the form [/^r$/] (no flags): the whole input has to
    match [r]. *)
Module Regex.

Inductive t : Type :=
| Empty
| Eps
| Class (p : Z -> bool)
| Cat (r1 r2 : t)
| Alt (r1 r2 : t)
| Star (r : t).

(** [r+] *)
Definition Plus (r : t) : t := Cat r (Star r).

(** [r{n}] *)
Fixpoint Times (n : nat) (r : t) : t :=
  match n with
  | O => Eps
  | S m => Cat r (Times m r)
  end.

(** [r{0,n}] *)
Fixpoint UpTo (n : nat) (r : t) : t :=
  match n with
  | O => Eps
  | S m => Alt Eps (Cat r (UpTo m r))
  end.

(** [r{min,max}] *)
Definition Repeat (min max : nat) (r : t) : t :=
  Cat (Times min r) (UpTo (max - min) r).

Fixpoint nullable (r : t) : bool :=
  match r with
  | Empty => false
  | Eps => true
  | Class _ => false
  | Cat r1 r2 => nullable r1 && nullable r2
  | Alt r1 r2 => nullable r1 || nullable r2
  | Star _ => true
  end.

(** What is left of [r] after the code unit [c]. *)
Fixpoint deriv (c : Z) (r : t) : t :=
  match r with
  | Empty => Empty
  | Eps => Empty
  | Class p => if p c then Eps else Empty
  | Cat r1 r2 =>
      if nullable r1
      then Alt (Cat (deriv c r1) r2) (deriv c r2)
      else Cat (deriv c r1) r2
  | Alt r1 r2 => Alt (deriv c r1) (deriv c r2)
  | Star r1 => Cat (deriv c r1) (Star r1)
  end.

(** [/^r$/.test(s)] *)
Fixpoint test (r : t) (s : jsstring) : bool :=
  match s with
  | [] => nullable r
  | c :: rest => test (deriv c r) rest
  end.

(** The strings a regular expression stands for. *)
Inductive lang : t -> jsstring -> Prop :=
| lang_eps : lang Eps []
| lang_class p c : p c = true -> lang (Class p) [c]
| lang_cat r1 r2 s1 s2 : lang r1 s1 -> lang r2 s2 -> lang (Cat r1 r2) (s1 ++ s2)
| lang_alt_l r1 r2 s : lang r1 s -> lang (Alt r1 r2) s
| lang_alt_r r1 r2 s : lang r2 s -> lang (Alt r1 r2) s
| lang_star_nil r : lang (Star r) []
| lang_star_cons r s1 s2 :
    lang r s1 -> lang (Star r) s2 -> lang (Star r) (s1 ++ s2).

(** [\s]: the white space and line terminator code units of ECMAScript. *)
Definition isSpace (c : Z) : bool :=
  (c =? 9) || (c =? 10) || (c =? 11) || (c =? 12) || (c =? 13) || (c =? 32)
  || (c =? 160) || (c =? 5760) || ((8192 <=? c) && (c <=? 8202))
  || (c =? 8232) || (c =? 8233) || (c =? 8239) || (c =? 8287)
  || (c =? 12288) || (c =? 65279).

(** [\d] *)
Definition isDigit (c : Z) : bool := (48 <=? c) && (c <=? 57).

(** [[^@\s]] *)
Definition notAtOrSpace (c : Z) : bool := negb (c =? 64) && negb (isSpace c).

(** [/^[^@\s]+@[^@\s]+\.[^@\s]+$/] *)
Definition emailPattern : t :=
  Cat (Plus (Class notAtOrSpace))
    (Cat (Class (fun c => c =? 64))
       (Cat (Plus (Class notAtOrSpace))
          (Cat (Class (fun c => c =? 46))
             (Plus (Class notAtOrSpace))))).

(** [/^\d{6,15}$/] *)
Definition phonePattern : t := Repeat 6 15 (Class isDigit).

End Regex.

(** A validation result: the [newErrors] object as its key/message pairs
    in insertion order. [assign] is [newErrors.key = message]. *)
Definition Errors : Type := list (string * string).

Fixpoint assign (key message : string) (e : Errors) : Errors :=
  match e with
  | [] => [(key, message)]
  | (k, m) :: rest =>
      if String.eqb k key then (k, message) :: rest
      else (k, m) :: assign key message rest
  end.

(** [errors.key], [undefined] when the key is absent. *)
Fixpoint lookup (key : string) (e : Errors) : option string :=
  match e with
  | [] => None
  | (k, m) :: rest => if String.eqb k key then Some m else lookup key rest
  end.

(** [!value] on a string: the empty string is the falsy one. *)
Definition isEmpty (v : jsstring) : bool :=
  match v with
  | [] => true
  | _ :: _ => false
  end.

Module SignUp.

Record Form : Type := mkForm {
  email : jsstring;
  firstName : jsstring;
  lastName : jsstring;
  country : jsstring;
  phone : jsstring;
  password : jsstring;
  terms : bool;
  organization : jsstring;
  location : jsstring
}.

(** [COUNTRY_OPTIONS[0].code] is ['+91']. *)
Definition initialForm : Form :=
  mkForm [] [] [] [43; 57; 49] [] [] false [] [].

Definition validate (form : Form) : Errors :=
  let newErrors : Errors := [] in
  let newErrors :=
    if isEmpty (email form)
    then assign "email" "Email is required." newErrors
    else if negb (Regex.test Regex.emailPattern (email form))
         then assign "email" "Enter a valid email address." newErrors
         else newErrors in
  let newErrors :=
    if isEmpty (firstName form)
    then assign "firstName" "First name is required." newErrors
    else newErrors in
  let newErrors :=
    if isEmpty (lastName form)
    then assign "lastName" "Last name is required." newErrors
    else newErrors in
  let newErrors :=
    if isEmpty (phone form)
    then assign "phone" "Phone number is required." newErrors
    else if negb (Regex.test Regex.phonePattern (phone form))
         then assign "phone"
                "Enter a valid phone number (6-15 digits, no country code)."
                newErrors
         else newErrors in
  let newErrors :=
    if isEmpty (password form)
    then assign "password" "Password is required." newErrors
    else if Z.of_nat (List.length (password form)) <? 8
         then assign "password" "Password must be at least 8 characters."
                newErrors
         else newErrors in
  let newErrors :=
    if negb (terms form)
    then assign "terms" "You must agree to the terms." newErrors
    else newErrors in
  let newErrors :=
    if isEmpty (organization form)
    then assign "organization" "Organization is required." newErrors
    else newErrors in
  let newErrors :=
    if isEmpty (location form)
    then assign "location" "Location is required." newErrors
    else newErrors in
  newErrors.

(** The inputs of the form, as [handleChange] tells them apart: the
    country select by its [name], the others by their [id]; the terms
    checkbox hands over [checked], the others [value]. *)
Inductive Input : Type :=
| InCountry (value : jsstring)
| InWorkEmail (value : jsstring)
| InFirstName (value : jsstring)
| InLastName (value : jsstring)
| InPhoneNumber (value : jsstring)
| InPassword (value : jsstring)
| InTerms (checked : bool)
| InOrganization (value : jsstring)
| InLocation (value : jsstring).

Definition handleChange (e : Input) (prev : Form) : Form :=
  match e with
  | InCountry v =>
      mkForm (email prev) (firstName prev) (lastName prev) v (phone prev)
        (password prev) (terms prev) (organization prev) (location prev)
  | InWorkEmail v =>
      mkForm v (firstName prev) (lastName prev) (country prev) (phone prev)
        (password prev) (terms prev) (organization prev) (location prev)
  | InFirstName v =>
      mkForm (email prev) v (lastName prev) (country prev) (phone prev)
        (password prev) (terms prev) (organization prev) (location prev)
  | InLastName v =>
      mkForm (email prev) (firstName prev) v (country prev) (phone prev)
        (password prev) (terms prev) (organization prev) (location prev)
  | InPhoneNumber v =>
      mkForm (email prev) (firstName prev) (lastName prev) (country prev) v
        (password prev) (terms prev) (organization prev) (location prev)
  | InPassword v =>
      mkForm (email prev) (firstName prev) (lastName prev) (country prev)
        (phone prev) v (terms prev) (organization prev) (location prev)
  | InTerms b =>
      mkForm (email prev) (firstName prev) (lastName prev) (country prev)
        (phone prev) (password prev) b (organization prev) (location prev)
  | InOrganization v =>
      mkForm (email prev) (firstName prev) (lastName prev) (country prev)
        (phone prev) (password prev) (terms prev) v (location prev)
  | InLocation v =>
      mkForm (email prev) (firstName prev) (lastName prev) (country prev)
        (phone prev) (password prev) (terms prev) (organization prev) v
  end.

(** The key of [newErrors] that [validate] writes for the field an input
    feeds; the country code has no check. *)
Definition inputKey (e : Input) : option string :=
  match e with
  | InCountry _ => None
  | InWorkEmail _ => Some "email"
  | InFirstName _ => Some "firstName"
  | InLastName _ => Some "lastName"
  | InPhoneNumber _ => Some "phone"
  | InPassword _ => Some "password"
  | InTerms _ => Some "terms"
  | InOrganization _ => Some "organization"
  | InLocation _ => Some "location"
  end.

(** [handleSubmit]: the errors it stores, and the country code and phone
    number of the alert it raises when there are none. *)
Definition handleSubmit (form : Form) : Errors * option (jsstring * jsstring) :=
  let validationErrors := validate form in
  (validationErrors,
   if (List.length validationErrors =? 0)%nat
   then Some (country form, phone form)
   else None).

End SignUp.

Module Login.

Record Form : Type := mkForm {
  email : jsstring;
  password : jsstring;
  organisation : jsstring;
  location : jsstring
}.

Definition initialForm : Form := mkForm [] [] [] [].

Definition validate (form : Form) : Errors :=
  let newErrors : Errors := [] in
  let newErrors :=
    if isEmpty (email form)
    then assign "email" "Email is required." newErrors
    else if negb (Regex.test Regex.emailPattern (email form))
         then assign "email" "Enter a valid email address." newErrors
         else newErrors in
  let newErrors :=
    if isEmpty (password form)
    then assign "password" "Password is required." newErrors
    else newErrors in
  let newErrors :=
    if isEmpty (organisation form)
    then assign "organisation" "Organisation is required." newErrors
    else newErrors in
  let newErrors :=
    if isEmpty (location form)
    then assign "location" "Location is required." newErrors
    else newErrors in
  newErrors.

(** [handleSubmit]: the errors it stores, and whether it raises the
    success alert. *)
Definition handleSubmit (form : Form) : Errors * bool :=
  let validationErrors := validate form in
  (validationErrors, (List.length validationErrors =? 0)%nat).

End Login.

(* ================================================================== *)
(** ** Facts about [splice] and the reference operations *)

Section ListFacts.
Context {A : Type}.
Implicit Types (l a b : list A) (x y : A).

Lemma remove_at_cons h l n : remove_at (S n) (h :: l) = h :: remove_at n l.
Proof. reflexivity. Qed.

Lemma insert_before_cons h l n x :
  insert_before (S n) x (h :: l) = h :: insert_before n x l.
Proof. reflexivity. Qed.

Lemma remove_at_app a x b : remove_at (List.length a) (a ++ x :: b) = a ++ b.
Proof.
  induction a as [|h t IH].
  - reflexivity.
  - cbn [List.length app]. now rewrite remove_at_cons, IH.
Qed.

Lemma insert_before_app a x b :
  insert_before (List.length a) x (a ++ b) = a ++ x :: b.
Proof.
  induction a as [|h t IH].
  - reflexivity.
  - cbn [List.length app]. now rewrite insert_before_cons, IH.
Qed.

Lemma nth_error_here a x b : nth_error (a ++ x :: b) (List.length a) = Some x.
Proof. induction a; simpl; auto. Qed.

Lemma skipn_nth_error l : forall n x,
  nth_error l n = Some x -> skipn n l = x :: skipn (S n) l.
Proof.
  induction l as [|h t IH]; intros [|n] x H; simpl in *; try discriminate.
  - now inversion H.
  - now apply IH.
Qed.

Lemma remove_at_length l n :
  (n < List.length l)%nat ->
  List.length (remove_at n l) = Nat.pred (List.length l).
Proof.
  intros H. unfold remove_at.
  rewrite length_app, length_firstn, length_skipn. lia.
Qed.

Lemma insert_before_nth l j x :
  (j <= List.length l)%nat -> nth_error (insert_before j x l) j = Some x.
Proof.
  intros H. unfold insert_before.
  rewrite nth_error_app2; rewrite length_firstn.
  - replace (j - Nat.min j (List.length l))%nat with 0%nat by lia. reflexivity.
  - lia.
Qed.

Lemma insert_before_perm l j x : Permutation (x :: l) (insert_before j x l).
Proof.
  unfold insert_before.
  rewrite <- (firstn_skipn j l) at 1.
  apply Permutation_middle.
Qed.

Lemma remove_at_perm l n x :
  nth_error l n = Some x -> Permutation l (x :: remove_at n l).
Proof.
  intros H. unfold remove_at.
  rewrite <- (firstn_skipn n l) at 1.
  rewrite (skipn_nth_error _ _ _ H).
  symmetry. apply Permutation_middle.
Qed.

Lemma move_perm l i j x :
  nth_error l i = Some x ->
  Permutation l (insert_before j x (remove_at i l)).
Proof.
  intros H. etransitivity.
  - apply remove_at_perm, H.
  - apply insert_before_perm.
Qed.

(** A list splits around any two adjacent positions. *)
Lemma split_adjacent l : forall n,
  (S n < List.length l)%nat ->
  exists a x y b, l = a ++ x :: y :: b /\ List.length a = n.
Proof.
  induction l as [|h t IH]; intros n H; simpl in H; [lia|].
  destruct n as [|n].
  - destruct t as [|h' t']; simpl in H; [lia|].
    now exists [], h, h', t'.
  - destruct (IH n) as (a & x & y & b & -> & Hlen); [lia|].
    exists (h :: a), x, y, b. simpl. now rewrite Hlen.
Qed.

End ListFacts.

Section SpliceFacts.
Context {A : Type}.
Implicit Types (arr : array A) (x v : option A).

Lemma splice_remove arr src x :
  0 <= src < JS.length arr ->
  nth_error arr (Z.to_nat src) = Some x ->
  JS.splice arr src 1 [] = ([x], remove_at (Z.to_nat src) arr).
Proof.
  intros Hb Hx. unfold JS.splice, remove_at.
  destruct (Z.ltb_spec src 0) as [?|_]; [lia|].
  rewrite (Z.min_l src) by lia.
  rewrite (Z.min_l (Z.max 1 0)) by lia.
  change (Z.to_nat (Z.max 1 0)) with 1%nat.
  rewrite (skipn_nth_error _ _ _ Hx), Nat.add_1_r.
  reflexivity.
Qed.

Lemma splice_remove_beyond arr src :
  JS.length arr <= src -> JS.splice arr src 1 [] = ([], arr).
Proof.
  intros Hb. unfold JS.splice, JS.length in *.
  destruct (Z.ltb_spec src 0) as [?|_]; [lia|].
  rewrite (Z.min_r src) by lia.
  rewrite Z.sub_diag, (Z.min_r (Z.max 1 0)) by lia.
  rewrite Nat2Z.id. cbn [Z.to_nat]. rewrite Nat.add_0_r.
  rewrite skipn_all, firstn_all. cbn. now rewrite app_nil_r.
Qed.

Lemma splice_insert arr tgt v :
  0 <= tgt <= JS.length arr ->
  JS.splice arr tgt 0 [v] = ([], insert_before (Z.to_nat tgt) v arr).
Proof.
  intros Hb. unfold JS.splice, insert_before.
  destruct (Z.ltb_spec tgt 0) as [?|_]; [lia|].
  rewrite (Z.min_l tgt) by lia.
  rewrite (Z.min_l (Z.max 0 0)) by lia.
  cbn [Z.max Z.compare Z.to_nat]. rewrite Nat.add_0_r. reflexivity.
Qed.

Lemma remove_at_JS_length arr n :
  (n < List.length arr)%nat ->
  JS.length (remove_at n arr) = JS.length arr - 1.
Proof.
  intros H. unfold JS.length. rewrite remove_at_length by exact H. lia.
Qed.

(** Both indices name a position of the array: the element is moved. *)
Lemma spliceMove_in_bounds arr src tgt x :
  0 <= src < JS.length arr ->
  0 <= tgt < JS.length arr ->
  nth_error arr (Z.to_nat src) = Some x ->
  spliceMove src tgt arr =
    insert_before (Z.to_nat tgt) x (remove_at (Z.to_nat src) arr).
Proof.
  intros Hs Ht Hx. unfold spliceMove.
  rewrite (splice_remove _ _ _ Hs Hx). cbn [JS.first].
  rewrite splice_insert; [reflexivity|].
  rewrite remove_at_JS_length; unfold JS.length in *; lia.
Qed.

(** The source index names no position: nothing comes out, and
    [undefined] goes in. *)
Lemma spliceMove_source_beyond arr src tgt :
  JS.length arr <= src ->
  0 <= tgt <= JS.length arr ->
  spliceMove src tgt arr = insert_before (Z.to_nat tgt) JS.undefined arr.
Proof.
  intros Hs Ht. unfold spliceMove.
  rewrite (splice_remove_beyond _ _ Hs). cbn [JS.first].
  now rewrite splice_insert.
Qed.

Lemma in_bounds_nth arr i :
  0 <= i < JS.length arr -> exists x, nth_error arr (Z.to_nat i) = Some x.
Proof.
  intros H. destruct (nth_error arr (Z.to_nat i)) as [x|] eqn:E.
  - now exists x.
  - apply nth_error_None in E. unfold JS.length in H. lia.
Qed.

(** Moving to the same position changes nothing. *)
Lemma spliceMove_same arr i :
  0 <= i < JS.length arr -> spliceMove i i arr = arr.
Proof.
  intros H. destruct (in_bounds_nth _ _ H) as [x Hx].
  rewrite (spliceMove_in_bounds _ _ _ x H H Hx).
  destruct (nth_error_split _ _ Hx) as (a & b & -> & Hlen).
  rewrite <- Hlen. now rewrite remove_at_app, insert_before_app.
Qed.

(** One step towards the front: the element and its predecessor trade
    places. *)
Lemma spliceMove_up a x y b :
  spliceMove (Z.of_nat (List.length a) + 1) (Z.of_nat (List.length a))
    (a ++ x :: y :: b) = a ++ y :: x :: b.
Proof.
  assert (Hi : Z.to_nat (Z.of_nat (List.length a) + 1)
               = List.length (a ++ [x])).
  { rewrite length_app. simpl. lia. }
  rewrite (spliceMove_in_bounds _ _ _ y).
  - rewrite Hi, Nat2Z.id.
    replace (a ++ x :: y :: b) with ((a ++ [x]) ++ y :: b)
      by now rewrite <- app_assoc.
    rewrite remove_at_app, <- app_assoc. cbn [app].
    apply insert_before_app.
  - unfold JS.length. rewrite length_app. simpl. lia.
  - unfold JS.length. rewrite length_app. simpl. lia.
  - rewrite Hi.
    replace (a ++ x :: y :: b) with ((a ++ [x]) ++ y :: b)
      by now rewrite <- app_assoc.
    apply nth_error_here.
Qed.

(** One step towards the back: the element and its successor trade
    places. *)
Lemma spliceMove_down a x y b :
  spliceMove (Z.of_nat (List.length a)) (Z.of_nat (List.length a) + 1)
    (a ++ x :: y :: b) = a ++ y :: x :: b.
Proof.
  rewrite (spliceMove_in_bounds _ _ _ x).
  - rewrite Nat2Z.id, remove_at_app.
    replace (Z.to_nat (Z.of_nat (List.length a) + 1))
      with (List.length (a ++ [y])) by (rewrite length_app; simpl; lia).
    replace (a ++ y :: b) with ((a ++ [y]) ++ b) by now rewrite <- app_assoc.
    rewrite insert_before_app, <- app_assoc. reflexivity.
  - unfold JS.length. rewrite length_app. simpl. lia.
  - unfold JS.length. rewrite length_app. simpl. lia.
  - rewrite Nat2Z.id. apply nth_error_here.
Qed.

End SpliceFacts.

(** *** [map], [filter], [findIndex] *)

Section ArrayFacts.
Context {A B : Type}.

Lemma map_nth (f : option A -> result B) : forall arr l k x,
  JS.map f arr = Ok l ->
  nth_error arr k = Some x ->
  exists y, f x = Ok y /\ nth_error l k = Some y.
Proof.
  induction arr as [|h t IH]; intros l k x Hm Hk.
  - destruct k; discriminate.
  - simpl in Hm.
    destruct (f h) as [y0|] eqn:Eh; [|discriminate].
    destruct (JS.map f t) as [ys|] eqn:Et; [|discriminate].
    simpl in Hm. injection Hm as <-.
    destruct k as [|k]; simpl in *.
    + injection Hk as <-. now exists y0.
    + now apply (IH ys).
Qed.

Lemma map_length (f : option A -> result B) : forall arr l,
  JS.map f arr = Ok l -> List.length l = List.length arr.
Proof.
  induction arr as [|h t IH]; intros l Hm; simpl in Hm.
  - now injection Hm as <-.
  - destruct (f h); [|discriminate].
    destruct (JS.map f t) as [ys|]; [|discriminate].
    simpl in Hm. injection Hm as <-. simpl. f_equal. now apply IH.
Qed.

Lemma map_total (f : option A -> result B) (arr : array A) :
  Forall (fun x => exists y, f x = Ok y) arr ->
  exists l, JS.map f arr = Ok l.
Proof.
  induction 1 as [|h t [y Hy] _ [l Hl]]; simpl.
  - now exists [].
  - rewrite Hy, Hl. simpl. now exists (y :: l).
Qed.

End ArrayFacts.

Section ArrayFactsEndo.
Context {A : Type}.



Lemma findIndex_from_range (f : option A -> result bool) :
  forall (arr : array A) i0 i,
  JS.findIndex_from f arr i0 = Ok i ->
  i = -1 \/ i0 <= i < i0 + JS.length arr.
Proof.
  induction arr as [|h t IH]; intros i0 i H; simpl in H.
  - left. congruence.
  - destruct (f h) as [[|]|]; simpl in H; try discriminate.
    + right. injection H as <-. unfold JS.length. simpl List.length. lia.
    + destruct (IH _ _ H) as [->|Hr]; [now left|right].
      unfold JS.length in *. simpl List.length. lia.
Qed.

(** [filter] with a test that never throws is the list filter. *)
Lemma filter_live (t : A -> bool) : forall arr : array A,
  all_live arr = true ->
  JS.filter (fun x => match x with
                      | None => TypeError
                      | Some o => Ok (t o)
                      end) arr
  = Ok (List.filter (fun x => match x with
                              | Some o => t o
                              | None => true
                              end) arr).
Proof.
  induction arr as [|[o|] r IH]; simpl; intros H; try discriminate.
  - reflexivity.
  - rewrite (IH H). simpl. now destruct (t o).
Qed.

End ArrayFactsEndo.

Lemma pageIndex_range id pgs i :
  pageIndex id pgs = Ok i -> 0 <= i -> i < JS.length pgs.
Proof.
  intros H Hi. apply findIndex_from_range in H. lia.
Qed.

Lemma findIndex_from_found {A : Type} (f : option A -> result bool) :
  forall (arr : array A) i0 i,
  JS.findIndex_from f arr i0 = Ok i -> 0 <= i0 <= i ->
  exists x, nth_error arr (Z.to_nat (i - i0)) = Some x /\ f x = Ok true.
Proof.
  induction arr as [|h t IH]; intros i0 i H Hi; simpl in H.
  - injection H as <-. lia.
  - destruct (f h) as [[|]|] eqn:Eh; simpl in H; try discriminate.
    + injection H as <-. rewrite Z.sub_diag. now exists h.
    + pose proof (findIndex_from_range _ _ _ _ H) as Hr.
      destruct (IH _ _ H) as (x & Hx & Hfx); [lia|].
      exists x. split; [|exact Hfx].
      replace (Z.to_nat (i - i0)) with (S (Z.to_nat (i - (i0 + 1)))) by lia.
      exact Hx.
Qed.

Lemma findIndex_from_skip {A : Type} (f : option A -> result bool) :
  forall (a r : array A) i0,
  Forall (fun x => f x = Ok false) a ->
  JS.findIndex_from f (a ++ r) i0
  = JS.findIndex_from f r (i0 + Z.of_nat (List.length a)).
Proof.
  induction a as [|h t IH]; intros r i0 Ha; simpl.
  - now rewrite Z.add_0_r.
  - inversion Ha as [|? ? Hh Ht]; subst. rewrite Hh. cbn [JS.bind].
    rewrite IH by exact Ht. f_equal. lia.
Qed.



(** The index [movePage] works with is that of a page carrying the id. *)
Lemma pageIndex_finds id pgs i :
  pageIndex id pgs = Ok i -> 0 <= i ->
  exists o, nth_error pgs (Z.to_nat i) = Some (Some o) /\ page_id o = id.
Proof.
  intros H Hi. destruct (findIndex_from_found _ _ _ _ H) as (x & Hx & Hf); [lia|].
  rewrite Z.sub_0_r in Hx. destruct x as [o|]; [|discriminate].
  exists o. split; [exact Hx|]. injection Hf as Hf. now apply Z.eqb_eq.
Qed.

(** *** The step move *)

Section StepFacts.
Context {A : Type}.
Implicit Types (arr : array A).

Lemma stepMove_up_first arr : stepMove 0 "up" arr = arr.
Proof. reflexivity. Qed.

Lemma stepMove_down_last arr idx :
  idx = JS.length arr - 1 -> stepMove idx "down" arr = arr.
Proof.
  intros ->. unfold stepMove. cbn [String.eqb Ascii.eqb Bool.eqb].
  replace (JS.length arr - 1 + 1 >=? JS.length arr) with true.
  - now rewrite orb_true_r.
  - symmetry. apply Z.geb_le. lia.
Qed.

Lemma stepMove_up_swap arr idx :
  0 < idx < JS.length arr ->
  swapped_at (Z.to_nat (idx - 1)) arr (stepMove idx "up" arr).
Proof.
  intros H. unfold JS.length in H.
  destruct (split_adjacent arr (Z.to_nat (idx - 1)))
    as (a & x & y & b & -> & Hlen); [lia|].
  exists a, x, y, b. repeat split; trivial.
  unfold stepMove. cbn [String.eqb Ascii.eqb Bool.eqb].
  destruct (Z.ltb_spec (idx - 1) 0); [lia|].
  destruct (Z.geb_spec (idx - 1) (JS.length (a ++ x :: y :: b))) as [Hge|_].
  - unfold JS.length in Hge. rewrite length_app in *. simpl in *. lia.
  - cbn [orb].
    replace idx with (Z.of_nat (List.length a) + 1) by lia.
    replace (Z.of_nat (List.length a) + 1 - 1)
      with (Z.of_nat (List.length a)) by lia.
    apply spliceMove_up.
Qed.

Lemma stepMove_down_swap arr idx :
  0 <= idx < JS.length arr - 1 ->
  swapped_at (Z.to_nat idx) arr (stepMove idx "down" arr).
Proof.
  intros H. unfold JS.length in H.
  destruct (split_adjacent arr (Z.to_nat idx))
    as (a & x & y & b & -> & Hlen); [lia|].
  exists a, x, y, b. repeat split; trivial.
  unfold stepMove. cbn [String.eqb Ascii.eqb Bool.eqb].
  destruct (Z.ltb_spec (idx + 1) 0); [lia|].
  destruct (Z.geb_spec (idx + 1) (JS.length (a ++ x :: y :: b))) as [Hge|_].
  - unfold JS.length in Hge. rewrite length_app in *. simpl in *. lia.
  - cbn [orb].
    replace idx with (Z.of_nat (List.length a)) by lia.
    apply spliceMove_down.
Qed.

(** The step move does what [stepMoved] describes, in both directions. *)
Lemma stepMove_stepMoved arr idx direction :
  0 <= idx < JS.length arr ->
  stepMoved idx direction arr (stepMove idx direction arr).
Proof.
  intros H. split; intros ->; split.
  - intros ->. apply stepMove_up_first.
  - intros Hpos. apply stepMove_up_swap. lia.
  - intros Hlast. now apply stepMove_down_last.
  - intros Hlt. apply stepMove_down_swap. unfold JS.length. lia.
Qed.


End StepFacts.

(* ================================================================== *)
(** ** The handlers in terms of the shared bodies *)

Lemma moveTitleField_updater_stepMove idx direction fields :
  moveTitleField_updater idx direction fields = stepMove idx direction fields.
Proof. reflexivity. Qed.

Lemma handleTitleFieldDrop_updater_spliceMove dragged idx fields :
  handleTitleFieldDrop_updater dragged idx fields = spliceMove dragged idx fields.
Proof. reflexivity. Qed.

Lemma movePage_updater_stepMove id direction pgs i :
  pageIndex id pgs = Ok i -> 0 <= i ->
  movePage_updater id direction pgs = Ok (stepMove i direction pgs).
Proof.
  intros Hi Hpos. unfold movePage_updater.
  change (JS.findIndex _ pgs) with (pageIndex id pgs). rewrite Hi.
  cbn [JS.bind]. destruct (Z.ltb_spec i 0); [lia|].
  unfold stepMove.
  now destruct ((_ <? 0) || (_ >=? JS.length pgs)).
Qed.

Lemma page_with_own_questions o : page_with_questions o (page_questions o) = o.
Proof. now destruct o. Qed.

Lemma moveQuestion_page_stepMove pageId_ idx direction o :
  page_id o = pageId_ ->
  moveQuestion_page pageId_ idx direction (Some o)
  = Ok (Some (page_with_questions o
                (stepMove idx direction (page_questions o)))).
Proof.
  intros <-. unfold moveQuestion_page, stepMove.
  rewrite Z.eqb_refl. cbn [negb].
  destruct ((_ <? 0) || (_ >=? JS.length (page_questions o))).
  - now rewrite page_with_own_questions.
  - reflexivity.
Qed.

Lemma moveQuestion_page_other pageId_ idx direction o :
  page_id o <> pageId_ ->
  moveQuestion_page pageId_ idx direction (Some o) = Ok (Some o).
Proof.
  intros H. unfold moveQuestion_page.
  now destruct (Z.eqb_spec (page_id o) pageId_).
Qed.

Lemma handleQuestionDrop_page_spliceMove dragged pageId_ idx_ o :
  page_id o = pageId_ ->
  handleQuestionDrop_page dragged pageId_ idx_ (Some o)
  = Ok (Some (page_with_questions o
                (spliceMove dragged idx_ (page_questions o)))).
Proof.
  intros <-. unfold handleQuestionDrop_page.
  now rewrite Z.eqb_refl.
Qed.

Lemma handleQuestionDrop_page_other dragged pageId_ idx_ o :
  page_id o <> pageId_ ->
  handleQuestionDrop_page dragged pageId_ idx_ (Some o) = Ok (Some o).
Proof.
  intros H. unfold handleQuestionDrop_page.
  now destruct (Z.eqb_spec (page_id o) pageId_).
Qed.

Lemma all_live_Forall {A : Type} (arr : array A) :
  all_live arr = true -> Forall (fun x => exists o, x = Some o) arr.
Proof.
  unfold all_live. rewrite forallb_forall, Forall_forall.
  intros H x Hx. specialize (H x Hx). destruct x as [o|]; [now exists o|discriminate].
Qed.



(** A page function that never throws on a page maps every all-page array. *)
Lemma map_pages_total (f : option Page -> result (option Page)) pgs :
  all_live pgs = true ->
  (forall o, exists y, f (Some o) = Ok y) ->
  exists l, JS.map f pgs = Ok l.
Proof.
  intros Hl Hf. apply map_total.
  eapply Forall_impl; [|apply all_live_Forall, Hl].
  intros p [o ->]. apply Hf.
Qed.

(* ================================================================== *)
(** ** Step moves *)

(** [findIndex] stops at the first page carrying the id. *)
Lemma first_carrier_pageIndex k o pgs :
  first_carrier k o pgs -> pageIndex (page_id o) pgs = Ok (Z.of_nat k).
Proof.
  intros [Hk Hbefore].
  destruct (nth_error_split _ _ Hk) as (a & b & E & Hlen). subst pgs k.
  unfold pageIndex, JS.findIndex. rewrite findIndex_from_skip.
  - cbn. now rewrite Z.eqb_refl.
  - apply Forall_forall. intros x Hx. apply In_nth_error in Hx as [j Hj].
    assert (Hlt : (j < List.length a)%nat)
      by (apply nth_error_Some; congruence).
    destruct (Hbefore j Hlt) as (o' & Ho' & Hne).
    rewrite nth_error_app1 in Ho' by exact Hlt.
    rewrite Hj in Ho'. injection Ho' as ->.
    now destruct (Z.eqb_spec (page_id o') (page_id o)).
Qed.

(** With pairwise distinct ids every page is the first carrier of its id. *)
Lemma distinct_ids_first_carrier k o pgs :
  all_live pgs = true ->
  NoDup (ids_of page_id pgs) ->
  nth_error pgs k = Some (Some o) ->
  first_carrier k o pgs.
Proof.
  intros Hlive Hnd Hk. split; [exact Hk|]. intros j Hj.
  destruct (nth_error_split _ _ Hk) as (a & b & E & Hlen). subst pgs k.
  destruct (nth_error a j) as [x|] eqn:Hx;
    [|apply nth_error_None in Hx; lia].
  assert (Hin : In x a) by exact (nth_error_In _ _ Hx).
  destruct x as [o'|].
  - exists o'. split; [now rewrite nth_error_app1|].
    intros Heq. unfold ids_of in Hnd. rewrite flat_map_app in Hnd.
    cbn in Hnd. apply NoDup_remove_2 in Hnd. apply Hnd.
    apply in_or_app. left. apply in_flat_map.
    exists (Some o'). split; [exact Hin|]. left. exact Heq.
  - exfalso. unfold all_live in Hlive. rewrite forallb_forall in Hlive.
    specialize (Hlive None (in_or_app _ _ _ (or_introl Hin))). discriminate.
Qed.

Lemma movePage_first_carrier direction s k o :
  first_carrier k o (pages s) ->
  movePage (page_id o) direction s
  = Ok (setPages (stepMove (Z.of_nat k) direction (pages s)) s) /\
  0 <= Z.of_nat k < JS.length (pages s).
Proof.
  intros H. pose proof (first_carrier_pageIndex _ _ _ H) as Hi. split.
  - unfold movePage.
    now rewrite (movePage_updater_stepMove _ _ _ _ Hi) by lia.
  - split; [lia|]. apply (pageIndex_range (page_id o)); [exact Hi|lia].
Qed.

(** C3, counterexample. Two [addPage] calls read the same clock value, so
    the second and the third page carry the same id. The move-up button of
    the third card calls [movePage] with that id; [findIndex] stops at the
    second card, which then trades places with the first: the page list is
    not the one in which the third card traded places with its neighbour. *)
Lemma move_page_with_repeated_id_moves_the_first_carrier :
  run [OpAddPage 1700000001000 1700000001000;
       OpAddPage 1700000001000 1700000001000] initialState
  = Ok repeatedIdState /\
  (exists o,
      nth_error (pages repeatedIdState) 2 = Some (Some o) /\
      page_id o = 1700000001000) /\
  exists s',
    movePage 1700000001000 "up" repeatedIdState = Ok s' /\
    ids_of page_id (pages s') = [1700000001000; 1; 1700000001000] /\
    nth_error (pages s') 0 <> nth_error (pages repeatedIdState) 0 /\
    ~ stepMoved 2 "up" (pages repeatedIdState) (pages s').
Proof.
  split; [reflexivity|]. split; [eexists; split; reflexivity|].
  eexists. split; [reflexivity|]. split; [reflexivity|].
  split; [cbn; discriminate|].
  intros [Hup _]. destruct (Hup eq_refl) as [_ Hswap].
  destruct Hswap as (a & x & y & b & E & Hlen & E'); [lia|].
  change (Z.to_nat (2 - 1)) with 1%nat in Hlen.
  destruct a as [|a0 [|a1 a]]; cbn in Hlen; try discriminate.
  cbn in E, E'. injection E as <- _ _ _. discriminate E'.
Qed.

(** C3, as the handlers have it. A step move of a title field or of a
    question at a valid index trades the element with its neighbour in the
    given direction and keeps every other element in place; at the boundary
    the move would cross (first position going up, last position going
    down) the collection is returned unchanged. [movePage] is addressed by
    id and moves the first page carrying the id: the page whose button was
    pressed when it is the first carrier of its id, as it is whenever the
    page ids are pairwise distinct. *)
Theorem step_move_swaps_with_neighbour (direction : string) :
  (forall s idx,
      0 <= idx < JS.length (titleFields s) ->
      exists s',
        moveTitleField idx direction s = Ok s' /\
        stepMoved idx direction (titleFields s) (titleFields s')) /\
  (forall s k o,
      first_carrier k o (pages s) ->
      exists s',
        movePage (page_id o) direction s = Ok s' /\
        stepMoved (Z.of_nat k) direction (pages s) (pages s')) /\
  (forall s k o,
      all_live (pages s) = true ->
      NoDup (ids_of page_id (pages s)) ->
      nth_error (pages s) k = Some (Some o) ->
      exists s',
        movePage (page_id o) direction s = Ok s' /\
        stepMoved (Z.of_nat k) direction (pages s) (pages s')) /\
  (forall s pageId_ idx k o,
      all_live (pages s) = true ->
      nth_error (pages s) k = Some (Some o) ->
      page_id o = pageId_ ->
      0 <= idx < JS.length (page_questions o) ->
      exists s' C',
        moveQuestion pageId_ idx direction s = Ok s' /\
        slot_holds k o C' (pages s') /\
        stepMoved idx direction (page_questions o) C').
Proof.
  assert (Hpage : forall s k o,
             first_carrier k o (pages s) ->
             exists s',
               movePage (page_id o) direction s = Ok s' /\
               stepMoved (Z.of_nat k) direction (pages s) (pages s')).
  { intros s k o H.
    destruct (movePage_first_carrier direction s k o H) as [Hrun Hk].
    eexists. split; [exact Hrun|]. cbn [pages setPages].
    now apply stepMove_stepMoved. }
  split; [|split; [exact Hpage|split]].
  - intros s idx H. eexists. split; [reflexivity|].
    cbn [titleFields setTitleFields].
    rewrite moveTitleField_updater_stepMove. now apply stepMove_stepMoved.
  - intros s k o Hlive Hnd Hk. apply Hpage.
    now apply distinct_ids_first_carrier.
  - intros s pageId_ idx k o Hlive Hk Hid Hidx.
    destruct (map_pages_total (moveQuestion_page pageId_ idx direction)
                (pages s) Hlive) as [pgs Hpgs].
    { intros o'. destruct (Z.eq_dec (page_id o') pageId_) as [E|E].
      - rewrite (moveQuestion_page_stepMove _ _ _ _ E). eauto.
      - rewrite (moveQuestion_page_other _ _ _ _ E). eauto. }
    exists (setPages pgs s), (stepMove idx direction (page_questions o)).
    split; [|split].
    + unfold moveQuestion. now rewrite Hpgs.
    + destruct (map_nth _ _ _ _ _ Hpgs Hk) as (y & Hy & Hn).
      rewrite (moveQuestion_page_stepMove _ _ _ _ Hid) in Hy.
      injection Hy as <-. cbn [pages setPages].
      show_slot Hn.
    + now apply stepMove_stepMoved.
Qed.

Lemma step_move_swaps_with_neighbour_witness :
  (exists s',
      moveTitleField 0 "down" initialState = Ok s' /\
      stepMoved 0 "down" (titleFields initialState) (titleFields s')) /\
  (exists s',
      movePage 1700000001000 "up" twoPageState = Ok s' /\
      stepMoved (Z.of_nat 1) "up" (pages twoPageState) (pages s')) /\
  (exists s',
      movePage 1 "down" twoPageState = Ok s' /\
      stepMoved (Z.of_nat 0) "down" (pages twoPageState) (pages s')) /\
  (let o := mkPage 1 "Untitled Page"
              [ Some (mkQuestion 1 "" "yesno");
                Some (mkQuestion 1700000000000 "" "yesno") ] in
   exists s' C',
     moveQuestion 1 0 "down" twoPageState = Ok s' /\
     slot_holds 0 o C' (pages s') /\
     stepMoved 0 "down" (page_questions o) C').
Proof.
  split; [|split; [|split]].
  - apply (proj1 (step_move_swaps_with_neighbour "down") initialState 0).
    cbn. lia.
  - apply (proj1 (proj2 (step_move_swaps_with_neighbour "up")) twoPageState
             1%nat
             (mkPage 1700000001000 "Untitled Page"
                [ Some (mkQuestion 1700000001001 "" "yesno");
                  Some (mkQuestion 1700000002000 "" "yesno") ])).
    split; [reflexivity|]. intros j Hj.
    destruct j as [|j]; [|lia].
    eexists. split; [reflexivity|]. cbn. lia.
  - apply (proj1 (proj2 (proj2 (step_move_swaps_with_neighbour "down")))
             twoPageState 0%nat
             (mkPage 1 "Untitled Page"
                [ Some (mkQuestion 1 "" "yesno");
                  Some (mkQuestion 1700000000000 "" "yesno") ])).
    + reflexivity.
    + cbn. constructor; [|constructor; [|constructor]]; cbn.
      * intros [H|[]]. discriminate H.
      * intros [].
    + reflexivity.
  - apply (proj2 (proj2 (proj2 (step_move_swaps_with_neighbour "down")))
             twoPageState 1 0 0%nat
             (mkPage 1 "Untitled Page"
                [ Some (mkQuestion 1 "" "yesno");
                  Some (mkQuestion 1700000000000 "" "yesno") ])).
    + reflexivity.
    + reflexivity.
    + reflexivity.
    + cbn. lia.
Defined.



(* ================================================================== *)
(** ** Pointer-drag reorder *)

Section DragFacts.
Context {A : Type}.
Implicit Types (l : list A) (arr : array A).

Lemma dragReorder_perm l i j : Permutation l (dragReorder l i j).
Proof.
  unfold dragReorder. destruct (Nat.eqb i j); [reflexivity|].
  destruct (nth_error l i) as [x|] eqn:E; [|reflexivity].
  now apply move_perm.
Qed.

Lemma dragReorder_target l i j :
  (i < List.length l)%nat -> (j < List.length l)%nat ->
  nth_error (dragReorder l i j) j = nth_error l i.
Proof.
  intros Hi Hj. unfold dragReorder.
  destruct (Nat.eqb_spec i j) as [->|_]; [reflexivity|].
  destruct (nth_error l i) as [x|] eqn:E.
  - apply insert_before_nth. rewrite remove_at_length by exact Hi. lia.
  - apply nth_error_None in E. lia.
Qed.

(** Within bounds the two [splice] calls are the reorder of the
    specification. *)
Lemma spliceMove_dragReorder arr src tgt :
  0 <= src < JS.length arr ->
  0 <= tgt < JS.length arr ->
  spliceMove src tgt arr = dragReorder arr (Z.to_nat src) (Z.to_nat tgt).
Proof.
  intros Hs Ht. unfold dragReorder.
  destruct (Nat.eqb_spec (Z.to_nat src) (Z.to_nat tgt)) as [E|_].
  - assert (src = tgt) as -> by lia. now apply spliceMove_same.
  - destruct (in_bounds_nth _ _ Hs) as [x Hx]. rewrite Hx.
    now apply spliceMove_in_bounds.
Qed.

End DragFacts.

Lemma ids_of_perm {A : Type} (id : A -> Z) (arr arr' : array A) :
  Permutation arr arr' -> Permutation (ids_of id arr) (ids_of id arr').
Proof. apply Permutation_flat_map. Qed.

Lemma handleTitleFieldDrop_moves s src tgt :
  draggedFieldIdx s = Some src -> src <> tgt ->
  handleTitleFieldDrop tgt s
  = Ok (setDraggedFieldIdx None
          (setTitleFields (spliceMove src tgt (titleFields s)) s)).
Proof.
  intros Hd Hne. unfold handleTitleFieldDrop. rewrite Hd.
  now destruct (Z.eqb_spec src tgt).
Qed.

Lemma handleQuestionDrop_idle s pageId_ idx_ :
  pageId (draggedQuestion s) = None \/ idx (draggedQuestion s) = None ->
  handleQuestionDrop pageId_ idx_ s = Ok s.
Proof.
  unfold handleQuestionDrop. intros [->| ->]; [reflexivity|].
  now destruct (pageId (draggedQuestion s)).
Qed.

(** What a committed question drop does to the page in slot [k] when that
    page carries the id the drop is addressed to. *)
Lemma handleQuestionDrop_on_page s dp src pageId_ tgt k o :
  pageId (draggedQuestion s) = Some dp ->
  idx (draggedQuestion s) = Some src ->
  all_live (pages s) = true ->
  nth_error (pages s) k = Some (Some o) ->
  page_id o = pageId_ ->
  exists pgs,
    handleQuestionDrop pageId_ tgt s
    = Ok (setDraggedQuestion (mkDraggedQuestion None None) (setPages pgs s)) /\
    nth_error pgs k
    = Some (Some (page_with_questions o
                    (spliceMove src tgt (page_questions o)))).
Proof.
  intros Hp Hi Hlive Hk Hid.
  destruct (map_pages_total (handleQuestionDrop_page src pageId_ tgt)
              (pages s) Hlive) as [pgs Hpgs].
  { intros o'. destruct (Z.eq_dec (page_id o') pageId_) as [E|E].
    - rewrite (handleQuestionDrop_page_spliceMove _ _ _ _ E). eauto.
    - rewrite (handleQuestionDrop_page_other _ _ _ _ E). eauto. }
  exists pgs. split.
  - unfold handleQuestionDrop. now rewrite Hp, Hi, Hpgs.
  - destruct (map_nth _ _ _ _ _ Hpgs Hk) as (y & Hy & Hn).
    rewrite (handleQuestionDrop_page_spliceMove _ _ _ _ Hid) in Hy.
    now injection Hy as <-.
Qed.



(* ================================================================== *)
(** ** Drops against a collection that changed during the drag *)

(** C1, counterexample. A drag starts on title field 3, the field is
    removed, and the drop arrives with the captured index 3 beyond the
    three remaining fields: the drop is not cancelled, the collection
    gains an [undefined] slot at the target index. *)
Lemma stale_title_field_drop_is_applied :
  run [OpHandleTitleFieldDragStart 3; OpRemoveTitleField 4] initialState
  = Ok staleDragState /\
  draggedFieldIdx staleDragState = Some 3 /\
  JS.length (titleFields staleDragState) <= 3 /\
  exists s',
    handleTitleFieldDrop 0 staleDragState = Ok s' /\
    titleFields s' = JS.undefined :: titleFields staleDragState /\
    titleFields s' <> titleFields staleDragState.
Proof.
  split; [reflexivity|]. split; [reflexivity|]. split; [cbn; lia|].
  eexists. split; [reflexivity|]. split; [reflexivity|].
  cbn. discriminate.
Qed.

(** C1, as the handlers have it. A drop returns the state as it is when no
    drag is in progress and, for title fields, when it lands on the row
    whose index is the captured one. Otherwise the captured source index
    is used as it is, with no comparison against the collection of drag
    start. When it lies within the collection at drop time (and so does
    the target), the element that now occupies it ends up at the target
    index and every element is kept. When it lies at or beyond the length
    of the collection, the drop is applied all the same: nothing is taken
    out and an [undefined] slot is put before the row at the target
    index, so the collection grows by one slot. *)
Theorem drop_uses_captured_index_unchecked :
  (forall s tgt,
      draggedFieldIdx s = None \/ draggedFieldIdx s = Some tgt ->
      handleTitleFieldDrop tgt s = Ok s) /\
  (forall s pageId_ tgt,
      pageId (draggedQuestion s) = None \/ idx (draggedQuestion s) = None ->
      handleQuestionDrop pageId_ tgt s = Ok s) /\
  (forall s src tgt,
      draggedFieldIdx s = Some src ->
      0 <= src < JS.length (titleFields s) ->
      0 <= tgt < JS.length (titleFields s) ->
      exists s',
        handleTitleFieldDrop tgt s = Ok s' /\
        draggedFieldIdx s' = (if src =? tgt then Some src else None) /\
        nth_error (titleFields s') (Z.to_nat tgt)
        = nth_error (titleFields s) (Z.to_nat src) /\
        Permutation (titleFields s) (titleFields s')) /\
  (forall s dp src pageId_ tgt k o,
      pageId (draggedQuestion s) = Some dp ->
      idx (draggedQuestion s) = Some src ->
      all_live (pages s) = true ->
      nth_error (pages s) k = Some (Some o) ->
      page_id o = pageId_ ->
      0 <= src < JS.length (page_questions o) ->
      0 <= tgt < JS.length (page_questions o) ->
      exists s' qs,
        handleQuestionDrop pageId_ tgt s = Ok s' /\
        draggedQuestion s' = mkDraggedQuestion None None /\
        questions_at k (pages s') = Some qs /\
        nth_error qs (Z.to_nat tgt)
        = nth_error (page_questions o) (Z.to_nat src) /\
        Permutation (page_questions o) qs) /\
  (forall s src tgt,
      draggedFieldIdx s = Some src ->
      JS.length (titleFields s) <= src ->
      0 <= tgt < JS.length (titleFields s) ->
      exists s',
        handleTitleFieldDrop tgt s = Ok s' /\
        draggedFieldIdx s' = None /\
        titleFields s'
        = insert_before (Z.to_nat tgt) JS.undefined (titleFields s) /\
        JS.length (titleFields s') = JS.length (titleFields s) + 1) /\
  (forall s dp src pageId_ tgt k o,
      pageId (draggedQuestion s) = Some dp ->
      idx (draggedQuestion s) = Some src ->
      all_live (pages s) = true ->
      nth_error (pages s) k = Some (Some o) ->
      page_id o = pageId_ ->
      JS.length (page_questions o) <= src ->
      0 <= tgt < JS.length (page_questions o) ->
      exists s' qs,
        handleQuestionDrop pageId_ tgt s = Ok s' /\
        draggedQuestion s' = mkDraggedQuestion None None /\
        questions_at k (pages s') = Some qs /\
        qs = insert_before (Z.to_nat tgt) JS.undefined (page_questions o) /\
        JS.length qs = JS.length (page_questions o) + 1).
Proof.
  assert (Hgrow : forall (A : Type) (l : array A) j (x : option A),
             JS.length (insert_before j x l) = JS.length l + 1).
  { intros A l j x. unfold JS.length.
    rewrite <- (Permutation_length (insert_before_perm l j x)).
    cbn [List.length]. lia. }
  split; [|split; [|split; [|split; [|split]]]].
  - intros s tgt [H|H]; unfold handleTitleFieldDrop; rewrite H.
    + reflexivity.
    + now rewrite Z.eqb_refl.
  - intros s pageId_ tgt H. now apply handleQuestionDrop_idle.
  - intros s src tgt Hd Hs Ht.
    destruct (Z.eqb_spec src tgt) as [->|Hne].
    + exists s. unfold handleTitleFieldDrop. rewrite Hd, Z.eqb_refl.
      split; [reflexivity|]. split; [reflexivity|]. split; reflexivity.
    + eexists. split; [exact (handleTitleFieldDrop_moves s src tgt Hd Hne)|].
      cbn [draggedFieldIdx titleFields setDraggedFieldIdx setTitleFields].
      rewrite spliceMove_dragReorder by assumption.
      split; [reflexivity|]. split.
      * apply dragReorder_target; unfold JS.length in *; lia.
      * apply dragReorder_perm.
  - intros s dp src pageId_ tgt k o Hp Hi Hlive Hk Hid Hs Ht.
    destruct (handleQuestionDrop_on_page s dp src pageId_ tgt k o
                Hp Hi Hlive Hk Hid) as (pgs & Hrun & Hpg).
    eexists. exists (spliceMove src tgt (page_questions o)).
    split; [exact Hrun|]. split; [reflexivity|]. split.
    + unfold questions_at. cbn [pages setDraggedQuestion setPages].
      now rewrite Hpg.
    + rewrite spliceMove_dragReorder by assumption. split.
      * apply dragReorder_target; unfold JS.length in *; lia.
      * apply dragReorder_perm.
  - intros s src tgt Hd Hbeyond Ht.
    assert (Hne : src <> tgt) by lia.
    eexists. split; [exact (handleTitleFieldDrop_moves s src tgt Hd Hne)|].
    cbn [draggedFieldIdx titleFields setDraggedFieldIdx setTitleFields].
    rewrite spliceMove_source_beyond by lia.
    split; [reflexivity|]. split; [reflexivity|]. apply Hgrow.
  - intros s dp src pageId_ tgt k o Hp Hi Hlive Hk Hid Hbeyond Ht.
    destruct (handleQuestionDrop_on_page s dp src pageId_ tgt k o
                Hp Hi Hlive Hk Hid) as (pgs & Hrun & Hpg).
    rewrite spliceMove_source_beyond in Hpg by lia.
    eexists. eexists.
    split; [exact Hrun|]. split; [reflexivity|]. split.
    + unfold questions_at. cbn [pages setDraggedQuestion setPages].
      rewrite Hpg. reflexivity.
    + split; [reflexivity|]. apply Hgrow.
Qed.

Lemma drop_uses_captured_index_unchecked_witness :
  handleTitleFieldDrop 0 initialState = Ok initialState /\
  handleQuestionDrop 1 0 initialState = Ok initialState /\
  (exists s',
      handleTitleFieldDrop 0 (setDraggedFieldIdx (Some 2) staleDragState)
      = Ok s' /\
      draggedFieldIdx s' = (if 2 =? 0 then Some 2 else None) /\
      nth_error (titleFields s') (Z.to_nat 0)
      = nth_error (titleFields (setDraggedFieldIdx (Some 2) staleDragState))
          (Z.to_nat 2) /\
      Permutation (titleFields (setDraggedFieldIdx (Some 2) staleDragState))
        (titleFields s')) /\
  (exists s' qs,
      handleQuestionDrop 1 0
        (setDraggedQuestion (mkDraggedQuestion (Some 1) (Some 1)) twoPageState)
      = Ok s' /\
      draggedQuestion s' = mkDraggedQuestion None None /\
      questions_at 0 (pages s') = Some qs /\
      nth_error qs (Z.to_nat 0)
      = nth_error [ Some (mkQuestion 1 "" "yesno");
                    Some (mkQuestion 1700000000000 "" "yesno") ] (Z.to_nat 1) /\
      Permutation [ Some (mkQuestion 1 "" "yesno");
                    Some (mkQuestion 1700000000000 "" "yesno") ] qs) /\
  (exists s',
      handleTitleFieldDrop 0 staleDragState = Ok s' /\
      draggedFieldIdx s' = None /\
      titleFields s'
      = insert_before (Z.to_nat 0) JS.undefined (titleFields staleDragState) /\
      JS.length (titleFields s') = JS.length (titleFields staleDragState) + 1) /\
  (exists s' qs,
      handleQuestionDrop 1 0
        (setDraggedQuestion (mkDraggedQuestion (Some 1) (Some 2)) twoPageState)
      = Ok s' /\
      draggedQuestion s' = mkDraggedQuestion None None /\
      questions_at 0 (pages s') = Some qs /\
      qs = insert_before (Z.to_nat 0) JS.undefined
             [ Some (mkQuestion 1 "" "yesno");
               Some (mkQuestion 1700000000000 "" "yesno") ] /\
      JS.length qs
      = JS.length [ Some (mkQuestion 1 "" "yesno");
                    Some (mkQuestion 1700000000000 "" "yesno") ] + 1).
Proof.
  pose proof drop_uses_captured_index_unchecked
    as (Hidle & Hqidle & Hfield & Hquestion & Hbeyond & Hqbeyond).
  split; [|split; [|split; [|split; [|split]]]].
  - apply (Hidle initialState 0). left. reflexivity.
  - apply (Hqidle initialState 1 0). left. reflexivity.
  - apply (Hfield (setDraggedFieldIdx (Some 2) staleDragState) 2 0).
    + reflexivity.
    + cbn. lia.
    + cbn. lia.
  - apply (Hquestion
             (setDraggedQuestion (mkDraggedQuestion (Some 1) (Some 1))
                twoPageState) 1 1 1 0 0%nat
             (mkPage 1 "Untitled Page"
                [ Some (mkQuestion 1 "" "yesno");
                  Some (mkQuestion 1700000000000 "" "yesno") ])).
    + reflexivity.
    + reflexivity.
    + reflexivity.
    + reflexivity.
    + reflexivity.
    + cbn. lia.
    + cbn. lia.
  - apply (Hbeyond staleDragState 3 0).
    + reflexivity.
    + cbn. lia.
    + cbn. lia.
  - apply (Hqbeyond
             (setDraggedQuestion (mkDraggedQuestion (Some 1) (Some 2))
                twoPageState) 1 2 1 0 0%nat
             (mkPage 1 "Untitled Page"
                [ Some (mkQuestion 1 "" "yesno");
                  Some (mkQuestion 1700000000000 "" "yesno") ])).
    + reflexivity.
    + reflexivity.
    + reflexivity.
    + reflexivity.
    + reflexivity.
    + cbn. lia.
    + cbn. lia.
Defined.

(* ================================================================== *)
(** ** A question drop on another page *)

(** C8, the handler at a cross-page drop. The drag starts on the second
    question of the first page; the drop is delivered on the first row of
    the second page. [handleQuestionDragOver] tells the two pages apart,
    [handleQuestionDrop] does not: it applies the index captured on the
    first page to the questions of the second page, which trade places,
    while the page the drag started on keeps its order. *)
Lemma cross_page_drop_reorders_other_page :
  exists s1 s2,
    handleQuestionDragStart 1 1 twoPageState = Ok s1 /\
    handleQuestionDragOver 1 1 s1 = false /\
    handleQuestionDragOver 1700000001000 1 s1 = true /\
    handleQuestionDrop 1700000001000 0 s1 = Ok s2 /\
    questions_at 0 (pages s2) = questions_at 0 (pages twoPageState) /\
    questions_at 1 (pages s2)
    = Some [ Some (mkQuestion 1700000002000 "" "yesno");
             Some (mkQuestion 1700000001001 "" "yesno") ] /\
    questions_at 1 (pages s2) <> questions_at 1 (pages twoPageState).
Proof.
  do 2 eexists. split; [reflexivity|].
  split; [reflexivity|]. split; [reflexivity|].
  split; [reflexivity|]. split; [reflexivity|].
  split; [reflexivity|]. cbn. discriminate.
Qed.

(* ================================================================== *)
(** ** Remove *)

Section WithoutId.
Context {A : Type} (id : A -> Z).
Implicit Types (arr : array A).




End WithoutId.

Section DistinctIds.
Context {A : Type} (id : A -> Z).
Implicit Types (arr : array A).

Lemma without_id_ids_incl id0 arr z :
  In z (ids_of id (without_id id id0 arr)) -> In z (ids_of id arr).
Proof.
  unfold ids_of, without_id. rewrite !in_flat_map.
  intros (x & Hx & Hz). apply filter_In in Hx. exists x. tauto.
Qed.

Lemma without_id_NoDup id0 arr :
  NoDup (ids_of id arr) -> NoDup (ids_of id (without_id id id0 arr)).
Proof.
  induction arr as [|[o|] r IH]; intros H.
  - exact H.
  - cbn in H. apply NoDup_cons_iff in H as [Hnotin Hr].
    cbn. destruct (negb (id o =? id0)).
    + cbn. constructor; [|now apply IH].
      intros Hin. apply Hnotin. exact (without_id_ids_incl _ _ _ Hin).
    + now apply IH.
  - cbn. cbn in H. now apply IH.
Qed.

(** With distinct ids a removal takes at most one object: two or more
    objects do not all go. *)
Lemma without_id_nonempty id0 arr :
  all_live arr = true ->
  NoDup (ids_of id arr) ->
  (1 < List.length arr)%nat ->
  without_id id id0 arr <> [].
Proof.
  destruct arr as [|[o1|] [|[o2|] r]]; cbn; intros Hl Hn Hlen;
    try discriminate; try lia.
  apply NoDup_cons_iff in Hn as [Hnotin _].
  destruct (Z.eqb_spec (id o1) id0) as [E1|E1]; cbn; [|discriminate].
  destruct (Z.eqb_spec (id o2) id0) as [E2|E2]; cbn; [|discriminate].
  exfalso. apply Hnotin. left. congruence.
Qed.

Lemma without_id_Forall (P : option A -> Prop) id0 arr :
  Forall P arr -> Forall P (without_id id id0 arr).
Proof.
  rewrite !Forall_forall. intros H x Hx. apply H.
  unfold without_id in Hx. now apply filter_In in Hx.
Qed.

End DistinctIds.

Lemma removeTitleField_filters s id0 :
  all_live (titleFields s) = true ->
  removeTitleField id0 s
  = Ok (setTitleFields (without_id field_id id0 (titleFields s)) s).
Proof.
  intros H. unfold removeTitleField.
  now rewrite (filter_live (fun o => negb (field_id o =? id0)) _ H).
Qed.


Lemma removePage_filters s id0 :
  1 < JS.length (pages s) ->
  all_live (pages s) = true ->
  removePage id0 s = Ok (setPages (without_id page_id id0 (pages s)) s).
Proof.
  intros Hn H. unfold removePage.
  destruct (Z.gtb_spec (JS.length (pages s)) 1); [|lia].
  now rewrite (filter_live (fun o => negb (page_id o =? id0)) _ H).
Qed.

Lemma removeQuestion_page_single pageId_ qid o :
  JS.length (page_questions o) <= 1 ->
  removeQuestion_page pageId_ qid (Some o) = Ok (Some o).
Proof.
  intros H. unfold removeQuestion_page.
  destruct (page_id o =? pageId_); [|reflexivity].
  destruct (Z.gtb_spec (JS.length (page_questions o)) 1); [lia|].
  cbn [JS.bind]. now rewrite page_with_own_questions.
Qed.

Lemma removeQuestion_page_other pageId_ qid o :
  page_id o <> pageId_ ->
  removeQuestion_page pageId_ qid (Some o) = Ok (Some o).
Proof.
  intros H. unfold removeQuestion_page.
  now destruct (Z.eqb_spec (page_id o) pageId_).
Qed.

Lemma removeQuestion_page_filters pageId_ qid o :
  page_id o = pageId_ ->
  1 < JS.length (page_questions o) ->
  all_live (page_questions o) = true ->
  removeQuestion_page pageId_ qid (Some o)
  = Ok (Some (page_with_questions o
                (without_id question_id qid (page_questions o)))).
Proof.
  intros <- Hn H. unfold removeQuestion_page. rewrite Z.eqb_refl.
  destruct (Z.gtb_spec (JS.length (page_questions o)) 1); [|lia].
  now rewrite (filter_live (fun q => negb (question_id q =? qid)) _ H).
Qed.

Lemma pages_live_all_live pgs : pages_live pgs = true -> all_live pgs = true.
Proof.
  unfold pages_live, all_live. rewrite !forallb_forall.
  intros H p Hp. specialize (H p Hp). now destruct p.
Qed.


(** Whatever its branch, [removeQuestion] answers on a live page. *)
Lemma removeQuestion_page_total pageId_ qid o :
  all_live (page_questions o) = true ->
  exists y, removeQuestion_page pageId_ qid (Some o) = Ok y.
Proof.
  intros H.
  destruct (Z.eq_dec (page_id o) pageId_) as [E|E].
  - destruct (Z.le_gt_cases (JS.length (page_questions o)) 1) as [Hn|Hn].
    + rewrite removeQuestion_page_single by exact Hn. eauto.
    + rewrite removeQuestion_page_filters by (trivial; lia). eauto.
  - rewrite removeQuestion_page_other by exact E. eauto.
Qed.

Lemma removeQuestion_total s pageId_ qid :
  pages_live (pages s) = true ->
  exists pgs,
    JS.map (removeQuestion_page pageId_ qid) (pages s) = Ok pgs /\
    removeQuestion pageId_ qid s = Ok (setPages pgs s).
Proof.
  intros H.
  destruct (map_total (removeQuestion_page pageId_ qid) (pages s)) as [pgs Hp].
  - unfold pages_live in H. rewrite forallb_forall in H.
    apply Forall_forall. intros [o|] Hin; specialize (H _ Hin).
    + now apply removeQuestion_page_total.
    + discriminate.
  - exists pgs. split; [exact Hp|]. unfold removeQuestion. now rewrite Hp.
Qed.









(* ================================================================== *)
(** ** Insert *)

Lemma ids_of_cons {A : Type} (id : A -> Z) (o : A) (r : array A) :
  ids_of id (Some o :: r) = id o :: ids_of id r.
Proof. reflexivity. Qed.

Lemma ids_of_app {A : Type} (id : A -> Z) (a b : array A) :
  ids_of id (a ++ b) = ids_of id a ++ ids_of id b.
Proof. apply flat_map_app. Qed.

Lemma NoDup_snoc (l : list Z) (x : Z) :
  NoDup l -> ~ In x l -> NoDup (l ++ [x]).
Proof.
  intros Hl Hx. apply (Permutation_NoDup (l := x :: l)).
  - apply Permutation_cons_append.
  - now constructor.
Qed.

Lemma ids_of_snoc_NoDup {A : Type} (id : A -> Z) (arr : array A) (o : A) :
  NoDup (ids_of id arr) -> ~ In (id o) (ids_of id arr) ->
  NoDup (ids_of id (arr ++ [Some o])).
Proof.
  intros Hn Hf. rewrite ids_of_app. cbn. now apply NoDup_snoc.
Qed.

Lemma addQuestion_page_other pageId_ now o :
  page_id o <> pageId_ -> addQuestion_page pageId_ now (Some o) = Ok (Some o).
Proof.
  intros H. unfold addQuestion_page.
  now destruct (Z.eqb_spec (page_id o) pageId_).
Qed.

Lemma addQuestion_page_appends pageId_ now o :
  page_id o = pageId_ ->
  addQuestion_page pageId_ now (Some o)
  = Ok (Some (page_with_questions o
                (page_questions o ++ [Some (mkQuestion now "" "yesno")]))).
Proof.
  intros <-. unfold addQuestion_page. now rewrite Z.eqb_refl.
Qed.




(* ================================================================== *)
(** ** The frame of the question handlers *)

Lemma handleQuestionChange_page_other pageId_ qid key value o :
  page_id o <> pageId_ ->
  handleQuestionChange_page pageId_ qid key value (Some o) = Ok (Some o).
Proof.
  intros H. unfold handleQuestionChange_page.
  now destruct (Z.eqb_spec (page_id o) pageId_).
Qed.

Lemma handleQuestionChange_page_total pageId_ qid key value o :
  all_live (page_questions o) = true ->
  exists y, handleQuestionChange_page pageId_ qid key value (Some o) = Ok y.
Proof.
  intros H. unfold handleQuestionChange_page.
  destruct (page_id o =? pageId_); [|eauto].
  match goal with
  | |- context [JS.map ?f ?l] => destruct (map_total f l) as [qs Hqs]
  end.
  - eapply Forall_impl; [|apply all_live_Forall, H]. intros q [oq ->]. eauto.
  - rewrite Hqs. cbn [JS.bind]. eauto.
Qed.

(** A map over the pages that gives back every page with another id. *)
Lemma map_pages_frame (f : option Page -> result (option Page)) pageId_ s pgs :
  (forall o, page_id o <> pageId_ -> f (Some o) = Ok (Some o)) ->
  JS.map f (pages s) = Ok pgs ->
  forall dq,
    unchanged_outside_page pageId_ s (setDraggedQuestion dq (setPages pgs s)).
Proof.
  intros Hf Hm dq. unfold unchanged_outside_page. cbn.
  do 4 (split; [reflexivity|]). split.
  - now apply (map_length f).
  - intros k o Hk Hne.
    destruct (map_nth _ _ _ _ _ Hm Hk) as (y & Hy & Hn).
    rewrite (Hf o Hne) in Hy. now injection Hy as <-.
Qed.

Lemma unchanged_outside_page_refl pageId_ s : unchanged_outside_page pageId_ s s.
Proof. unfold unchanged_outside_page. intuition. Qed.

Lemma setDraggedQuestion_same s : setDraggedQuestion (draggedQuestion s) s = s.
Proof. now destruct s. Qed.

(** C10. Each handler addressed to the questions of the page with id
    [pageId_] leaves title, description, image and title fields as they
    are and returns every page with a different id unchanged in its slot;
    on a template whose pages and questions are all objects the handler
    does return a state. *)
Theorem question_handlers_leave_the_rest_unchanged
  (pageId_ : Z) (h : State -> result State) :
  question_handler pageId_ h ->
  (forall s s', h s = Ok s' -> unchanged_outside_page pageId_ s s') /\
  (forall s, pages_live (pages s) = true -> exists s', h s = Ok s').
Proof.
  intros Hh. split.
  - intros s s' Hrun.
    rewrite <- (setDraggedQuestion_same s').
    destruct Hh as [now|qid|idx_ direction|qid key value|idx_].
    + unfold addQuestion in Hrun.
      destruct (JS.map _ (pages s)) as [pgs|] eqn:E; [|discriminate].
      injection Hrun as <-.
      apply (map_pages_frame _ _ _ _ (addQuestion_page_other pageId_ now) E).
    + unfold removeQuestion in Hrun.
      destruct (JS.map _ (pages s)) as [pgs|] eqn:E; [|discriminate].
      injection Hrun as <-.
      apply (map_pages_frame _ _ _ _ (removeQuestion_page_other pageId_ qid) E).
    + unfold moveQuestion in Hrun.
      destruct (JS.map _ (pages s)) as [pgs|] eqn:E; [|discriminate].
      injection Hrun as <-.
      apply (map_pages_frame _ _ _ _
               (moveQuestion_page_other pageId_ idx_ direction) E).
    + unfold handleQuestionChange in Hrun.
      destruct (JS.map _ (pages s)) as [pgs|] eqn:E; [|discriminate].
      injection Hrun as <-.
      apply (map_pages_frame _ _ _ _
               (handleQuestionChange_page_other pageId_ qid key value) E).
    + unfold handleQuestionDrop in Hrun.
      destruct (pageId (draggedQuestion s)) as [dp|];
        [destruct (idx (draggedQuestion s)) as [src|]|].
      * destruct (JS.map _ (pages s)) as [pgs|] eqn:E; [|discriminate].
        injection Hrun as <-.
        apply (map_pages_frame _ _ _ _
                 (handleQuestionDrop_page_other src pageId_ idx_) E).
      * injection Hrun as <-. rewrite setDraggedQuestion_same.
        apply unchanged_outside_page_refl.
      * injection Hrun as <-. rewrite setDraggedQuestion_same.
        apply unchanged_outside_page_refl.
  - intros s Hlive. pose proof (pages_live_all_live _ Hlive) as Hall.
    destruct Hh as [now|qid|idx_ direction|qid key value|idx_].
    + destruct (map_pages_total (addQuestion_page pageId_ now) (pages s) Hall)
        as [pgs Hpgs].
      { intros o. unfold addQuestion_page. eauto. }
      unfold addQuestion. rewrite Hpgs. cbn. eauto.
    + destruct (removeQuestion_total s pageId_ qid Hlive) as (pgs & _ & Hr).
      eauto.
    + destruct (map_pages_total (moveQuestion_page pageId_ idx_ direction)
                  (pages s) Hall) as [pgs Hpgs].
      { intros o. destruct (Z.eq_dec (page_id o) pageId_) as [E|E].
        - rewrite (moveQuestion_page_stepMove _ _ _ _ E). eauto.
        - rewrite (moveQuestion_page_other _ _ _ _ E). eauto. }
      unfold moveQuestion. rewrite Hpgs. cbn. eauto.
    + destruct (map_total (handleQuestionChange_page pageId_ qid key value)
                  (pages s)) as [pgs Hpgs].
      { unfold pages_live in Hlive. rewrite forallb_forall in Hlive.
        apply Forall_forall. intros [o|] Hin; specialize (Hlive _ Hin).
        - now apply handleQuestionChange_page_total.
        - discriminate. }
      unfold handleQuestionChange. rewrite Hpgs. cbn. eauto.
    + unfold handleQuestionDrop.
      destruct (pageId (draggedQuestion s)) as [dp|]; [|eauto].
      destruct (idx (draggedQuestion s)) as [src|]; [|eauto].
      destruct (map_pages_total (handleQuestionDrop_page src pageId_ idx_)
                  (pages s) Hall) as [pgs Hpgs].
      { intros o. destruct (Z.eq_dec (page_id o) pageId_) as [E|E].
        - rewrite (handleQuestionDrop_page_spliceMove _ _ _ _ E). eauto.
        - rewrite (handleQuestionDrop_page_other _ _ _ _ E). eauto. }
      rewrite Hpgs. cbn. eauto.
Qed.

Lemma question_handlers_leave_the_rest_unchanged_witness :
  exists s',
    removeQuestion 1700000001000 1700000001001 twoPageState = Ok s' /\
    unchanged_outside_page 1700000001000 twoPageState s'.
Proof.
  destruct (question_handlers_leave_the_rest_unchanged 1700000001000 _
              (qh_remove 1700000001000 1700000001001)) as [Hframe Htotal].
  destruct (Htotal twoPageState eq_refl) as [s' Hs'].
  exists s'. split; [exact Hs'|]. exact (Hframe _ _ Hs').
Defined.

(* ================================================================== *)
(** ** The minimum-size invariant *)

Section SpliceAnyIndex.
Context {A : Type}.
Implicit Types (arr : array A).

(** Whatever the index, [splice(src, 1)] takes out nothing or one element. *)
Lemma splice_delete_cases arr src :
  JS.splice arr src 1 [] = ([], arr) \/
  exists k x, nth_error arr k = Some x /\
              JS.splice arr src 1 [] = ([x], remove_at k arr).
Proof.
  unfold JS.splice, JS.length.
  set (len := Z.of_nat (List.length arr)).
  set (a := if src <? 0 then Z.max (len + src) 0 else Z.min src len).
  assert (Ha : 0 <= a <= len) by (subst a len; destruct (Z.ltb_spec src 0); lia).
  destruct (Z.eq_dec a len) as [E|E].
  - left. rewrite E, Z.sub_diag. subst len.
    rewrite Nat2Z.id. cbn [Z.max Z.min Z.compare Z.to_nat].
    rewrite Nat.add_0_r, skipn_all, firstn_all. cbn. now rewrite app_nil_r.
  - right. destruct (nth_error arr (Z.to_nat a)) as [x|] eqn:Hx.
    + exists (Z.to_nat a), x. split; [exact Hx|].
      rewrite (Z.min_l (Z.max 1 0)) by lia.
      change (Z.to_nat (Z.max 1 0)) with 1%nat.
      rewrite (skipn_nth_error _ _ _ Hx), Nat.add_1_r. reflexivity.
    + apply nth_error_None in Hx. lia.
Qed.

(** Whatever the index, [splice(tgt, 0, v)] puts [v] somewhere. *)
Lemma splice_insert_any arr tgt v :
  exists k, JS.splice arr tgt 0 [v] = ([], insert_before k v arr).
Proof.
  unfold JS.splice, JS.length, insert_before.
  set (len := Z.of_nat (List.length arr)).
  set (a := if tgt <? 0 then Z.max (len + tgt) 0 else Z.min tgt len).
  assert (Ha : 0 <= a <= len) by (subst a len; destruct (Z.ltb_spec tgt 0); lia).
  exists (Z.to_nat a).
  rewrite (Z.min_l (Z.max 0 0)) by (cbn; lia).
  cbn [Z.max Z.compare Z.to_nat]. now rewrite Nat.add_0_r.
Qed.

(** The two [splice] calls of a reorder keep every element; at most they
    add one [undefined] slot. *)
Lemma spliceMove_any src tgt arr :
  Permutation arr (spliceMove src tgt arr) \/
  Permutation (JS.undefined :: arr) (spliceMove src tgt arr).
Proof.
  unfold spliceMove.
  destruct (splice_delete_cases arr src) as [E|(k & x & Hx & E)]; rewrite E.
  - right. cbn [JS.first].
    destruct (splice_insert_any arr tgt JS.undefined) as [k' ->].
    apply insert_before_perm.
  - left. cbn [JS.first].
    destruct (splice_insert_any (remove_at k arr) tgt x) as [k' ->].
    now apply move_perm.
Qed.

Lemma stepMove_any idx_ direction arr :
  Permutation arr (stepMove idx_ direction arr) \/
  Permutation (JS.undefined :: arr) (stepMove idx_ direction arr).
Proof.
  unfold stepMove. destruct ((_ <? 0) || (_ >=? JS.length arr)).
  - now left.
  - apply spliceMove_any.
Qed.

(** At a valid index the step move only permutes. *)
Lemma stepMove_perm idx_ direction arr :
  0 <= idx_ < JS.length arr -> Permutation arr (stepMove idx_ direction arr).
Proof.
  intros H. unfold stepMove.
  set (newIdx := if String.eqb direction "up" then idx_ - 1 else idx_ + 1).
  destruct (Z.ltb_spec newIdx 0); [reflexivity|].
  destruct (Z.geb_spec newIdx (JS.length arr)); [reflexivity|].
  cbn [orb]. rewrite spliceMove_dragReorder by lia. apply dragReorder_perm.
Qed.

(** A [filter] call that answers has met no [undefined]. *)
Lemma filter_Ok_live (t : A -> bool) : forall arr r,
  JS.filter (fun x => match x with
                      | None => TypeError
                      | Some o => Ok (t o)
                      end) arr = Ok r ->
  all_live arr = true.
Proof.
  induction arr as [|[o|] rest IH]; simpl; intros r H; try discriminate.
  - reflexivity.
  - destruct (JS.filter _ rest) as [ys|] eqn:E; [|discriminate].
    now apply (IH ys).
Qed.

End SpliceAnyIndex.

(** A question list stays non-empty with distinct ids when it is permuted
    or gains an [undefined] slot. *)
Lemma questions_ok_rearranged (qs qs' : array Question) :
  Permutation qs qs' \/ Permutation (JS.undefined :: qs) qs' ->
  qs <> [] /\ NoDup (ids_of question_id qs) ->
  qs' <> [] /\ NoDup (ids_of question_id qs').
Proof.
  intros [Hp|Hp] [Hne Hnd]; split.
  - intros ->. apply Hne. now apply Permutation_nil, Permutation_sym.
  - apply (Permutation_NoDup (ids_of_perm question_id _ _ Hp) Hnd).
  - intros ->. now apply Permutation_sym, Permutation_nil in Hp.
  - apply (Permutation_NoDup (ids_of_perm question_id _ _ Hp)). exact Hnd.
Qed.

Lemma pages_ok_perm (pgs pgs' : array Page) :
  Permutation pgs pgs' -> pages_ok pgs -> pages_ok pgs'.
Proof.
  intros Hp (Hne & Hnd & Hall). repeat split.
  - intros ->. apply Hne. now apply Permutation_nil, Permutation_sym.
  - apply (Permutation_NoDup (ids_of_perm page_id _ _ Hp) Hnd).
  - apply (Permutation_Forall Hp Hall).
Qed.

(** *** The page functions keep [page_ok] *)

Lemma page_with_questions_ok o qs :
  qs <> [] /\ NoDup (ids_of question_id qs) ->
  exists o', Some (page_with_questions o qs) = Some o' /\
             page_id o' = page_id o /\ page_ok o'.
Proof. intros H. now exists (page_with_questions o qs). Qed.

Lemma addQuestion_page_ok pageId_ now o y :
  page_ok o ->
  (page_id o = pageId_ -> ~ In now (ids_of question_id (page_questions o))) ->
  addQuestion_page pageId_ now (Some o) = Ok y ->
  exists o', y = Some o' /\ page_id o' = page_id o /\ page_ok o'.
Proof.
  intros [Hne Hnd] Hfresh H.
  destruct (Z.eq_dec (page_id o) pageId_) as [E|E].
  - rewrite (addQuestion_page_appends _ _ _ E) in H. injection H as <-.
    apply page_with_questions_ok. split.
    + intros Hnil. now apply app_eq_nil in Hnil as [_ Hnil].
    + apply ids_of_snoc_NoDup; [exact Hnd|exact (Hfresh E)].
  - rewrite (addQuestion_page_other _ _ _ E) in H. injection H as <-.
    exists o. now repeat split.
Qed.

Lemma removeQuestion_page_ok pageId_ qid o y :
  page_ok o ->
  removeQuestion_page pageId_ qid (Some o) = Ok y ->
  exists o', y = Some o' /\ page_id o' = page_id o /\ page_ok o'.
Proof.
  intros [Hne Hnd] H. unfold removeQuestion_page in H.
  destruct (page_id o =? pageId_).
  - destruct (Z.gtb_spec (JS.length (page_questions o)) 1) as [Hlen|Hlen].
    + destruct (JS.filter _ (page_questions o)) as [qs|] eqn:E; [|discriminate].
      pose proof (filter_Ok_live _ _ _ E) as Hlive.
      rewrite (filter_live (fun q => negb (question_id q =? qid)) _ Hlive) in E.
      injection E as <-. cbn [JS.bind] in H. injection H as <-.
      apply page_with_questions_ok. split.
      * apply without_id_nonempty; trivial. unfold JS.length in Hlen. lia.
      * now apply without_id_NoDup.
    + cbn [JS.bind] in H. injection H as <-.
      apply page_with_questions_ok. now split.
  - injection H as <-. exists o. now repeat split.
Qed.

Lemma question_with_id q key value :
  question_id (question_with q key value) = question_id q.
Proof. now destruct key. Qed.

(** Editing questions changes neither their number nor their ids. *)
Lemma change_questions_ids qid key value : forall qs qs',
  JS.map (fun q =>
      match q with
      | None => TypeError
      | Some oq =>
          Ok (if question_id oq =? qid
              then Some (question_with oq key value) else q)
      end) qs = Ok qs' ->
  ids_of question_id qs' = ids_of question_id qs /\ (qs <> [] -> qs' <> []).
Proof.
  induction qs as [|[oq|] r IH]; simpl; intros qs' H; try discriminate.
  - injection H as <-. now split.
  - destruct (JS.map _ r) as [r'|] eqn:E; [|discriminate].
    cbn [JS.bind] in H. injection H as <-.
    destruct (IH r' eq_refl) as [Hids _]. split; [|discriminate].
    destruct (question_id oq =? qid);
      rewrite !ids_of_cons, ?question_with_id; now rewrite Hids.
Qed.

Lemma handleQuestionChange_page_ok pageId_ qid key value o y :
  page_ok o ->
  handleQuestionChange_page pageId_ qid key value (Some o) = Ok y ->
  exists o', y = Some o' /\ page_id o' = page_id o /\ page_ok o'.
Proof.
  intros [Hne Hnd] H. unfold handleQuestionChange_page in H.
  destruct (page_id o =? pageId_).
  - destruct (JS.map _ (page_questions o)) as [qs|] eqn:E; [|discriminate].
    cbn [JS.bind] in H. injection H as <-.
    destruct (change_questions_ids _ _ _ _ _ E) as [Hids Hne'].
    apply page_with_questions_ok. split; [now apply Hne'|now rewrite Hids].
  - injection H as <-. exists o. now repeat split.
Qed.

Lemma moveQuestion_page_ok pageId_ idx_ direction o y :
  page_ok o ->
  moveQuestion_page pageId_ idx_ direction (Some o) = Ok y ->
  exists o', y = Some o' /\ page_id o' = page_id o /\ page_ok o'.
Proof.
  intros Hok H.
  destruct (Z.eq_dec (page_id o) pageId_) as [E|E].
  - rewrite (moveQuestion_page_stepMove _ _ _ _ E) in H. injection H as <-.
    apply page_with_questions_ok.
    exact (questions_ok_rearranged _ _ (stepMove_any _ _ _) Hok).
  - rewrite (moveQuestion_page_other _ _ _ _ E) in H. injection H as <-.
    now exists o.
Qed.

Lemma handleQuestionDrop_page_ok dragged pageId_ idx_ o y :
  page_ok o ->
  handleQuestionDrop_page dragged pageId_ idx_ (Some o) = Ok y ->
  exists o', y = Some o' /\ page_id o' = page_id o /\ page_ok o'.
Proof.
  intros Hok H.
  destruct (Z.eq_dec (page_id o) pageId_) as [E|E].
  - rewrite (handleQuestionDrop_page_spliceMove _ _ _ _ E) in H.
    injection H as <-. apply page_with_questions_ok.
    exact (questions_ok_rearranged _ _ (spliceMove_any _ _ _) Hok).
  - rewrite (handleQuestionDrop_page_other _ _ _ _ E) in H. injection H as <-.
    now exists o.
Qed.

(** A map over the pages that keeps each page's id and [page_ok] keeps
    [pages_ok]. *)
Lemma map_pages_keeps (f : option Page -> result (option Page)) :
  forall pgs pgs',
  Forall (fun p => exists o, p = Some o /\ page_ok o) pgs ->
  (forall o y, In (Some o) pgs -> page_ok o -> f (Some o) = Ok y ->
               exists o', y = Some o' /\ page_id o' = page_id o /\ page_ok o') ->
  JS.map f pgs = Ok pgs' ->
  ids_of page_id pgs' = ids_of page_id pgs /\
  Forall (fun p => exists o, p = Some o /\ page_ok o) pgs' /\
  (pgs <> [] -> pgs' <> []).
Proof.
  induction pgs as [|p r IH]; simpl; intros pgs' Hall Hf H.
  - injection H as <-. now repeat split.
  - inversion Hall as [|? ? (o & -> & Hok) Hr]; subst.
    destruct (f (Some o)) as [y|] eqn:Ey; [|discriminate].
    destruct (JS.map f r) as [r'|] eqn:Er; [|discriminate].
    cbn [JS.bind] in H. injection H as <-.
    destruct (Hf o y (or_introl eq_refl) Hok Ey) as (o' & -> & Hid & Hok').
    destruct (IH r' Hr) as (Hids & Hall' & _); [|reflexivity|].
    { intros o2 y2 Hin. apply Hf. now right. }
    repeat split.
    + rewrite !ids_of_cons. now rewrite Hid, Hids.
    + constructor; [now exists o'|exact Hall'].
    + discriminate.
Qed.

Lemma map_pages_ok (f : option Page -> result (option Page)) pgs pgs' :
  pages_ok pgs ->
  (forall o y, In (Some o) pgs -> page_ok o -> f (Some o) = Ok y ->
               exists o', y = Some o' /\ page_id o' = page_id o /\ page_ok o') ->
  JS.map f pgs = Ok pgs' ->
  pages_ok pgs'.
Proof.
  intros (Hne & Hnd & Hall) Hf H.
  destruct (map_pages_keeps f pgs pgs' Hall Hf H) as (Hids & Hall' & Hne').
  repeat split; [now apply Hne'|now rewrite Hids|exact Hall'].
Qed.

Lemma pages_ok_all_live pgs : pages_ok pgs -> all_live pgs = true.
Proof.
  intros (_ & _ & Hall). unfold all_live. apply forallb_forall.
  rewrite Forall_forall in Hall. intros p Hp.
  now destruct (Hall p Hp) as (o & -> & _).
Qed.

(** *** Every event keeps [pages_ok] *)

Lemma addPage_pages_ok s now1 now2 s' :
  pages_ok (pages s) ->
  ~ In now1 (ids_of page_id (pages s)) ->
  addPage now1 now2 s = Ok s' -> pages_ok (pages s').
Proof.
  intros (Hne & Hnd & Hall) Hfresh H. injection H as <-. cbn. repeat split.
  - intros Hnil. now apply app_eq_nil in Hnil as [_ Hnil].
  - now apply ids_of_snoc_NoDup.
  - apply Forall_app. split; [exact Hall|]. constructor; [|constructor].
    eexists. split; [reflexivity|]. split; cbn.
    + discriminate.
    + repeat constructor. intros [].
Qed.

Lemma removePage_pages_ok s id0 s' :
  pages_ok (pages s) -> removePage id0 s = Ok s' -> pages_ok (pages s').
Proof.
  intros Hok H. unfold removePage in H.
  destruct (Z.gtb_spec (JS.length (pages s)) 1) as [Hlen|Hlen].
  - destruct (JS.filter _ (pages s)) as [pgs|] eqn:E; [|discriminate].
    pose proof (pages_ok_all_live _ Hok) as Hlive.
    rewrite (filter_live (fun o => negb (page_id o =? id0)) _ Hlive) in E.
    injection E as <-. cbn [JS.bind] in H. injection H as <-. cbn.
    destruct Hok as (Hne & Hnd & Hall). repeat split.
    + apply without_id_nonempty; trivial. unfold JS.length in Hlen. lia.
    + now apply without_id_NoDup.
    + now apply without_id_Forall.
  - cbn [JS.bind] in H. injection H as <-. exact Hok.
Qed.

Lemma handlePageTitleChange_pages_ok s id0 value s' :
  pages_ok (pages s) ->
  handlePageTitleChange id0 value s = Ok s' -> pages_ok (pages s').
Proof.
  intros Hok H. unfold handlePageTitleChange in H.
  destruct (JS.map _ (pages s)) as [pgs|] eqn:E; [|discriminate].
  cbn [JS.bind] in H. injection H as <-. cbn.
  refine (map_pages_ok _ _ _ Hok _ E).
  intros o y _ Ho Hy. injection Hy as <-.
  destruct (page_id o =? id0).
  - exists (page_with_title o value).
    split; [reflexivity|]. split; [reflexivity|exact Ho].
  - now exists o.
Qed.

Lemma movePage_pages_ok s id0 direction s' :
  pages_ok (pages s) -> movePage id0 direction s = Ok s' -> pages_ok (pages s').
Proof.
  intros Hok H. unfold movePage in H.
  destruct (pageIndex id0 (pages s)) as [i|] eqn:Ei.
  - destruct (Z.ltb_spec i 0) as [Hneg|Hpos].
    + unfold movePage_updater in H.
      change (JS.findIndex _ (pages s)) with (pageIndex id0 (pages s)) in H.
      rewrite Ei in H. cbn [JS.bind] in H.
      destruct (Z.ltb_spec i 0); [|lia].
      cbn [JS.bind] in H. injection H as <-. exact Hok.
    + rewrite (movePage_updater_stepMove _ _ _ _ Ei Hpos) in H.
      cbn [JS.bind] in H. injection H as <-. cbn.
      refine (pages_ok_perm _ _ _ Hok). apply stepMove_perm.
      split; [exact Hpos|]. now apply (pageIndex_range id0).
  - unfold movePage_updater in H.
    change (JS.findIndex _ (pages s)) with (pageIndex id0 (pages s)) in H.
    rewrite Ei in H. discriminate.
Qed.

Lemma step_keeps_pages_ok op s s' :
  pages_ok (pages s) -> clock_fresh op s -> step op s = Ok s' ->
  pages_ok (pages s').
Proof.
  intros Hok Hfresh H.
  destruct op; cbn [step clock_fresh] in *;
    try (injection H as <-; exact Hok).
  - (* handleTitleFieldChange *)
    unfold handleTitleFieldChange in H.
    destruct (JS.map _ (titleFields s)); [|discriminate].
    injection H as <-. exact Hok.
  - (* removeTitleField *)
    unfold removeTitleField in H.
    destruct (JS.filter _ (titleFields s)); [|discriminate].
    injection H as <-. exact Hok.
  - (* handleTitleFieldDrop *)
    unfold handleTitleFieldDrop in H.
    destruct (draggedFieldIdx s) as [d|]; [|injection H as <-; exact Hok].
    destruct (d =? idx0); injection H as <-; exact Hok.
  - now apply (addPage_pages_ok s now1 now2).
  - now apply (removePage_pages_ok s id).
  - now apply (handlePageTitleChange_pages_ok s id value).
  - now apply (movePage_pages_ok s id direction).
  - (* addQuestion *)
    unfold addQuestion in H.
    destruct (JS.map _ (pages s)) as [pgs|] eqn:E; [|discriminate].
    injection H as <-. cbn. refine (map_pages_ok _ _ _ Hok _ E).
    intros o y Hin Ho. apply addQuestion_page_ok; [exact Ho|].
    now apply Hfresh.
  - (* removeQuestion *)
    unfold removeQuestion in H.
    destruct (JS.map _ (pages s)) as [pgs|] eqn:E; [|discriminate].
    injection H as <-. cbn. refine (map_pages_ok _ _ _ Hok _ E).
    intros o y _. apply removeQuestion_page_ok.
  - (* handleQuestionChange *)
    unfold handleQuestionChange in H.
    destruct (JS.map _ (pages s)) as [pgs|] eqn:E; [|discriminate].
    injection H as <-. cbn. refine (map_pages_ok _ _ _ Hok _ E).
    intros o y _. apply handleQuestionChange_page_ok.
  - (* moveQuestion *)
    unfold moveQuestion in H.
    destruct (JS.map _ (pages s)) as [pgs|] eqn:E; [|discriminate].
    injection H as <-. cbn. refine (map_pages_ok _ _ _ Hok _ E).
    intros o y _. apply moveQuestion_page_ok.
  - (* handleQuestionDrop *)
    unfold handleQuestionDrop in H.
    destruct (pageId (draggedQuestion s));
      [destruct (idx (draggedQuestion s)) as [src|]|];
      try (injection H as <-; exact Hok).
    destruct (JS.map _ (pages s)) as [pgs|] eqn:E; [|discriminate].
    injection H as <-. cbn. refine (map_pages_ok _ _ _ Hok _ E).
    intros o y _. apply handleQuestionDrop_page_ok.
Qed.

Lemma initialState_pages_ok : pages_ok (pages initialState).
Proof.
  cbn. repeat split.
  - discriminate.
  - repeat constructor. intros [].
  - constructor; [|constructor]. eexists. split; [reflexivity|].
    split; cbn; [discriminate|]. repeat constructor. intros [].
Qed.

Lemma reachable_pages_ok s : reachable s -> pages_ok (pages s).
Proof.
  induction 1 as [|s op s' _ IH Hfresh Hstep].
  - apply initialState_pages_ok.
  - exact (step_keeps_pages_ok op s s' IH Hfresh Hstep).
Qed.

(** C5, counterexample. Two inserts read the same clock value, so two pages
    (two questions) share an id; once the element with the other id is
    removed, one remove on the two-element list takes both and leaves the
    page list (the question list of the page) empty. *)
Lemma repeated_clock_reading_empties_the_lists :
  (exists s',
      run [OpAddPage 1700000001000 1700000001000;
           OpAddPage 1700000001000 1700000001000;
           OpRemovePage 1;
           OpRemovePage 1700000001000] initialState = Ok s' /\
      pages s' = []) /\
  (exists s',
      run [OpAddQuestion 1 1700000001000;
           OpAddQuestion 1 1700000001000;
           OpRemoveQuestion 1 1;
           OpRemoveQuestion 1 1700000001000] initialState = Ok s' /\
      questions_at 0 (pages s') = Some []).
Proof.
  split; eexists; split; reflexivity.
Qed.

(** C5, as the handlers have it. Along every sequence of events from the
    initial state in which each insert reads a clock value that is not
    already an id of the collection it extends, the page list is non-empty,
    every slot of it holds a page, and every page has at least one
    question. *)
Theorem fresh_clock_keeps_lists_nonempty (s : State) :
  reachable s -> nonempty_lists s.
Proof.
  intros Hr. destruct (reachable_pages_ok s Hr) as (Hne & _ & Hall).
  split; [exact Hne|].
  eapply Forall_impl; [|exact Hall].
  intros p (o & -> & Ho & _). now exists o.
Qed.

Lemma fresh_clock_keeps_lists_nonempty_witness : nonempty_lists twoPageState.
Proof.
  apply fresh_clock_keeps_lists_nonempty.
  refine (reach_step _ (OpAddQuestion 1700000001000 1700000002000) _
            (reach_step _ (OpAddPage 1700000001000 1700000001000) _
               (reach_step _ (OpAddQuestion 1 1700000000000) _
                  reach_init _ eq_refl) _ eq_refl) _ eq_refl).
  - cbn. intros o [H|[]] _. injection H as <-. cbn. intros [H|[]]. discriminate.
  - cbn. intros [H|[]]. discriminate.
  - cbn. intros o [H|[H|[]]] Hid; injection H as <-; cbn in *;
      [discriminate|].
    intros [H|[]]. discriminate.
Defined.

(* ================================================================== *)
(** ** Further properties of the template builder *)

(** *** Which cells a handler writes *)

(** X1. A handler that returns changes no state cell other than those its
    [useState] setters address: the text setters and the title-field
    handlers never touch the pages, the page and question handlers never
    touch the title fields or the template texts, and only drag starts and
    drops touch their own drag cell. *)
Theorem handlers_write_only_their_cells (op : Op) (s s' : State) (c : Cell) :
  step op s = Ok s' -> ~ In c (writes op) -> same_cell c s s'.
Proof.
  intros H Hc.
  destruct op; cbn [step] in H;
    unfold handleTitleFieldChange, addTitleField, removeTitleField,
      moveTitleField, handleTitleFieldDragStart, handleTitleFieldDrop,
      addPage, removePage, handlePageTitleChange, movePage, addQuestion,
      removeQuestion, handleQuestionChange, moveQuestion,
      handleQuestionDragStart, handleQuestionDrop in H;
    follow_handler H; injection H as <-;
    destruct c; cbn in *; try reflexivity; exfalso; tauto.
Qed.

Lemma handlers_write_only_their_cells_witness :
  same_cell CellPages initialState
    (setTitleFields
       (titleFields initialState ++ [Some (mkField 1700000000000 "" "site")])
       initialState).
Proof.
  apply (handlers_write_only_their_cells (OpAddTitleField 1700000000000)).
  - reflexivity.
  - cbn. intros [H|[]]. discriminate.
Defined.

(** *** Insert followed by remove *)



Lemma all_live_snoc {A : Type} (arr : array A) (o : A) :
  all_live arr = true -> all_live (arr ++ [Some o]) = true.
Proof.
  intros H. unfold all_live in *. rewrite forallb_app, H. reflexivity.
Qed.




(** *** Dragging there and back *)

Section DragBack.
Context {A : Type}.
Implicit Types (l r : list A).





End DragBack.





(** *** Rendering and the events of the rendered rows *)

Section Liveness.
Context {A : Type}.
Implicit Types (arr : array A).

Lemma all_live_In arr x : all_live arr = true -> In x arr -> exists o, x = Some o.
Proof.
  unfold all_live. rewrite forallb_forall. intros H Hx.
  specialize (H x Hx). destruct x as [o|]; [now exists o|discriminate].
Qed.

Lemma all_live_intro arr :
  (forall x, In x arr -> exists o, x = Some o) -> all_live arr = true.
Proof.
  intros H. unfold all_live. apply forallb_forall. intros x Hx.
  now destruct (H x Hx) as [o ->].
Qed.

Lemma all_live_perm arr arr' :
  Permutation arr arr' -> all_live arr = true -> all_live arr' = true.
Proof.
  intros Hp H. apply all_live_intro. intros x Hx.
  apply (all_live_In arr); [exact H|].
  now apply (Permutation_in _ (Permutation_sym Hp)).
Qed.

Lemma all_live_without_id (id : A -> Z) id0 arr :
  all_live arr = true -> all_live (without_id id id0 arr) = true.
Proof.
  intros H. apply all_live_intro. intros x Hx.
  apply (all_live_In arr); [exact H|].
  unfold without_id in Hx. now apply filter_In in Hx.
Qed.

Lemma all_live_undefined arr : In JS.undefined arr -> all_live arr = false.
Proof.
  intros H. destruct (all_live arr) eqn:E; [|reflexivity].
  destruct (all_live_In _ _ E H) as [o Ho]. discriminate.
Qed.

(** Reading the ids of an array succeeds exactly on arrays without
    [undefined], and gives the ids in order. *)
Lemma read_ids_Ok (id : A -> Z) : forall arr l,
  JS.map (fun x => match x with
                   | None => TypeError
                   | Some o => Ok (id o)
                   end) arr = Ok l <->
  all_live arr = true /\ l = ids_of id arr.
Proof.
  induction arr as [|[o|] r IH]; intros l; simpl.
  - split; [intros H; injection H as <-; now split|intros [_ ->]; reflexivity].
  - destruct (JS.map _ r) as [ys|] eqn:E; simpl.
    + destruct (proj1 (IH ys) eq_refl) as [Hl ->]. split.
      * intros H. injection H as <-. now split.
      * intros [_ ->]. reflexivity.
    + split; [discriminate|]. intros [Hl _].
      pose proof (proj2 (IH (ids_of id r)) (conj Hl eq_refl)) as Hbad.
      discriminate Hbad.
  - split; [discriminate|]. intros [H _]. discriminate.
Qed.

(** With an element to take and a source index below the length, the two
    [splice] calls only permute. *)
Lemma spliceMove_below_perm arr src tgt :
  0 < JS.length arr -> src < JS.length arr ->
  Permutation arr (spliceMove src tgt arr).
Proof.
  intros Hpos Hsrc. unfold spliceMove.
  assert (Hrem : exists k x, nth_error arr k = Some x /\
                 JS.splice arr src 1 [] = ([x], remove_at k arr)).
  { unfold JS.splice, JS.length in *.
    set (len := Z.of_nat (List.length arr)) in *.
    set (a := if src <? 0 then Z.max (len + src) 0 else Z.min src len).
    assert (Ha : 0 <= a < len) by (subst a; destruct (Z.ltb_spec src 0); lia).
    destruct (nth_error arr (Z.to_nat a)) as [x|] eqn:Hx.
    - exists (Z.to_nat a), x. split; [exact Hx|].
      rewrite (Z.min_l (Z.max 1 0)) by lia.
      change (Z.to_nat (Z.max 1 0)) with 1%nat.
      rewrite (skipn_nth_error _ _ _ Hx), Nat.add_1_r. reflexivity.
    - apply nth_error_None in Hx. lia. }
  destruct Hrem as (k & x & Hx & ->). cbn [JS.first].
  destruct (splice_insert_any (remove_at k arr) tgt x) as [k' ->].
  now apply move_perm.
Qed.

Lemma stepMove_live idx_ direction arr :
  0 <= idx_ < JS.length arr ->
  all_live arr = true -> all_live (stepMove idx_ direction arr) = true.
Proof.
  intros H. apply all_live_perm. now apply stepMove_perm.
Qed.

Lemma spliceMove_live arr src tgt :
  0 < JS.length arr -> src < JS.length arr ->
  all_live arr = true -> all_live (spliceMove src tgt arr) = true.
Proof.
  intros Hpos Hsrc. apply all_live_perm. now apply spliceMove_below_perm.
Qed.

Lemma ids_of_In (id : A -> Z) arr o :
  In (Some o) arr -> In (id o) (ids_of id arr).
Proof.
  intros H. unfold ids_of. apply in_flat_map.
  exists (Some o). split; [exact H|now left].
Qed.

(** Distinct ids: an id names one object. *)
Lemma same_id_same_object (id : A -> Z) arr o p :
  NoDup (ids_of id arr) ->
  In (Some o) arr -> In (Some p) arr -> id o = id p -> o = p.
Proof.
  induction arr as [|[x|] r IH]; cbn; intros Hnd Ho Hp E.
  - contradiction.
  - apply NoDup_cons_iff in Hnd as [Hnotin Hr].
    destruct Ho as [Ho|Ho], Hp as [Hp|Hp].
    + congruence.
    + injection Ho as ->. exfalso. apply Hnotin. rewrite E.
      now apply ids_of_In.
    + injection Hp as ->. exfalso. apply Hnotin. rewrite <- E.
      now apply ids_of_In.
    + now apply IH.
  - destruct Ho as [Ho|Ho]; [discriminate|].
    destruct Hp as [Hp|Hp]; [discriminate|]. now apply IH.
Qed.

End Liveness.

Lemma pages_live_intro pgs :
  (forall p, In p pgs ->
             exists o, p = Some o /\ all_live (page_questions o) = true) ->
  pages_live pgs = true.
Proof.
  intros H. unfold pages_live. apply forallb_forall. intros p Hp.
  now destruct (H p Hp) as (o & -> & Ho).
Qed.

Lemma pages_live_In pgs p :
  pages_live pgs = true -> In p pgs ->
  exists o, p = Some o /\ all_live (page_questions o) = true.
Proof.
  unfold pages_live. rewrite forallb_forall. intros H Hp.
  specialize (H p Hp). destruct p as [o|]; [now exists o|discriminate].
Qed.

Lemma pages_live_perm pgs pgs' :
  Permutation pgs pgs' -> pages_live pgs = true -> pages_live pgs' = true.
Proof.
  intros Hp H. apply pages_live_intro. intros p Hin.
  apply (pages_live_In pgs); [exact H|].
  now apply (Permutation_in _ (Permutation_sym Hp)).
Qed.

(** A page function that answers with a page of live questions on every
    page of the list keeps the list live. *)
Lemma map_pages_live (f : option Page -> result (option Page)) pgs :
  pages_live pgs = true ->
  (forall o, In (Some o) pgs -> all_live (page_questions o) = true ->
             exists o', f (Some o) = Ok (Some o') /\
                        all_live (page_questions o') = true) ->
  exists l, JS.map f pgs = Ok l /\ pages_live l = true.
Proof.
  induction pgs as [|p r IH]; intros Hl Hf.
  - now exists [].
  - cbn in Hl. destruct p as [o|]; [|discriminate].
    apply andb_true_iff in Hl as [Ho Hr].
    destruct (Hf o (or_introl eq_refl) Ho) as (o' & Eo & Ho').
    destruct (IH Hr) as (l & El & Hl').
    { intros o2 Hin. apply Hf. now right. }
    exists (Some o' :: l). cbn. rewrite Eo. cbn. rewrite El. cbn.
    split; [reflexivity|].
    change (all_live (page_questions o') && pages_live l = true).
    now rewrite Ho', Hl'.
Qed.

Lemma edit_questions_live qid key value qs :
  all_live qs = true ->
  exists qs',
    JS.map (fun q =>
        match q with
        | None => TypeError
        | Some oq =>
            Ok (if question_id oq =? qid
                then Some (question_with oq key value) else q)
        end) qs = Ok qs' /\
    all_live qs' = true.
Proof.
  induction qs as [|[oq|] r IH]; cbn; intros H; try discriminate.
  - now exists [].
  - destruct (IH H) as (r' & -> & Hr'). cbn.
    eexists. split; [reflexivity|].
    destruct (question_id oq =? qid); cbn; exact Hr'.
Qed.

Lemma edit_fields_live id0 key value fields :
  all_live fields = true ->
  exists fields',
    JS.map (fun f =>
        match f with
        | None => TypeError
        | Some o =>
            Ok (if field_id o =? id0 then Some (field_with o key value) else f)
        end) fields = Ok fields' /\
    all_live fields' = true.
Proof.
  induction fields as [|[o|] r IH]; cbn; intros H; try discriminate.
  - now exists [].
  - destruct (IH H) as (r' & -> & Hr'). cbn.
    eexists. split; [reflexivity|].
    destruct (field_id o =? id0); cbn; exact Hr'.
Qed.

(** On live pages [findIndex] never throws. *)
Lemma pageIndex_live id0 pgs :
  all_live pgs = true -> exists i, pageIndex id0 pgs = Ok i.
Proof.
  unfold pageIndex, JS.findIndex. generalize 0.
  induction pgs as [|[o|] r IH]; cbn; intros i0 H; try discriminate.
  - eauto.
  - destruct (page_id o =? id0); [eauto|]. now apply IH.
Qed.

Lemma movePage_live id0 direction pgs :
  pages_live pgs = true ->
  exists pgs', movePage_updater id0 direction pgs = Ok pgs' /\
               pages_live pgs' = true.
Proof.
  intros H.
  destruct (pageIndex_live id0 pgs (pages_live_all_live _ H)) as [i Hi].
  destruct (Z.lt_ge_cases i 0) as [Hneg|Hpos].
  - exists pgs. split; [|exact H]. unfold movePage_updater.
    change (JS.findIndex _ pgs) with (pageIndex id0 pgs). rewrite Hi.
    cbn [JS.bind]. now destruct (Z.ltb_spec i 0); [|lia].
  - exists (stepMove i direction pgs). split.
    + now apply movePage_updater_stepMove.
    + refine (pages_live_perm _ _ _ H). apply stepMove_perm.
      split; [exact Hpos|]. now apply (pageIndex_range id0).
Qed.

Lemma pages_live_snoc pgs o :
  pages_live pgs = true -> all_live (page_questions o) = true ->
  pages_live (pgs ++ [Some o]) = true.
Proof.
  intros H Ho. unfold pages_live in *. rewrite forallb_app, H. cbn.
  now rewrite Ho.
Qed.

Lemma pages_live_without_id id0 pgs :
  pages_live pgs = true -> pages_live (without_id page_id id0 pgs) = true.
Proof.
  intros H. apply pages_live_intro. intros p Hp.
  apply (pages_live_In pgs); [exact H|].
  unfold without_id in Hp. now apply filter_In in Hp.
Qed.

Lemma render_cards_Ok : forall pgs,
  pages_live pgs = true <-> exists cards, JS.map renderPageKeys pgs = Ok cards.
Proof.
  induction pgs as [|[o|] r IH]; cbn.
  - split; eauto.
  - split.
    + intros H. apply andb_true_iff in H as [Ho Hr].
      destruct (proj1 IH Hr) as [cards ->].
      rewrite (proj2 (read_ids_Ok question_id _ _) (conj Ho eq_refl)).
      cbn. eauto.
    + intros [cards H].
      destruct (JS.map _ (page_questions o)) as [qs|] eqn:Eq; [|discriminate].
      destruct (JS.map renderPageKeys r) as [cs|] eqn:Er; [|discriminate].
      apply read_ids_Ok in Eq as [-> _]. cbn. apply IH. eauto.
  - split; [discriminate|]. intros [cards H]. discriminate.
Qed.

(** Rendering succeeds exactly when no slot is [undefined]. *)
Lemma renderKeys_Ok_iff s :
  (exists v, renderKeys s = Ok v) <-> renderable s = true.
Proof.
  unfold renderKeys, renderable. rewrite andb_true_iff, render_cards_Ok. split.
  - intros [v H].
    destruct (JS.map _ (titleFields s)) as [rows|] eqn:Ef; [|discriminate].
    apply read_ids_Ok in Ef as [Hf _].
    destruct (JS.map renderPageKeys (pages s)) as [cards|]; [|discriminate].
    split; eauto.
  - intros [Hf [cards Hc]].
    rewrite (proj2 (read_ids_Ok field_id _ _) (conj Hf eq_refl)), Hc.
    cbn. eauto.
Qed.

Lemma page_in_slot (s : State) k p :
  nth_error (pages s) k = Some (Some p) -> In (Some p) (pages s).
Proof. apply nth_error_In. Qed.

(** An offered event whose drop source (if any) lies below the length of
    its list is handled without exception and leaves every slot live. *)
Lemma offered_step_renderable s op :
  renderable s = true ->
  NoDup (ids_of page_id (pages s)) ->
  offers s op ->
  drop_source_below_length op s ->
  exists s', step op s = Ok s' /\ renderable s' = true.
Proof.
  intros Hr Hnd Hoff Hdrop. unfold renderable in Hr.
  apply andb_true_iff in Hr as [Hf Hp].
  pose proof (pages_live_all_live _ Hp) as Hpl.
  assert (Hkeep : forall F P, all_live F = true -> pages_live P = true ->
            forall t, renderable (setTitleFields F (setPages P t)) = true).
  { intros F P HF HP t. unfold renderable.
    cbn [titleFields pages setTitleFields setPages setDraggedFieldIdx
         setDraggedQuestion setTemplateTitle setTemplateDescription
         setTemplateImage].
    now rewrite HF, HP. }
  assert (Hfields : forall F, all_live F = true ->
            forall d, renderable (setDraggedFieldIdx d (setTitleFields F s))
                      = true).
  { intros F HF d. unfold renderable.
    cbn [titleFields pages setTitleFields setPages setDraggedFieldIdx
         setDraggedQuestion setTemplateTitle setTemplateDescription
         setTemplateImage].
    now rewrite HF, Hp. }
  assert (Hpages : forall P, pages_live P = true ->
            forall d, renderable (setDraggedQuestion d (setPages P s)) = true).
  { intros P HP d. unfold renderable.
    cbn [titleFields pages setTitleFields setPages setDraggedFieldIdx
         setDraggedQuestion setTemplateTitle setTemplateDescription
         setTemplateImage].
    now rewrite Hf, HP. }
  assert (Hfields' : forall F, all_live F = true ->
            renderable (setTitleFields F s) = true).
  { intros F HF. unfold renderable.
    cbn [titleFields pages setTitleFields setPages setDraggedFieldIdx
         setDraggedQuestion setTemplateTitle setTemplateDescription
         setTemplateImage].
    now rewrite HF, Hp. }
  assert (Hpages' : forall P, pages_live P = true ->
            renderable (setPages P s) = true).
  { intros P HP. unfold renderable.
    cbn [titleFields pages setTitleFields setPages setDraggedFieldIdx
         setDraggedQuestion setTemplateTitle setTemplateDescription
         setTemplateImage].
    now rewrite Hf, HP. }
  assert (Hsame : renderable s = true)
    by (unfold renderable; now rewrite Hf, Hp).
  destruct Hoff as
    [value|value|value|k f key value Hk|now|k f Hk Hlen|i Hi|i Hi|i Hi|i Hi
    |now1 now2|k p Hk Hlen|k p value Hk|k p Hk Hpos|k p Hk Hlast|k p now Hk
    |k p j q Hk Hj Hlen|k p j q key value Hk Hj|k p i Hk Hi|k p i Hk Hi
    |k p i Hk Hi|k p i Hk Hi]; cbn [step].
  - eexists. split; [reflexivity|]. unfold renderable.
    cbn [titleFields pages setTitleFields setPages setDraggedFieldIdx
         setDraggedQuestion setTemplateTitle setTemplateDescription
         setTemplateImage].
    now rewrite Hf, Hp.
  - eexists. split; [reflexivity|]. unfold renderable.
    cbn [titleFields pages setTitleFields setPages setDraggedFieldIdx
         setDraggedQuestion setTemplateTitle setTemplateDescription
         setTemplateImage].
    now rewrite Hf, Hp.
  - eexists. split; [reflexivity|]. unfold renderable.
    cbn [titleFields pages setTitleFields setPages setDraggedFieldIdx
         setDraggedQuestion setTemplateTitle setTemplateDescription
         setTemplateImage].
    now rewrite Hf, Hp.
  - destruct (edit_fields_live (field_id f) key value _ Hf) as (F' & E & HF').
    unfold handleTitleFieldChange. rewrite E. eexists.
    split; [reflexivity|]. now apply Hfields'.
  - eexists. split; [reflexivity|]. apply Hfields'. now apply all_live_snoc.
  - rewrite removeTitleField_filters by exact Hf. eexists.
    split; [reflexivity|]. apply Hfields'. now apply all_live_without_id.
  - eexists. split; [reflexivity|]. apply Hfields'.
    change (moveTitleField_updater i "up") with (@stepMove Field i "up").
    apply stepMove_live; [lia|exact Hf].
  - eexists. split; [reflexivity|]. apply Hfields'.
    change (moveTitleField_updater i "down") with (@stepMove Field i "down").
    apply stepMove_live; [lia|exact Hf].
  - eexists. split; [reflexivity|]. unfold renderable.
    cbn [titleFields pages setTitleFields setPages setDraggedFieldIdx
         setDraggedQuestion setTemplateTitle setTemplateDescription
         setTemplateImage].
    now rewrite Hf, Hp.
  - unfold handleTitleFieldDrop. cbn in Hdrop.
    destruct (draggedFieldIdx s) as [d|]; [|eauto].
    destruct (d =? i); [eauto|]. eexists. split; [reflexivity|].
    apply Hfields.
    change (handleTitleFieldDrop_updater d i) with (@spliceMove Field d i).
    apply spliceMove_live; [lia|exact Hdrop|exact Hf].
  - eexists. split; [reflexivity|]. apply Hpages'.
    now apply pages_live_snoc.
  - rewrite removePage_filters by assumption. eexists.
    split; [reflexivity|]. apply Hpages'. now apply pages_live_without_id.
  - unfold handlePageTitleChange.
    match goal with
    | |- context [JS.map ?f (pages s)] =>
        destruct (map_pages_live f (pages s) Hp) as (l & -> & Hl)
    end.
    { intros o _ Ho. destruct (page_id o =? page_id p); eauto. }
    cbn [JS.bind]. eauto.
  - unfold movePage.
    destruct (movePage_live (page_id p) "up" _ Hp) as (l & -> & Hl).
    cbn [JS.bind]. eauto.
  - unfold movePage.
    destruct (movePage_live (page_id p) "down" _ Hp) as (l & -> & Hl).
    cbn [JS.bind]. eauto.
  - unfold addQuestion.
    destruct (map_pages_live (addQuestion_page (page_id p) now) (pages s) Hp)
      as (l & -> & Hl).
    { intros o _ Ho. unfold addQuestion_page.
      destruct (page_id o =? page_id p); eexists; split;
        try reflexivity; trivial.
      cbn. now apply all_live_snoc. }
    cbn [JS.bind]. eauto.
  - unfold removeQuestion.
    destruct (map_pages_live (removeQuestion_page (page_id p) (question_id q))
                (pages s) Hp) as (l & -> & Hl).
    { intros o _ Ho.
      destruct (Z.eq_dec (page_id o) (page_id p)) as [E|E].
      - destruct (Z.le_gt_cases (JS.length (page_questions o)) 1) as [Hn|Hn].
        + rewrite removeQuestion_page_single by exact Hn. eauto.
        + rewrite removeQuestion_page_filters by (trivial; lia).
          eexists. split; [reflexivity|]. cbn.
          now apply all_live_without_id.
      - rewrite removeQuestion_page_other by exact E. eauto. }
    cbn [JS.bind]. eauto.
  - unfold handleQuestionChange.
    destruct (map_pages_live
                (handleQuestionChange_page (page_id p) (question_id q)
                   key value) (pages s) Hp) as (l & -> & Hl).
    { intros o _ Ho. unfold handleQuestionChange_page.
      destruct (page_id o =? page_id p); [|eauto].
      destruct (edit_questions_live (question_id q) key value _ Ho)
        as (qs' & -> & Hqs').
      cbn [JS.bind]. eauto. }
    cbn [JS.bind]. eauto.
  - unfold moveQuestion.
    destruct (map_pages_live (moveQuestion_page (page_id p) i "up")
                (pages s) Hp) as (l & -> & Hl).
    { intros o Hin Ho.
      destruct (Z.eq_dec (page_id o) (page_id p)) as [E|E].
      - rewrite (moveQuestion_page_stepMove _ _ _ _ E).
        eexists. split; [reflexivity|]. cbn.
        assert (o = p) as ->
          by exact (same_id_same_object page_id _ _ _ Hnd Hin
                      (page_in_slot _ _ _ Hk) E).
        apply stepMove_live; [lia|exact Ho].
      - rewrite (moveQuestion_page_other _ _ _ _ E). eauto. }
    cbn [JS.bind]. eauto.
  - unfold moveQuestion.
    destruct (map_pages_live (moveQuestion_page (page_id p) i "down")
                (pages s) Hp) as (l & -> & Hl).
    { intros o Hin Ho.
      destruct (Z.eq_dec (page_id o) (page_id p)) as [E|E].
      - rewrite (moveQuestion_page_stepMove _ _ _ _ E).
        eexists. split; [reflexivity|]. cbn.
        assert (o = p) as ->
          by exact (same_id_same_object page_id _ _ _ Hnd Hin
                      (page_in_slot _ _ _ Hk) E).
        apply stepMove_live; [lia|exact Ho].
      - rewrite (moveQuestion_page_other _ _ _ _ E). eauto. }
    cbn [JS.bind]. eauto.
  - eexists. split; [reflexivity|]. unfold renderable.
    cbn [titleFields pages setTitleFields setPages setDraggedFieldIdx
         setDraggedQuestion setTemplateTitle setTemplateDescription
         setTemplateImage].
    now rewrite Hf, Hp.
  - unfold handleQuestionDrop. cbn in Hdrop.
    destruct (pageId (draggedQuestion s)) as [dp|]; [|eauto].
    destruct (idx (draggedQuestion s)) as [d|]; [|eauto].
    destruct (map_pages_live (handleQuestionDrop_page d (page_id p) i)
                (pages s) Hp) as (l & -> & Hl).
    { intros o Hin Ho.
      destruct (Z.eq_dec (page_id o) (page_id p)) as [E|E].
      - rewrite (handleQuestionDrop_page_spliceMove _ _ _ _ E).
        eexists. split; [reflexivity|]. cbn.
        pose proof (Hdrop o Hin E) as Hd.
        assert (o = p) as ->
          by exact (same_id_same_object page_id _ _ _ Hnd Hin
                      (page_in_slot _ _ _ Hk) E).
        apply spliceMove_live; [lia|exact Hd|exact Ho].
      - rewrite (handleQuestionDrop_page_other _ _ _ _ E). eauto. }
    cbn [JS.bind]. eauto.
Qed.

(** X4. The markup binds every handler to arguments it can take: on a
    template that renders and whose page keys are distinct, every event a
    rendered row or button can deliver is handled without exception and
    the new state renders again, provided that a drop does not find its
    captured source index at or beyond the length of the list it works
    on. *)
Theorem offered_events_keep_the_template_rendering
  (s : State) (op : Op) (v : list Z * list (Z * list Z)) :
  renderKeys s = Ok v ->
  NoDup (ids_of page_id (pages s)) ->
  offers s op ->
  drop_source_below_length op s ->
  exists s' v', step op s = Ok s' /\ renderKeys s' = Ok v'.
Proof.
  intros Hv Hnd Hoff Hdrop.
  assert (Hr : renderable s = true) by (apply renderKeys_Ok_iff; eauto).
  destruct (offered_step_renderable s op Hr Hnd Hoff Hdrop) as (s' & Hs' & Hr').
  apply renderKeys_Ok_iff in Hr' as [v' Hv']. eauto.
Qed.

Lemma offered_events_keep_the_template_rendering_witness :
  exists s' v',
    step (OpMoveQuestion 1700000001000 1 "up") twoPageState = Ok s' /\
    renderKeys s' = Ok v'.
Proof.
  apply (offered_events_keep_the_template_rendering twoPageState _
           ([1; 2; 3; 4],
            [(1, [1; 1700000000000]);
             (1700000001000, [1700000001001; 1700000002000])])).
  - reflexivity.
  - cbn. constructor; [intros [H|[]]; discriminate|].
    constructor; [intros []|constructor].
  - apply (offers_moveQuestion_up twoPageState 1
             (mkPage 1700000001000 "Untitled Page"
                [ Some (mkQuestion 1700000001001 "" "yesno");
                  Some (mkQuestion 1700000002000 "" "yesno") ]) 1).
    + reflexivity.
    + cbn. lia.
  - exact I.
Defined.

(** *** A drop whose source index lies beyond the list *)

Lemma map_TypeError {A B : Type} (f : option A -> result B) :
  forall (arr : array A) x,
  In x arr -> f x = TypeError -> JS.map f arr = TypeError.
Proof.
  induction arr as [|h t IH]; intros x Hin Hx; [contradiction|].
  cbn. destruct Hin as [->|Hin].
  - now rewrite Hx.
  - destruct (f h); [|reflexivity]. cbn. now rewrite (IH x Hin Hx).
Qed.

Lemma filter_TypeError {A : Type} (t : A -> bool) : forall arr : array A,
  In JS.undefined arr ->
  JS.filter (fun x => match x with
                      | None => TypeError
                      | Some o => Ok (t o)
                      end) arr = TypeError.
Proof.
  induction arr as [|[o|] r IH]; cbn; intros Hin.
  - contradiction.
  - destruct Hin as [Hin|Hin]; [discriminate|]. now rewrite (IH Hin).
  - reflexivity.
Qed.

Lemma insert_before_In {A : Type} (l : list A) j x : In x (insert_before j x l).
Proof. unfold insert_before. apply in_or_app. right. now left. Qed.

Lemma insert_before_length {A : Type} (l : list A) j x :
  List.length (insert_before j x l) = S (List.length l).
Proof.
  symmetry. apply (Permutation_length (l := x :: l)), insert_before_perm.
Qed.

Lemma renderKeys_undefined_field s :
  In JS.undefined (titleFields s) -> renderKeys s = TypeError.
Proof.
  intros H. unfold renderKeys.
  now rewrite (map_TypeError _ _ JS.undefined H).
Qed.

Lemma renderKeys_undefined_question s o :
  In (Some o) (pages s) -> In JS.undefined (page_questions o) ->
  renderKeys s = TypeError.
Proof.
  intros Ho Hq. unfold renderKeys.
  destruct (JS.map _ (titleFields s)); [|reflexivity]. cbn [JS.bind].
  rewrite (map_TypeError renderPageKeys _ (Some o) Ho); [reflexivity|].
  cbn. now rewrite (map_TypeError _ _ JS.undefined Hq).
Qed.

(** X5. A committed drop whose captured source index is at or beyond the
    length of the list takes nothing out and puts [undefined] before the
    row it is dropped on. The template then no longer renders, and the
    handlers that read the ids of that list (remove, change) throw. *)
Theorem drop_with_source_beyond_length_breaks_rendering :
  (forall s d tgt,
      draggedFieldIdx s = Some d -> d <> tgt ->
      0 <= tgt < JS.length (titleFields s) ->
      JS.length (titleFields s) <= d ->
      exists s',
        handleTitleFieldDrop tgt s = Ok s' /\
        titleFields s'
        = insert_before (Z.to_nat tgt) JS.undefined (titleFields s) /\
        renderKeys s' = TypeError /\
        (forall id0, removeTitleField id0 s' = TypeError) /\
        (forall id0 key value,
            handleTitleFieldChange id0 key value s' = TypeError)) /\
  (forall s dp d pageId_ tgt k o,
      pageId (draggedQuestion s) = Some dp ->
      idx (draggedQuestion s) = Some d ->
      all_live (pages s) = true ->
      nth_error (pages s) k = Some (Some o) ->
      page_id o = pageId_ ->
      0 <= tgt < JS.length (page_questions o) ->
      JS.length (page_questions o) <= d ->
      exists s',
        handleQuestionDrop pageId_ tgt s = Ok s' /\
        questions_at k (pages s')
        = Some (insert_before (Z.to_nat tgt) JS.undefined (page_questions o)) /\
        renderKeys s' = TypeError /\
        (forall qid, removeQuestion pageId_ qid s' = TypeError) /\
        (forall qid key value,
            handleQuestionChange pageId_ qid key value s' = TypeError)).
Proof.
  split.
  - intros s d tgt Hd Hne Ht Hbeyond.
    eexists. split; [exact (handleTitleFieldDrop_moves s d tgt Hd Hne)|].
    rewrite spliceMove_source_beyond by lia.
    cbn [titleFields setTitleFields setDraggedFieldIdx].
    split; [reflexivity|].
    pose proof (insert_before_In (titleFields s) (Z.to_nat tgt) JS.undefined)
      as Hin.
    split; [|split].
    + now apply renderKeys_undefined_field.
    + intros id0. unfold removeTitleField.
      cbn [titleFields setTitleFields setDraggedFieldIdx].
      now rewrite (filter_TypeError (fun o => negb (field_id o =? id0)) _ Hin).
    + intros id0 key value. unfold handleTitleFieldChange.
      cbn [titleFields setTitleFields setDraggedFieldIdx].
      now rewrite (map_TypeError _ _ JS.undefined Hin).
  - intros s dp d pageId_ tgt k o Hp Hi Hlive Hk Hid Ht Hbeyond.
    destruct (handleQuestionDrop_on_page s dp d pageId_ tgt k o
                Hp Hi Hlive Hk Hid) as (pgs & Hrun & Hpg).
    rewrite spliceMove_source_beyond in Hpg by lia.
    eexists. split; [exact Hrun|].
    cbn [pages setPages setDraggedQuestion].
    set (qs := insert_before (Z.to_nat tgt) JS.undefined (page_questions o))
      in *.
    assert (Hin : In JS.undefined qs) by apply insert_before_In.
    assert (Hpage : In (Some (page_with_questions o qs)) pgs)
      by exact (nth_error_In _ _ Hpg).
    split; [unfold questions_at; now rewrite Hpg|]. split; [|split].
    + apply (renderKeys_undefined_question _ (page_with_questions o qs));
        assumption.
    + intros qid. unfold removeQuestion. cbn [pages setPages setDraggedQuestion].
      rewrite (map_TypeError _ _ _ Hpage); [reflexivity|].
      unfold removeQuestion_page. cbn [page_id page_questions page_with_questions].
      rewrite Hid, Z.eqb_refl.
      destruct (Z.gtb_spec (JS.length qs) 1) as [_|Hlen].
      * now rewrite (filter_TypeError
                       (fun q => negb (question_id q =? qid)) _ Hin).
      * exfalso. unfold JS.length, qs in *.
        rewrite insert_before_length in Hlen. lia.
    + intros qid key value. unfold handleQuestionChange.
      cbn [pages setPages setDraggedQuestion].
      rewrite (map_TypeError _ _ _ Hpage); [reflexivity|].
      unfold handleQuestionChange_page.
      cbn [page_id page_questions page_with_questions].
      rewrite Hid, Z.eqb_refl.
      now rewrite (map_TypeError _ _ JS.undefined Hin).
Qed.

Lemma drop_with_source_beyond_length_breaks_rendering_witness :
  (exists s',
      handleTitleFieldDrop 0 staleDragState = Ok s' /\
      titleFields s'
      = insert_before (Z.to_nat 0) JS.undefined (titleFields staleDragState) /\
      renderKeys s' = TypeError /\
      (forall id0, removeTitleField id0 s' = TypeError) /\
      (forall id0 key value,
          handleTitleFieldChange id0 key value s' = TypeError)) /\
  (let s := setDraggedQuestion (mkDraggedQuestion (Some 1) (Some 1))
              initialState in
   let o := mkPage 1 "Untitled Page" [ Some (mkQuestion 1 "" "yesno") ] in
   exists s',
     handleQuestionDrop 1 0 s = Ok s' /\
     questions_at 0 (pages s')
     = Some (insert_before (Z.to_nat 0) JS.undefined (page_questions o)) /\
     renderKeys s' = TypeError /\
     (forall qid, removeQuestion 1 qid s' = TypeError) /\
     (forall qid key value,
         handleQuestionChange 1 qid key value s' = TypeError)).
Proof.
  split.
  - apply (proj1 drop_with_source_beyond_length_breaks_rendering
             staleDragState 3 0); [reflexivity|lia|cbn; lia|cbn; lia].
  - apply (proj2 drop_with_source_beyond_length_breaks_rendering
             (setDraggedQuestion (mkDraggedQuestion (Some 1) (Some 1))
                initialState) 1 1 1 0 0%nat);
      try reflexivity; cbn; lia.
Defined.

(** *** The guard of the step move *)

Lemma splice_from_end {A : Type} (arr : array A) d items :
  0 < JS.length arr ->
  JS.splice arr (-1) d items = JS.splice arr (JS.length arr - 1) d items.
Proof.
  intros H. unfold JS.splice.
  destruct (Z.ltb_spec (-1) 0) as [_|?]; [|lia].
  destruct (Z.ltb_spec (JS.length arr - 1) 0); [lia|].
  rewrite (Z.max_l (JS.length arr + -1)) by lia.
  rewrite (Z.min_l (JS.length arr - 1)) by lia.
  replace (JS.length arr + -1) with (JS.length arr - 1) by lia.
  reflexivity.
Qed.

(** X6. The step move checks the destination index only. Called with the
    index one past the last row and direction up, [moveTitleField] passes
    its guard, takes nothing out and puts [undefined] before the last
    field; called with index -1 and direction down it moves the last field
    to the front. Both calls leave the other cells of the state as they
    were. The markup never passes these indices. *)
Theorem step_move_checks_only_the_destination :
  (forall s a x,
      titleFields s = a ++ [x] ->
      exists s',
        moveTitleField (JS.length (titleFields s)) "up" s = Ok s' /\
        titleFields s' = a ++ [JS.undefined; x] /\
        same_but_cell CellTitleFields s s') /\
  (forall s a x,
      titleFields s = a ++ [x] ->
      exists s',
        moveTitleField (-1) "down" s = Ok s' /\
        titleFields s' = x :: a /\
        same_but_cell CellTitleFields s s').
Proof.
  assert (Hframe : forall s v, same_but_cell CellTitleFields s (setTitleFields v s)).
  { intros s v [] Hc; try reflexivity. now destruct Hc. }
  split; intros s a x E; eexists; (split; [reflexivity|]);
    (split; [|apply Hframe]);
    cbn [titleFields setTitleFields];
    change moveTitleField_updater with (@stepMove Field);
    unfold stepMove; cbn [String.eqb Ascii.eqb Bool.eqb]; rewrite E;
    assert (Hlen : JS.length (a ++ [x]) = Z.of_nat (List.length a) + 1)
      by (unfold JS.length; rewrite length_app; cbn; lia).
  - destruct (Z.ltb_spec (JS.length (a ++ [x]) - 1) 0); [lia|].
    destruct (Z.geb_spec (JS.length (a ++ [x]) - 1) (JS.length (a ++ [x])));
      [lia|].
    cbn [orb]. rewrite spliceMove_source_beyond by lia.
    replace (Z.to_nat (JS.length (a ++ [x]) - 1)) with (List.length a) by lia.
    apply insert_before_app.
  - destruct (Z.ltb_spec (-1 + 1) 0); [lia|].
    destruct (Z.geb_spec (-1 + 1) (JS.length (a ++ [x]))); [lia|].
    cbn [orb]. unfold spliceMove.
    rewrite splice_from_end by lia.
    rewrite (splice_remove _ _ x);
      [|lia|rewrite Hlen;
            replace (Z.to_nat (Z.of_nat (List.length a) + 1 - 1))
              with (List.length a) by lia;
            apply nth_error_here].
    replace (Z.to_nat (JS.length (a ++ [x]) - 1)) with (List.length a) by lia.
    rewrite remove_at_app, app_nil_r. cbn [JS.first].
    rewrite splice_insert by (unfold JS.length; lia).
    reflexivity.
Qed.

Lemma step_move_checks_only_the_destination_witness :
  (exists s',
      moveTitleField (JS.length (titleFields staleDragState)) "up"
        staleDragState = Ok s' /\
      titleFields s'
      = [ Some (mkField 1 "Site conducte" "site");
          Some (mkField 2 "Conducted on" "date") ]
        ++ [JS.undefined; Some (mkField 3 "Prepared by" "person")] /\
      same_but_cell CellTitleFields staleDragState s') /\
  (exists s',
      moveTitleField (-1) "down" staleDragState = Ok s' /\
      titleFields s'
      = Some (mkField 3 "Prepared by" "person")
        :: [ Some (mkField 1 "Site conducte" "site");
             Some (mkField 2 "Conducted on" "date") ] /\
      same_but_cell CellTitleFields staleDragState s').
Proof.
  split.
  - apply (proj1 step_move_checks_only_the_destination staleDragState).
    reflexivity.
  - apply (proj2 step_move_checks_only_the_destination staleDragState).
    reflexivity.
Defined.

(** *** Drag-over and drop *)



(** *** The keys of the rendered rows *)

Lemma ids_rearranged {A : Type} (id : A -> Z) (arr arr' : array A) :
  Permutation arr arr' \/ Permutation (JS.undefined :: arr) arr' ->
  Permutation (ids_of id arr) (ids_of id arr').
Proof.
  intros [H|H].
  - now apply ids_of_perm.
  - exact (ids_of_perm id _ _ H).
Qed.

Lemma change_fields_ids id0 key value : forall fields fields',
  JS.map (fun f =>
      match f with
      | None => TypeError
      | Some o =>
          Ok (if field_id o =? id0 then Some (field_with o key value) else f)
      end) fields = Ok fields' ->
  ids_of field_id fields' = ids_of field_id fields.
Proof.
  induction fields as [|[o|] r IH]; simpl; intros fields' H; try discriminate.
  - now injection H as <-.
  - destruct (JS.map _ r) as [r'|] eqn:E; [|discriminate].
    cbn [JS.bind] in H. injection H as <-.
    destruct (field_id o =? id0); rewrite !ids_of_cons, (IH r' eq_refl);
      [now destruct key|reflexivity].
Qed.

Lemma step_keeps_field_ids op s s' :
  NoDup (ids_of field_id (titleFields s)) ->
  insert_fresh op s -> step op s = Ok s' ->
  NoDup (ids_of field_id (titleFields s')).
Proof.
  intros Hnd [_ Hfresh] H.
  destruct op; cbn [step] in H;
    try (unfold addPage, removePage, handlePageTitleChange, movePage,
           addQuestion, removeQuestion, handleQuestionChange, moveQuestion,
           handleQuestionDragStart, handleQuestionDrop,
           handleTitleFieldDragStart in H;
         follow_handler H; injection H as <-; exact Hnd).
  - (* handleTitleFieldChange *)
    unfold handleTitleFieldChange in H.
    destruct (JS.map _ (titleFields s)) as [F|] eqn:E; [|discriminate].
    injection H as <-. cbn [titleFields setTitleFields setDraggedFieldIdx].
    now rewrite (change_fields_ids _ _ _ _ _ E).
  - (* addTitleField *)
    injection H as <-. cbn [titleFields setTitleFields setDraggedFieldIdx].
    now apply (ids_of_snoc_NoDup field_id _ (mkField now "" "site")).
  - (* removeTitleField *)
    unfold removeTitleField in H.
    destruct (JS.filter _ (titleFields s)) as [F|] eqn:E; [|discriminate].
    pose proof (filter_Ok_live _ _ _ E) as Hlive.
    rewrite (filter_live (fun o => negb (field_id o =? id)) _ Hlive) in E.
    injection E as <-. injection H as <-. cbn [titleFields setTitleFields setDraggedFieldIdx].
    now apply without_id_NoDup.
  - (* moveTitleField *)
    injection H as <-. cbn [titleFields setTitleFields setDraggedFieldIdx].
    change (moveTitleField_updater idx0 direction)
      with (@stepMove Field idx0 direction).
    exact (Permutation_NoDup
             (ids_rearranged field_id _ _ (stepMove_any _ _ _)) Hnd).
  - (* handleTitleFieldDrop *)
    unfold handleTitleFieldDrop in H.
    destruct (draggedFieldIdx s) as [d|]; [|injection H as <-; exact Hnd].
    destruct (d =? idx0); injection H as <-; [exact Hnd|].
    cbn [titleFields setTitleFields setDraggedFieldIdx].
    change (handleTitleFieldDrop_updater d idx0)
      with (@spliceMove Field d idx0).
    exact (Permutation_NoDup
             (ids_rearranged field_id _ _ (spliceMove_any _ _ _)) Hnd).
Qed.

Lemma reachable_fresh_keys s :
  reachable_fresh s ->
  NoDup (ids_of field_id (titleFields s)) /\ pages_ok (pages s).
Proof.
  induction 1 as [|s op s' _ [IHf IHp] Hfresh Hstep].
  - split; [|apply initialState_pages_ok].
    cbn. repeat constructor; cbn; intuition discriminate.
  - split.
    + exact (step_keeps_field_ids op s s' IHf Hfresh Hstep).
    + exact (step_keeps_pages_ok op s s' IHp (proj1 Hfresh) Hstep).
Qed.

Lemma render_cards_keys : forall pgs cards,
  JS.map renderPageKeys pgs = Ok cards ->
  List.map fst cards = ids_of page_id pgs /\
  Forall (fun c => exists o, In (Some o) pgs /\
                             snd c = ids_of question_id (page_questions o))
         cards.
Proof.
  induction pgs as [|[o|] r IH]; simpl; intros cards H; try discriminate.
  - injection H as <-. now split.
  - destruct (JS.map _ (page_questions o)) as [qs|] eqn:Eq; [|discriminate].
    destruct (JS.map renderPageKeys r) as [cs|] eqn:Er; [|discriminate].
    cbn [JS.bind] in H. injection H as <-.
    apply read_ids_Ok in Eq as [_ ->].
    destruct (IH cs eq_refl) as [Hids Hall]. split.
    + cbn. now rewrite Hids.
    + constructor.
      * exists o. split; [now left|reflexivity].
      * eapply Forall_impl; [|exact Hall].
        intros c (o' & Hin & Hc). exists o'. split; [now right|exact Hc].
Qed.

(** X8. When every insert reads a clock value that is not yet an id of the
    collection it extends, the keys React is given are pairwise distinct
    in every state the builder reaches and renders: the keys of the title
    field rows, the keys of the page cards, and the keys of the question
    rows within each card. *)
Theorem rendered_keys_are_distinct
  (s : State) (rows : list Z) (cards : list (Z * list Z)) :
  reachable_fresh s ->
  renderKeys s = Ok (rows, cards) ->
  NoDup rows /\
  NoDup (List.map fst cards) /\
  Forall (fun c => NoDup (snd c)) cards.
Proof.
  intros Hr H. destruct (reachable_fresh_keys s Hr) as (Hf & _ & Hp & Hall).
  unfold renderKeys in H.
  destruct (JS.map _ (titleFields s)) as [rows'|] eqn:Ef; [|discriminate].
  destruct (JS.map renderPageKeys (pages s)) as [cards'|] eqn:Ec;
    [|discriminate].
  cbn [JS.bind] in H. injection H as <- <-.
  apply read_ids_Ok in Ef as [_ ->].
  destruct (render_cards_keys _ _ Ec) as [Hids Hcards].
  split; [exact Hf|]. split; [now rewrite Hids|].
  eapply Forall_impl; [|exact Hcards].
  intros c (o & Hin & ->). rewrite Forall_forall in Hall.
  destruct (Hall _ Hin) as (o' & E & _ & Hnd).
  now injection E as <-.
Qed.

Lemma rendered_keys_are_distinct_witness :
  NoDup [1; 2; 3; 4; 1700000000000] /\
  NoDup (List.map fst [(1, [1]); (1700000001000, [1700000001001])]) /\
  Forall (fun c : Z * list Z => NoDup (snd c))
    [(1, [1]); (1700000001000, [1700000001001])].
Proof.
  apply (rendered_keys_are_distinct
           (setPages
              (pages initialState ++
                 [Some (mkPage 1700000001000 "Untitled Page"
                          [Some (mkQuestion 1700000001001 "" "yesno")])])
              (setTitleFields
                 (titleFields initialState ++
                    [Some (mkField 1700000000000 "" "site")])
                 initialState))).
  - refine (reach_fresh_step _ (OpAddPage 1700000001000 1700000001000) _
              (reach_fresh_step _ (OpAddTitleField 1700000000000) _
                 reach_fresh_init _ eq_refl) _ eq_refl).
    + split; [exact I|]. cbn. intuition discriminate.
    + split; [|exact I]. cbn. intuition discriminate.
  - reflexivity.
Defined.

(** *** Edits *)

Section MapLaws.
Context {A : Type}.
Implicit Types (f g : option A -> result (option A)) (arr : array A).

(** Mapping [g] over the result of mapping [f], when [g] does not see
    what [f] changed. *)
Lemma map_then_map f g : forall arr l,
  JS.map f arr = Ok l ->
  (forall x y, f x = Ok y -> g y = g x) ->
  JS.map g l = JS.map g arr.
Proof.
  induction arr as [|h t IH]; simpl; intros l H Hfg.
  - now injection H as <-.
  - destruct (f h) as [y|] eqn:Eh; [|discriminate].
    destruct (JS.map f t) as [l'|] eqn:Et; [|discriminate].
    cbn [JS.bind] in H. injection H as <-. simpl.
    now rewrite (Hfg h y Eh), (IH l' eq_refl Hfg).
Qed.

(** Two maps commute when their functions commute on every slot. *)
Lemma map_commute f g :
  (forall x, JS.bind (f x) g = JS.bind (g x) f) ->
  forall arr,
  JS.bind (JS.map f arr) (JS.map g) = JS.bind (JS.map g arr) (JS.map f).
Proof.
  intros Hfg. induction arr as [|h t IH]; simpl; [reflexivity|].
  specialize (Hfg h).
  destruct (f h) as [y1|], (g h) as [y2|]; cbn [JS.bind] in *;
    try reflexivity.
  - destruct (JS.map f t) as [l1|], (JS.map g t) as [l2|];
      cbn [JS.bind] in *; simpl.
    + now rewrite Hfg, IH.
    + rewrite IH. now destruct (g y1).
    + rewrite <- IH. now destruct (f y2).
    + reflexivity.
  - destruct (JS.map f t) as [l1|]; cbn [JS.bind]; simpl;
      [now rewrite Hfg|reflexivity].
  - destruct (JS.map g t) as [l2|]; cbn [JS.bind]; simpl;
      [now rewrite <- Hfg|reflexivity].
Qed.

End MapLaws.

Lemma field_with_twice f key v1 v2 :
  field_with (field_with f key v1) key v2 = field_with f key v2.
Proof. now destruct key. Qed.

Lemma field_with_id f key value : field_id (field_with f key value) = field_id f.
Proof. now destruct key. Qed.

Lemma field_with_swap f key1 v1 key2 v2 :
  key1 <> key2 ->
  field_with (field_with f key1 v1) key2 v2
  = field_with (field_with f key2 v2) key1 v1.
Proof. destruct key1, key2; intros H; try reflexivity; now destruct H. Qed.

Lemma question_with_twice q key v1 v2 :
  question_with (question_with q key v1) key v2 = question_with q key v2.
Proof. now destruct key. Qed.

(** X9. Title field edits. On a list without [undefined]
    [handleTitleFieldChange] returns a state. In that state every field
    sits where it sat and carries the id it carried; the fields carrying
    the id given to the handler have the one attribute it was given
    (label or type) set to the new value, and every other attribute of
    every field is what it was. Of two edits of the same attribute of the
    same id the later one wins, and edits of different ids or of different
    attributes can be applied in either order. *)
Theorem title_field_edit_laws :
  (forall s id0 key value,
      all_live (titleFields s) = true ->
      exists s', handleTitleFieldChange id0 key value s = Ok s') /\
  (forall s id0 key value s',
      handleTitleFieldChange id0 key value s = Ok s' ->
      List.length (titleFields s') = List.length (titleFields s) /\
      ids_of field_id (titleFields s') = ids_of field_id (titleFields s) /\
      forall k f,
        nth_error (titleFields s) k = Some (Some f) ->
        exists f',
          nth_error (titleFields s') k = Some (Some f') /\
          field_edited (field_id f =? id0) key value f f') /\
  (forall s id0 key v1 v2 s1,
      handleTitleFieldChange id0 key v1 s = Ok s1 ->
      handleTitleFieldChange id0 key v2 s1
      = handleTitleFieldChange id0 key v2 s) /\
  (forall s id1 key1 v1 id2 key2 v2,
      id1 <> id2 \/ key1 <> key2 ->
      run [OpHandleTitleFieldChange id1 key1 v1;
           OpHandleTitleFieldChange id2 key2 v2] s
      = run [OpHandleTitleFieldChange id2 key2 v2;
             OpHandleTitleFieldChange id1 key1 v1] s).
Proof.
  split; [|split; [|split]].
  - intros s id0 key value Hlive. unfold handleTitleFieldChange.
    match goal with
    | |- context [JS.map ?f ?l] => destruct (map_total f l) as [F HF]
    end.
    + eapply Forall_impl; [|apply all_live_Forall, Hlive].
      intros x [o ->]. eauto.
    + rewrite HF. cbn [JS.bind]. eauto.
  - intros s id0 key value s' H. unfold handleTitleFieldChange in H.
    destruct (JS.map _ (titleFields s)) as [F|] eqn:E; [|discriminate].
    injection H as <-. cbn [titleFields setTitleFields].
    split; [exact (map_length _ _ _ E)|]. split.
    + exact (change_fields_ids _ _ _ _ _ E).
    + intros k f Hk. destruct (map_nth _ _ _ _ _ E Hk) as (y & Hy & Hn).
      injection Hy as <-.
      exists (if field_id f =? id0 then field_with f key value else f).
      split; [rewrite Hn; now destruct (field_id f =? id0)|].
      destruct (field_id f =? id0), key; repeat split.
  - intros s id0 key v1 v2 s1 H. unfold handleTitleFieldChange in *.
    destruct (JS.map _ (titleFields s)) as [F|] eqn:E; [|discriminate].
    injection H as <-. cbn [titleFields setTitleFields JS.bind].
    rewrite (map_then_map _ _ _ _ E).
    + now destruct (JS.map _ (titleFields s)).
    + intros [o|] y Hy; [|discriminate]. injection Hy as <-. cbv beta.
      destruct (Z.eqb_spec (field_id o) id0) as [Eo|Eo]; cbv iota beta;
        rewrite ?field_with_id;
        destruct (Z.eqb_spec (field_id o) id0); try contradiction;
        [now rewrite field_with_twice|reflexivity].
  - intros s id1 key1 v1 id2 key2 v2 Hne.
    cbn [run step]. unfold handleTitleFieldChange.
    match goal with
    | |- context [JS.map ?f (titleFields s)] =>
        match goal with
        | |- _ = JS.bind (JS.bind (JS.map ?g (titleFields s)) _) _ =>
            pose proof (map_commute f g) as Hc
        end
    end.
    match type of Hc with
    | ?P -> _ => assert (Hpoint : P)
    end.
    { intros [o|]; [|reflexivity]. cbn [JS.bind].
      destruct (Z.eqb_spec (field_id o) id1) as [E1|E1],
               (Z.eqb_spec (field_id o) id2) as [E2|E2];
        cbv iota beta; rewrite ?field_with_id;
        destruct (Z.eqb_spec (field_id o) id1); try contradiction;
        destruct (Z.eqb_spec (field_id o) id2); try contradiction;
        try reflexivity.
      destruct Hne as [Hne|Hne]; [congruence|].
      now rewrite (field_with_swap o key1 v1 key2 v2 Hne). }
    specialize (Hc Hpoint (titleFields s)).
    destruct (JS.map _ (titleFields s)) as [F1|] eqn:E1;
      match goal with
      | |- _ = JS.bind (JS.bind ?m _) _ => destruct m as [F2|] eqn:E2
      end; cbn [JS.bind titleFields setTitleFields] in *.
    + rewrite Hc. now destruct (JS.map _ F2).
    + now rewrite Hc.
    + now rewrite <- Hc.
    + reflexivity.
Qed.

Lemma title_field_edit_laws_witness :
  (exists s',
      handleTitleFieldChange 2 KeyLabel "Date" initialState = Ok s' /\
      List.length (titleFields s') = List.length (titleFields initialState) /\
      ids_of field_id (titleFields s')
      = ids_of field_id (titleFields initialState) /\
      exists f',
        nth_error (titleFields s') 1 = Some (Some f') /\
        field_edited (2 =? 2) KeyLabel "Date"
          (mkField 2 "Conducted on" "date") f' /\
        field_label f' = "Date") /\
  (exists s1,
      handleTitleFieldChange 2 KeyLabel "Date" initialState = Ok s1 /\
      handleTitleFieldChange 2 KeyLabel "On" s1
      = handleTitleFieldChange 2 KeyLabel "On" initialState) /\
  run [OpHandleTitleFieldChange 2 KeyLabel "Date";
       OpHandleTitleFieldChange 2 KeyFieldType "text"] initialState
  = run [OpHandleTitleFieldChange 2 KeyFieldType "text";
         OpHandleTitleFieldChange 2 KeyLabel "Date"] initialState.
Proof.
  pose proof title_field_edit_laws as (Htotal & Hedit & Hlast & Hcommute).
  destruct (Htotal initialState 2 KeyLabel "Date" eq_refl) as [s' Hs'].
  split; [|split].
  - exists s'. split; [exact Hs'|].
    destruct (Hedit initialState 2 KeyLabel "Date" s' Hs')
      as (Hlen & Hids & Hnth).
    split; [exact Hlen|]. split; [exact Hids|].
    destruct (Hnth 1%nat (mkField 2 "Conducted on" "date") eq_refl)
      as (f' & Hf' & Hed).
    exists f'. split; [exact Hf'|]. split; [exact Hed|].
    exact (proj1 (proj2 Hed)).
  - exists s'. split; [exact Hs'|].
    exact (Hlast initialState 2 KeyLabel "Date" "On" s' Hs').
  - apply Hcommute. right. discriminate.
Defined.

Lemma change_questions_nth qid key value qs qs' j q :
  JS.map (fun x =>
      match x with
      | None => TypeError
      | Some oq =>
          Ok (if question_id oq =? qid
              then Some (question_with oq key value) else x)
      end) qs = Ok qs' ->
  nth_error qs j = Some (Some q) ->
  nth_error qs' j
  = Some (Some (if question_id q =? qid then question_with q key value
                else q)).
Proof.
  intros E Hj. destruct (map_nth _ _ _ _ _ E Hj) as (y & Hy & Hn).
  injection Hy as <-. rewrite Hn. now destruct (question_id q =? qid).
Qed.

(** X10. Page title and question edits. On pages and questions without
    [undefined] both handlers return a state. After
    [handlePageTitleChange] every page sits where it sat with its id and
    its questions, and its title is the new value when it carries the id
    and the former title otherwise. After [handleQuestionChange] every
    page keeps id and title; the pages with another id keep their
    questions; in the pages carrying the page id every question sits where
    it sat with its id, the questions carrying the question id have the
    one attribute (text or type) set to the new value, and every other
    attribute is what it was. Of two edits of the same attribute the later
    one wins. *)
Theorem page_and_question_edit_laws :
  (forall s id0 value,
      all_live (pages s) = true ->
      exists s', handlePageTitleChange id0 value s = Ok s') /\
  (forall s pageId_ qid key value,
      pages_live (pages s) = true ->
      exists s', handleQuestionChange pageId_ qid key value s = Ok s') /\
  (forall s id0 value s',
      handlePageTitleChange id0 value s = Ok s' ->
      List.length (pages s') = List.length (pages s) /\
      forall k p,
        nth_error (pages s) k = Some (Some p) ->
        exists p',
          nth_error (pages s') k = Some (Some p') /\
          page_id p' = page_id p /\
          page_title p' = (if page_id p =? id0 then value else page_title p) /\
          page_questions p' = page_questions p) /\
  (forall s pageId_ qid key value s',
      handleQuestionChange pageId_ qid key value s = Ok s' ->
      List.length (pages s') = List.length (pages s) /\
      forall k p,
        nth_error (pages s) k = Some (Some p) ->
        exists qs',
          slot_holds k p qs' (pages s') /\
          ids_of question_id qs' = ids_of question_id (page_questions p) /\
          List.length qs' = List.length (page_questions p) /\
          (page_id p <> pageId_ -> qs' = page_questions p) /\
          (page_id p = pageId_ ->
           forall j q,
             nth_error (page_questions p) j = Some (Some q) ->
             exists q',
               nth_error qs' j = Some (Some q') /\
               question_edited (question_id q =? qid) key value q q')) /\
  (forall s id0 v1 v2 s1,
      handlePageTitleChange id0 v1 s = Ok s1 ->
      handlePageTitleChange id0 v2 s1 = handlePageTitleChange id0 v2 s) /\
  (forall s pageId_ qid key v1 v2 s1,
      handleQuestionChange pageId_ qid key v1 s = Ok s1 ->
      handleQuestionChange pageId_ qid key v2 s1
      = handleQuestionChange pageId_ qid key v2 s).
Proof.
  split; [|split; [|split; [|split; [|split]]]].
  - intros s id0 value Hlive. unfold handlePageTitleChange.
    match goal with
    | |- context [JS.map ?f ?l] => destruct (map_total f l) as [P HP]
    end.
    + eapply Forall_impl; [|apply all_live_Forall, Hlive].
      intros x [o ->]. eauto.
    + rewrite HP. cbn [JS.bind]. eauto.
  - intros s pageId_ qid key value Hlive. unfold handleQuestionChange.
    destruct (map_total (handleQuestionChange_page pageId_ qid key value)
                (pages s)) as [P HP].
    + unfold pages_live in Hlive. rewrite forallb_forall in Hlive.
      apply Forall_forall. intros [o|] Hin; specialize (Hlive _ Hin).
      * now apply handleQuestionChange_page_total.
      * discriminate.
    + rewrite HP. cbn [JS.bind]. eauto.
  - intros s id0 value s' H. unfold handlePageTitleChange in H.
    destruct (JS.map _ (pages s)) as [P|] eqn:E; [|discriminate].
    injection H as <-. cbn [pages setPages].
    split; [exact (map_length _ _ _ E)|]. intros k p Hk.
    destruct (map_nth _ _ _ _ _ E Hk) as (y & Hy & Hn).
    injection Hy as <-. rewrite Hn.
    destruct (page_id p =? id0); eexists; (split; [reflexivity|]);
      repeat split.
  - intros s pageId_ qid key value s' H.
    unfold handleQuestionChange in H.
    destruct (JS.map _ (pages s)) as [P|] eqn:E; [|discriminate].
    injection H as <-. cbn [pages setPages].
    split; [exact (map_length _ _ _ E)|]. intros k p Hk.
    destruct (map_nth _ _ _ _ _ E Hk) as (y & Hy & Hn).
    unfold handleQuestionChange_page in Hy.
    destruct (Z.eqb_spec (page_id p) pageId_) as [Ep|Ep].
    + destruct (JS.map _ (page_questions p)) as [qs'|] eqn:Eq; [|discriminate].
      cbn [JS.bind] in Hy. injection Hy as <-. exists qs'.
      split; [show_slot Hn|].
      split; [exact (proj1 (change_questions_ids _ _ _ _ _ Eq))|].
      split; [exact (map_length _ _ _ Eq)|].
      split; [contradiction|]. intros _ j q Hj.
      exists (if question_id q =? qid then question_with q key value else q).
      split; [exact (change_questions_nth _ _ _ _ _ _ _ Eq Hj)|].
      destruct (question_id q =? qid), key; repeat split.
    + injection Hy as <-. exists (page_questions p).
      split; [show_slot Hn|].
      split; [reflexivity|]. split; [reflexivity|].
      split; [reflexivity|contradiction].
  - intros s id0 v1 v2 s1 H. unfold handlePageTitleChange in *.
    destruct (JS.map _ (pages s)) as [P|] eqn:E; [|discriminate].
    injection H as <-. cbn [pages setPages JS.bind].
    rewrite (map_then_map _ _ _ _ E).
    + now destruct (JS.map _ (pages s)).
    + intros [o|] y Hy; [|discriminate]. injection Hy as <-. cbv beta.
      destruct (Z.eqb_spec (page_id o) id0) as [Eo|Eo]; cbv iota beta;
        cbn [page_id page_with_title];
        destruct (Z.eqb_spec (page_id o) id0); try contradiction;
        reflexivity.
  - intros s pageId_ qid key v1 v2 s1 H. unfold handleQuestionChange in *.
    destruct (JS.map _ (pages s)) as [P|] eqn:E; [|discriminate].
    injection H as <-. cbn [pages setPages JS.bind].
    rewrite (map_then_map _ _ _ _ E).
    + now destruct (JS.map _ (pages s)).
    + intros [o|] y Hy; [|discriminate].
      unfold handleQuestionChange_page in *.
      destruct (Z.eqb_spec (page_id o) pageId_) as [Eo|Eo].
      * destruct (JS.map _ (page_questions o)) as [qs1|] eqn:Eq;
          [|discriminate].
        cbn [JS.bind] in Hy. injection Hy as <-.
        cbn [page_id page_questions page_with_questions].
        destruct (Z.eqb_spec (page_id o) pageId_); [|contradiction].
        rewrite (map_then_map _ _ _ _ Eq); [reflexivity|].
        intros [oq|] yq Hyq; [|discriminate]. injection Hyq as <-. cbv beta.
        destruct (Z.eqb_spec (question_id oq) qid) as [Eq'|Eq'];
          cbv iota beta; rewrite ?question_with_id;
          destruct (Z.eqb_spec (question_id oq) qid); try contradiction;
          [now rewrite question_with_twice|reflexivity].
      * injection Hy as <-.
        now destruct (Z.eqb_spec (page_id o) pageId_).
Qed.

Lemma page_and_question_edit_laws_witness :
  (exists s' p',
      handlePageTitleChange 1 "Floor" initialState = Ok s' /\
      List.length (pages s') = List.length (pages initialState) /\
      nth_error (pages s') 0 = Some (Some p') /\
      page_id p' = 1 /\
      page_title p' = "Floor" /\
      page_questions p' = [Some (mkQuestion 1 "" "yesno")]) /\
  (exists s' qs' q',
      handleQuestionChange 1 1 KeyText "Clean?" initialState = Ok s' /\
      slot_holds 0 (mkPage 1 "Untitled Page" [Some (mkQuestion 1 "" "yesno")])
        qs' (pages s') /\
      nth_error qs' 0 = Some (Some q') /\
      question_edited (1 =? 1) KeyText "Clean?" (mkQuestion 1 "" "yesno") q' /\
      question_text q' = "Clean?" /\
      handleQuestionChange 1 1 KeyText "Is it clean?" s'
      = handleQuestionChange 1 1 KeyText "Is it clean?" initialState).
Proof.
  pose proof page_and_question_edit_laws
    as (Htotal & Hqtotal & Htitle & Hquestion & _ & Hlast).
  split.
  - destruct (Htotal initialState 1 "Floor" eq_refl) as [s' Hs'].
    destruct (Htitle initialState 1 "Floor" s' Hs') as [Hlen Hnth].
    destruct (Hnth 0%nat _ eq_refl) as (p' & Hp' & Hid & Ht & Hq).
    exists s', p'. split; [exact Hs'|]. split; [exact Hlen|].
    split; [exact Hp'|]. split; [exact Hid|]. split; [exact Ht|exact Hq].
  - destruct (Hqtotal initialState 1 1 KeyText "Clean?" eq_refl) as [s' Hs'].
    destruct (Hquestion initialState 1 1 KeyText "Clean?" s' Hs')
      as [_ Hnth].
    destruct (Hnth 0%nat _ eq_refl) as (qs' & Hslot & _ & _ & _ & Hedit).
    destruct (Hedit eq_refl 0%nat _ eq_refl) as (q' & Hq' & Hed).
    exists s', qs', q'. split; [exact Hs'|]. split; [exact Hslot|].
    split; [exact Hq'|]. split; [exact Hed|].
    split; [exact (proj1 (proj2 Hed))|].
    exact (Hlast initialState 1 1 KeyText "Clean?" "Is it clean?" s' Hs').
Defined.

(* ================================================================== *)
(** ** The schedule board *)

Lemma schedule_run_snoc evs ev s :
  Schedule.run (evs ++ [ev]) s = Schedule.step ev (Schedule.run evs s).
Proof. unfold Schedule.run. now rewrite fold_left_app. Qed.

(** Ids count the positions: the entry in slot [k] has id [k + 1]. *)
Lemma schedule_step_keeps_ids ev s :
  (forall k i, nth_error (Schedule.schedules s) k = Some i ->
               Schedule.id i = Z.of_nat k + 1) ->
  forall k i, nth_error (Schedule.schedules (Schedule.step ev s)) k = Some i ->
              Schedule.id i = Z.of_nat k + 1.
Proof.
  intros H k i Hk. destruct ev; cbn in Hk; try (now apply H).
  - (* create *)
    destruct (Nat.lt_ge_cases k (List.length (Schedule.schedules s)))
      as [Hlt|Hge].
    + rewrite nth_error_app1 in Hk by exact Hlt. now apply H.
    + rewrite nth_error_app2 in Hk by exact Hge.
      destruct (k - List.length (Schedule.schedules s))%nat as [|m] eqn:E.
      * injection Hk as <-. cbn. lia.
      * destruct m; discriminate.
  - (* update *)
    rewrite nth_error_map in Hk.
    destruct (nth_error (Schedule.schedules s) k) as [j|] eqn:Ej;
      [|discriminate].
    injection Hk as <-.
    destruct (Schedule.id j =? id0); cbn; now apply H.
Qed.

Lemma schedule_ids_by_position evs :
  forall k i,
    nth_error (Schedule.schedules (Schedule.run evs Schedule.initialState)) k
    = Some i ->
    Schedule.id i = Z.of_nat k + 1.
Proof.
  induction evs as [|ev evs IH] using rev_ind.
  - intros [|[|k]] i H; cbn in H;
      [now injection H as <-|now injection H as <-|destruct k; discriminate].
  - rewrite schedule_run_snoc. now apply schedule_step_keeps_ids.
Qed.

(** X11. Whatever events the board handles, the id of each schedule is its
    position plus one: [handleCreateSchedule] numbers by [length + 1] and
    nothing removes or renumbers an entry. The keys of the cards are
    therefore pairwise distinct. *)
Theorem schedule_ids_count_positions (evs : list Schedule.Event) :
  let s := Schedule.run evs Schedule.initialState in
  List.map Schedule.id (Schedule.schedules s)
  = List.map (fun k => Z.of_nat k + 1)
      (seq 0 (List.length (Schedule.schedules s))) /\
  NoDup (List.map Schedule.id (Schedule.schedules s)).
Proof.
  intros s.
  assert (E : List.map Schedule.id (Schedule.schedules s)
              = List.map (fun k => Z.of_nat k + 1)
                  (seq 0 (List.length (Schedule.schedules s)))).
  { apply nth_error_ext. intros k.
    rewrite !nth_error_map.
    destruct (nth_error (Schedule.schedules s) k) as [i|] eqn:Ek.
    - assert (Hk : (k < List.length (Schedule.schedules s))%nat)
        by (apply nth_error_Some; congruence).
      rewrite (nth_error_nth' _ 0%nat) by (rewrite length_seq; exact Hk).
      rewrite seq_nth by exact Hk. cbn [option_map].
      now rewrite (schedule_ids_by_position evs k i Ek).
    - apply nth_error_None in Ek.
      destruct (nth_error (seq 0 _) k) eqn:Es; [|reflexivity].
      assert (Hsome : nth_error (seq 0 (List.length (Schedule.schedules s))) k
                      <> None) by congruence.
      apply nth_error_Some in Hsome. rewrite length_seq in Hsome. lia. }
  split; [exact E|]. rewrite E.
  apply Finite.Injective_map_NoDup; [|apply seq_NoDup].
  intros a b Hab. lia.
Qed.

(** X12. Whatever the history of the board, after
    [updateScheduleStatus id newStatus] every entry sits where it sat; the
    entry in slot [id - 1] has the new status and all its other attributes
    as before, and every other entry is what it was. Called with an id no
    entry carries, the handler changes nothing. *)
Theorem schedule_status_update_hits_one_entry
  (evs : list Schedule.Event) (id0 : Z) (newStatus : string) :
  let s := Schedule.run evs Schedule.initialState in
  let s' := Schedule.updateScheduleStatus id0 newStatus s in
  List.length (Schedule.schedules s') = List.length (Schedule.schedules s) /\
  Schedule.showCreateForm s' = Schedule.showCreateForm s /\
  Schedule.newSchedule s' = Schedule.newSchedule s /\
  (forall k i,
      nth_error (Schedule.schedules s) k = Some i ->
      exists i',
        nth_error (Schedule.schedules s') k = Some i' /\
        (Z.of_nat k + 1 = id0 ->
         Schedule.status i' = newStatus /\ Schedule.same_but_status i i') /\
        (Z.of_nat k + 1 <> id0 -> i' = i)) /\
  (id0 < 1 \/ Z.of_nat (List.length (Schedule.schedules s)) < id0 ->
   s' = s).
Proof.
  intros s s'. subst s'.
  split; [cbn; apply length_map|]. split; [reflexivity|].
  split; [reflexivity|]. split.
  - intros k i Hk. cbn. rewrite nth_error_map, Hk. cbn [option_map].
    rewrite (schedule_ids_by_position evs k i Hk).
    eexists. split; [reflexivity|].
    destruct (Z.eqb_spec (Z.of_nat k + 1) id0) as [E|E]; split;
      try contradiction; try reflexivity.
    intros _. split; [reflexivity|]. repeat split.
  - intros Hout. unfold Schedule.updateScheduleStatus.
    rewrite (map_ext_in _ (fun x => x)), map_id; [now destruct s|].
    intros i Hi. apply In_nth_error in Hi as [k Hk].
    rewrite (schedule_ids_by_position evs k i Hk).
    assert (Hlt : (k < List.length (Schedule.schedules s))%nat)
      by (apply nth_error_Some; fold s in Hk; congruence).
    destruct (Z.eqb_spec (Z.of_nat k + 1) id0); [lia|reflexivity].
Qed.

Lemma schedule_status_update_hits_one_entry_witness :
  let s := Schedule.run [Schedule.EvCreateSchedule "2024-02-01"]
             Schedule.initialState in
  (exists i',
      nth_error
        (Schedule.schedules (Schedule.updateScheduleStatus 3 "completed" s)) 2
      = Some i' /\
      Schedule.status i' = "completed" /\
      Schedule.same_but_status
        (Schedule.mkItem 3 "" "" "" "" "" "" "scheduled" "medium" ""
           "Manager" "2024-02-01") i') /\
  (exists i',
      nth_error
        (Schedule.schedules (Schedule.updateScheduleStatus 3 "completed" s)) 0
      = Some i' /\
      Some i' = nth_error (Schedule.schedules s) 0) /\
  Schedule.updateScheduleStatus 4 "completed" s = s.
Proof.
  intros s.
  pose proof (schedule_status_update_hits_one_entry
                [Schedule.EvCreateSchedule "2024-02-01"] 3 "completed")
    as (_ & _ & _ & Hhit & _).
  split; [|split].
  - destruct (Hhit 2%nat _ eq_refl) as (i' & Hi' & Hset & _).
    exists i'. split; [exact Hi'|]. exact (Hset eq_refl).
  - destruct (Hhit 0%nat _ eq_refl) as (i' & Hi' & _ & Hother).
    exists i'. split; [exact Hi'|].
    rewrite (Hother ltac:(cbn; lia)). reflexivity.
  - apply (proj2 (proj2 (proj2 (proj2 (schedule_status_update_hits_one_entry
                    [Schedule.EvCreateSchedule "2024-02-01"] 4 "completed"))))).
    right. cbn. lia.
Defined.

(** X13. The email of a schedule always belongs to its inspector: in every
    entry of the board, and in the form under edit, the inspector email is
    the one the inspector table lists for the inspector name, and empty
    when the table does not list the name. *)
Theorem schedule_email_follows_inspector (evs : list Schedule.Event) :
  let s := Schedule.run evs Schedule.initialState in
  (forall i, In i (Schedule.schedules s) ->
             Schedule.inspectorEmail i
             = Schedule.emailOf (Schedule.inspectorName i)) /\
  Schedule.form_inspectorEmail (Schedule.newSchedule s)
  = Schedule.emailOf (Schedule.form_inspectorName (Schedule.newSchedule s)).
Proof.
  induction evs as [|ev evs IH] using rev_ind.
  - cbn. split; [|reflexivity].
    intros i [<-|[<-|[]]]; reflexivity.
  - rewrite schedule_run_snoc.
    set (t := Schedule.run evs Schedule.initialState) in *.
    cbn zeta in IH. destruct IH as [IHs IHf].
    cbn zeta. destruct ev as [b|key value|value|today|id0 newStatus]; cbn.
    + now split.
    + split; [exact IHs|]. now destruct key.
    + split; [exact IHs|]. reflexivity.
    + split; [|reflexivity]. intros i Hi.
      apply in_app_or in Hi as [Hi|[<-|[]]]; [now apply IHs|]. exact IHf.
    + split; [|exact IHf]. intros i Hi.
      apply in_map_iff in Hi as (j & <- & Hj).
      destruct (Schedule.id j =? id0); cbn; now apply IHs.
Qed.

(** X14. On a board driven through its markup, every status is one of the
    four options of the status select and every priority one of the three
    options of the priority select, in the entries and in the form; the
    badge colours are therefore never the fallback ['#666']. *)
Theorem schedule_badges_have_their_colours (s : Schedule.State) :
  Schedule.reachable s ->
  (forall i, In i (Schedule.schedules s) ->
             In (Schedule.status i) Schedule.statusOptions /\
             In (Schedule.priority i) Schedule.priorityOptions /\
             Schedule.getStatusColor (Schedule.status i) <> "#666" /\
             Schedule.getPriorityColor (Schedule.priority i) <> "#666") /\
  In (Schedule.form_priority (Schedule.newSchedule s))
     Schedule.priorityOptions.
Proof.
  assert (Hcolour : forall st, In st Schedule.statusOptions ->
            Schedule.getStatusColor st <> "#666").
  { intros st [<-|[<-|[<-|[<-|[]]]]]; discriminate. }
  assert (Hpcolour : forall pr, In pr Schedule.priorityOptions ->
            Schedule.getPriorityColor pr <> "#666").
  { intros pr [<-|[<-|[<-|[]]]]; discriminate. }
  assert (Hinv : Schedule.reachable s ->
            (forall i, In i (Schedule.schedules s) ->
                       In (Schedule.status i) Schedule.statusOptions /\
                       In (Schedule.priority i) Schedule.priorityOptions) /\
            In (Schedule.form_priority (Schedule.newSchedule s))
               Schedule.priorityOptions).
  { induction 1 as [|t ev _ [IHs IHf] Hoff].
    - split; [|cbn; tauto].
      intros i [<-|[<-|[]]]; cbn; tauto.
    - destruct Hoff as [b|value Hv|value|value|value|value Hv|value|value Hv
                       |today|i newStatus Hi Hst]; cbn;
        try (split; [exact IHs|exact IHf]).
      + split; [exact IHs|exact Hv].
      + split; [|tauto]. intros j Hj.
        apply in_app_or in Hj as [Hj|[<-|[]]]; [now apply IHs|].
        cbn. split; [tauto|exact IHf].
      + split; [|exact IHf]. intros j Hj.
        apply in_map_iff in Hj as (j0 & <- & Hj0).
        destruct (IHs j0 Hj0) as [Hs0 Hp0].
        destruct (Schedule.id j0 =? Schedule.id i); cbn;
          [split; [exact Hst|exact Hp0]|now split]. }
  intros Hr. destruct (Hinv Hr) as [Hs Hf]. split; [|exact Hf].
  intros i Hi. destruct (Hs i Hi) as [Hst Hpr].
  split; [exact Hst|]. split; [exact Hpr|]. split; auto.
Qed.

Lemma schedule_badges_have_their_colours_witness :
  (forall i, In i (Schedule.schedules
                     (Schedule.step (Schedule.EvCreateSchedule "2024-02-01")
                        Schedule.initialState)) ->
             In (Schedule.status i) Schedule.statusOptions /\
             In (Schedule.priority i) Schedule.priorityOptions /\
             Schedule.getStatusColor (Schedule.status i) <> "#666" /\
             Schedule.getPriorityColor (Schedule.priority i) <> "#666") /\
  In (Schedule.form_priority
        (Schedule.newSchedule
           (Schedule.step (Schedule.EvCreateSchedule "2024-02-01")
              Schedule.initialState)))
     Schedule.priorityOptions.
Proof.
  apply schedule_badges_have_their_colours.
  apply Schedule.board_step.
  - apply Schedule.board_init.
  - apply Schedule.offers_createSchedule.
Defined.

Lemma schedule_email_follows_inspector_witness :
  let s := Schedule.run
             [Schedule.EvSelectInspector "Mike Davis";
              Schedule.EvCreateSchedule "2024-02-01"]
             Schedule.initialState in
  Schedule.inspectorEmail
    (Schedule.mkItem 3 "" "Mike Davis" "mike.davis@company.com" "" "" ""
       "scheduled" "medium" "" "Manager" "2024-02-01")
  = Schedule.emailOf
      (Schedule.inspectorName
         (Schedule.mkItem 3 "" "Mike Davis" "mike.davis@company.com" "" "" ""
            "scheduled" "medium" "" "Manager" "2024-02-01")).
Proof.
  intros s.
  apply (proj1 (schedule_email_follows_inspector
                  [Schedule.EvSelectInspector "Mike Davis";
                   Schedule.EvCreateSchedule "2024-02-01"])).
  cbn. right. right. left. reflexivity.
Defined.

(* ================================================================== *)
(** ** Regular expressions *)

Lemma lang_nil_nullable r s : Regex.lang r s -> s = [] -> Regex.nullable r = true.
Proof.
  induction 1 as [|p c Hp|r1 r2 s1 s2 _ IH1 _ IH2|r1 r2 s _ IH|r1 r2 s _ IH
                 |r|r s1 s2 _ _ _ _]; intros E; cbn; try reflexivity.
  - discriminate.
  - apply app_eq_nil in E as [-> ->]. now rewrite IH1, IH2.
  - now rewrite IH.
  - rewrite IH by exact E. apply orb_true_r.
Qed.

Lemma nullable_lang r : Regex.nullable r = true <-> Regex.lang r [].
Proof.
  split; [|intros H; now apply (lang_nil_nullable r [])].
  induction r as [| |p|r1 IH1 r2 IH2|r1 IH1 r2 IH2|r IH]; cbn; intros H;
    try discriminate.
  - constructor.
  - apply andb_true_iff in H as [H1 H2].
    change (@nil Z) with (@nil Z ++ []). constructor; auto.
  - apply orb_true_iff in H as [H|H];
      [apply Regex.lang_alt_l|apply Regex.lang_alt_r]; auto.
  - constructor.
Qed.

Lemma lang_deriv r s0 :
  Regex.lang r s0 -> forall c s, s0 = c :: s -> Regex.lang (Regex.deriv c r) s.
Proof.
  induction 1 as [|p c0 Hp|r1 r2 s1 s2 H1 IH1 H2 IH2|r1 r2 s0 _ IH
                 |r1 r2 s0 _ IH|r|r s1 s2 H1 IH1 H2 IH2];
    intros c s E; cbn.
  - discriminate.
  - injection E as -> <-. rewrite Hp. constructor.
  - destruct s1 as [|c1 s1'].
    + cbn in E. rewrite (lang_nil_nullable _ _ H1 eq_refl).
      apply Regex.lang_alt_r. now apply IH2.
    + injection E as -> <-.
      assert (Hcat : Regex.lang (Regex.Cat (Regex.deriv c r1) r2) (s1' ++ s2))
        by (constructor; [now apply IH1|exact H2]).
      destruct (Regex.nullable r1); [now apply Regex.lang_alt_l|exact Hcat].
  - apply Regex.lang_alt_l. now apply IH.
  - apply Regex.lang_alt_r. now apply IH.
  - discriminate.
  - destruct s1 as [|c1 s1'].
    + cbn in E. now apply IH2.
    + injection E as -> <-. constructor; [now apply IH1|exact H2].
Qed.

Lemma deriv_lang c r : forall s,
  Regex.lang (Regex.deriv c r) s -> Regex.lang r (c :: s).
Proof.
  induction r as [| |p|r1 IH1 r2 IH2|r1 IH1 r2 IH2|r IH]; cbn; intros s H.
  - inversion H.
  - inversion H.
  - destruct (p c) eqn:Hp; inversion H; subst. now constructor.
  - assert (Hleft : forall s', Regex.lang (Regex.Cat (Regex.deriv c r1) r2) s' ->
                               Regex.lang (Regex.Cat r1 r2) (c :: s')).
    { intros s' H'. inversion H'; subst.
      change (c :: s1 ++ s2) with ((c :: s1) ++ s2). constructor; auto. }
    destruct (Regex.nullable r1) eqn:Hn; [|now apply Hleft].
    inversion H; subst; [now apply Hleft|].
    change (c :: s) with ([] ++ c :: s).
    constructor; [now apply nullable_lang|now apply IH2].
  - inversion H; subst;
      [apply Regex.lang_alt_l|apply Regex.lang_alt_r]; auto.
  - inversion H; subst.
    change (c :: s1 ++ s2) with ((c :: s1) ++ s2). constructor; auto.
Qed.

(** [test] decides the language of the expression. *)
Lemma test_lang : forall s r, Regex.test r s = true <-> Regex.lang r s.
Proof.
  induction s as [|c s IH]; intros r; cbn.
  - apply nullable_lang.
  - rewrite IH. split; [apply deriv_lang|].
    intros H. now apply (lang_deriv r (c :: s)).
Qed.

Section ClassRepetition.
Variable p : Z -> bool.

Lemma lang_class_inv s :
  Regex.lang (Regex.Class p) s -> exists c, s = [c] /\ p c = true.
Proof. intros H. inversion H; subst. eauto. Qed.

Lemma lang_star_class s :
  Regex.lang (Regex.Star (Regex.Class p)) s <-> forallb p s = true.
Proof.
  split.
  - intros H. remember (Regex.Star (Regex.Class p)) as r eqn:Er.
    induction H as [| | | | | |r0 s1 s2 H1 _ H2 IH2]; try discriminate.
    + reflexivity.
    + injection Er as ->. destruct (lang_class_inv _ H1) as (c & -> & Hc).
      cbn. now rewrite Hc, IH2.
  - induction s as [|c s IH]; cbn; intros H.
    + constructor.
    + apply andb_true_iff in H as [Hc Hs].
      change (c :: s) with ([c] ++ s).
      constructor; [now constructor|now apply IH].
Qed.

Lemma lang_plus_class s :
  Regex.lang (Regex.Plus (Regex.Class p)) s <->
  s <> [] /\ forallb p s = true.
Proof.
  unfold Regex.Plus. split.
  - intros H. inversion H as [| |r1 r2 s1 s2 H1 H2| | | |]; subst.
    destruct (lang_class_inv _ H1) as (c & -> & Hc).
    apply lang_star_class in H2. cbn. rewrite Hc, H2. now split.
  - intros [Hne H]. destruct s as [|c s]; [contradiction|].
    cbn in H. apply andb_true_iff in H as [Hc Hs].
    change (c :: s) with ([c] ++ s).
    constructor; [now constructor|now apply lang_star_class].
Qed.

Lemma lang_times_class n : forall s,
  Regex.lang (Regex.Times n (Regex.Class p)) s <->
  List.length s = n /\ forallb p s = true.
Proof.
  induction n as [|n IH]; intros s; cbn.
  - split.
    + intros H. inversion H. now split.
    + intros [E _]. apply length_zero_iff_nil in E as ->. constructor.
  - split.
    + intros H. inversion H as [| |r1 r2 s1 s2 H1 H2| | | |]; subst.
      destruct (lang_class_inv _ H1) as (c & -> & Hc).
      apply IH in H2 as [<- Hs]. cbn. rewrite Hc, Hs. now split.
    + intros [E H]. destruct s as [|c s]; [discriminate|].
      cbn in H. apply andb_true_iff in H as [Hc Hs].
      change (c :: s) with ([c] ++ s).
      constructor; [now constructor|]. apply IH. split; [|exact Hs].
      cbn in E. lia.
Qed.

Lemma lang_upto_class n : forall s,
  Regex.lang (Regex.UpTo n (Regex.Class p)) s <->
  (List.length s <= n)%nat /\ forallb p s = true.
Proof.
  induction n as [|n IH]; intros s; cbn.
  - split.
    + intros H. inversion H. now split.
    + intros [E _]. destruct s; [constructor|cbn in E; lia].
  - split.
    + intros H. inversion H as [| | |r1 r2 s0 H0|r1 r2 s0 H0| |]; subst.
      * inversion H0. cbn. split; [lia|reflexivity].
      * inversion H0 as [| |r1 r2 s1 s2 H1 H2| | | |]; subst.
        destruct (lang_class_inv _ H1) as (c & -> & Hc).
        apply IH in H2 as [Hlen Hs]. cbn. rewrite Hc, Hs. split; [lia|easy].
    + intros [E H]. destruct s as [|c s].
      * apply Regex.lang_alt_l. constructor.
      * cbn in H. apply andb_true_iff in H as [Hc Hs].
        apply Regex.lang_alt_r. change (c :: s) with ([c] ++ s).
        constructor; [now constructor|]. apply IH. split; [|exact Hs].
        cbn in E. lia.
Qed.

Lemma lang_repeat_class lo hi s :
  (lo <= hi)%nat ->
  Regex.lang (Regex.Repeat lo hi (Regex.Class p)) s <->
  (lo <= List.length s <= hi)%nat /\ forallb p s = true.
Proof.
  intros Hle. unfold Regex.Repeat. split.
  - intros H. inversion H as [| |r1 r2 s1 s2 H1 H2| | | |]; subst.
    apply lang_times_class in H1 as [<- Hs1].
    apply lang_upto_class in H2 as [Hlen Hs2].
    rewrite length_app, forallb_app, Hs1, Hs2. split; [lia|reflexivity].
  - intros [Hlen H]. rewrite <- (firstn_skipn lo s) in H |- *.
    rewrite forallb_app in H. apply andb_true_iff in H as [H1 H2].
    constructor.
    + apply lang_times_class. split; [|exact H1].
      rewrite length_firstn. lia.
    + apply lang_upto_class. split; [|exact H2].
      rewrite length_skipn. lia.
Qed.

End ClassRepetition.

(* ================================================================== *)
(** ** The sign-up and login forms *)

(** X15. The phone pattern [/^\d{6,15}$/] accepts exactly the strings of
    6 to 15 ASCII digits. *)
Theorem phone_pattern_accepts_6_to_15_digits (s : jsstring) :
  Regex.test Regex.phonePattern s = true <->
  (6 <= List.length s <= 15)%nat /\ forallb Regex.isDigit s = true.
Proof.
  rewrite test_lang. unfold Regex.phonePattern.
  apply lang_repeat_class. lia.
Qed.

Lemma notAtOrSpace_count l :
  forallb Regex.notAtOrSpace l = true -> count_occ Z.eq_dec l 64 = 0%nat.
Proof.
  induction l as [|c l IH]; cbn; intros H; [reflexivity|].
  apply andb_true_iff in H as [Hc Hl]. unfold Regex.notAtOrSpace in Hc.
  apply andb_true_iff in Hc as [Hc _].
  destruct (Z.eq_dec c 64) as [->|_]; [discriminate|]. now apply IH.
Qed.

Lemma notAtOrSpace_noSpace l :
  forallb Regex.notAtOrSpace l = true ->
  forallb (fun c => negb (Regex.isSpace c)) l = true.
Proof.
  induction l as [|c l IH]; cbn; intros H; [reflexivity|].
  apply andb_true_iff in H as [Hc Hl]. unfold Regex.notAtOrSpace in Hc.
  apply andb_true_iff in Hc as [_ Hc]. now rewrite Hc, IH.
Qed.

Lemma lang_cat_inv r1 r2 s :
  Regex.lang (Regex.Cat r1 r2) s ->
  exists s1 s2, s = s1 ++ s2 /\ Regex.lang r1 s1 /\ Regex.lang r2 s2.
Proof. intros H. inversion H; subst. eauto. Qed.

Lemma email_pattern_lang s :
  Regex.lang Regex.emailPattern s <->
  exists l d t,
    s = l ++ 64 :: d ++ 46 :: t /\
    l <> [] /\ d <> [] /\ t <> [] /\
    forallb Regex.notAtOrSpace l = true /\
    forallb Regex.notAtOrSpace d = true /\
    forallb Regex.notAtOrSpace t = true.
Proof.
  unfold Regex.emailPattern. split.
  - intros H.
    apply lang_cat_inv in H as (l & s1 & -> & Hl & H1).
    apply lang_cat_inv in H1 as (a & s2 & -> & Ha & H2).
    apply lang_cat_inv in H2 as (d & s3 & -> & Hd & H3).
    apply lang_cat_inv in H3 as (b & t & -> & Hb & Ht).
    apply lang_plus_class in Hl as [Hl1 Hl2].
    apply lang_plus_class in Hd as [Hd1 Hd2].
    apply lang_plus_class in Ht as [Ht1 Ht2].
    destruct (lang_class_inv _ _ Ha) as (ca & -> & Eca).
    destruct (lang_class_inv _ _ Hb) as (cb & -> & Ecb).
    apply Z.eqb_eq in Eca as ->. apply Z.eqb_eq in Ecb as ->.
    exists l, d, t. repeat split; assumption.
  - intros (l & d & t & -> & Hl & Hd & Ht & Pl & Pd & Pt).
    constructor; [now apply lang_plus_class|].
    change (64 :: d ++ 46 :: t) with ([64] ++ d ++ [46] ++ t).
    constructor; [now constructor|].
    constructor; [now apply lang_plus_class|].
    constructor; [now constructor|now apply lang_plus_class].
Qed.

(** X16. The email pattern [/^[^@\s]+@[^@\s]+\.[^@\s]+$/] accepts exactly
    the strings [l @ d . t] whose three parts are non-empty and hold
    neither ['@'] nor white space (dots are allowed in all three). An
    accepted string therefore holds exactly one ['@'], no white space, and
    at least five code units. *)
Theorem email_pattern_shape (s : jsstring) :
  (Regex.test Regex.emailPattern s = true <->
   exists l d t,
     s = l ++ 64 :: d ++ 46 :: t /\
     l <> [] /\ d <> [] /\ t <> [] /\
     forallb Regex.notAtOrSpace l = true /\
     forallb Regex.notAtOrSpace d = true /\
     forallb Regex.notAtOrSpace t = true) /\
  (Regex.test Regex.emailPattern s = true ->
   count_occ Z.eq_dec s 64 = 1%nat /\
   forallb (fun c => negb (Regex.isSpace c)) s = true /\
   (5 <= List.length s)%nat).
Proof.
  rewrite test_lang. split; [apply email_pattern_lang|].
  intros H. apply email_pattern_lang in H
    as (l & d & t & -> & Hl & Hd & Ht & Pl & Pd & Pt).
  split; [|split].
  - rewrite count_occ_app, (notAtOrSpace_count l Pl).
    cbn [count_occ]. destruct (Z.eq_dec 64 64); [|contradiction].
    rewrite count_occ_app, (notAtOrSpace_count d Pd).
    cbn [count_occ]. destruct (Z.eq_dec 46 64); [discriminate|].
    now rewrite (notAtOrSpace_count t Pt).
  - rewrite forallb_app.
    rewrite (notAtOrSpace_noSpace l Pl). cbn.
    rewrite forallb_app, (notAtOrSpace_noSpace d Pd). cbn.
    apply (notAtOrSpace_noSpace t Pt).
  - rewrite length_app. cbn. rewrite length_app. cbn.
    destruct l; [contradiction|]. destruct d; [contradiction|].
    destruct t; [contradiction|]. cbn. lia.
Qed.

Lemma email_pattern_shape_witness :
  count_occ Z.eq_dec [97; 64; 98; 46; 99] 64 = 1%nat /\
  forallb (fun c => negb (Regex.isSpace c)) [97; 64; 98; 46; 99] = true /\
  (5 <= List.length [97; 64; 98; 46; 99])%nat.
Proof.
  apply (proj2 (email_pattern_shape [97; 64; 98; 46; 99])). reflexivity.
Defined.

(** *** Errors *)

Lemma assign_not_nil key message e : assign key message e <> [].
Proof.
  destruct e as [|[k m] rest]; cbn; [discriminate|].
  destruct (String.eqb k key); discriminate.
Qed.

Lemma guarded_assign_nil (c : bool) key message e :
  (if c then assign key message e else e) = [] <-> c = false /\ e = [].
Proof.
  destruct c.
  - split; [intros H; now apply assign_not_nil in H|intros [H _]; discriminate].
  - tauto.
Qed.

Lemma guarded_assign2_nil (c1 c2 : bool) key m1 m2 e :
  (if c1 then assign key m1 e else if c2 then assign key m2 e else e) = [] <->
  c1 = false /\ c2 = false /\ e = [].
Proof.
  destruct c1.
  - split; [intros H; now apply assign_not_nil in H|intros [H _]; discriminate].
  - rewrite guarded_assign_nil. tauto.
Qed.

Lemma lookup_assign key key' message e :
  lookup key (assign key' message e)
  = if String.eqb key' key then Some message else lookup key e.
Proof.
  induction e as [|[k m] rest IH]; cbn.
  - reflexivity.
  - destruct (String.eqb_spec k key') as [->|Hne]; cbn.
    + now destruct (String.eqb key' key).
    + rewrite IH. destruct (String.eqb_spec k key) as [->|Hk]; [|reflexivity].
      destruct (String.eqb_spec key' key) as [->|_]; [contradiction|reflexivity].
Qed.

Lemma lookup_guarded key (c : bool) key' message e :
  lookup key (if c then assign key' message e else e)
  = if c && String.eqb key' key then Some message else lookup key e.
Proof. destruct c; [apply lookup_assign|reflexivity]. Qed.

Lemma lookup_guarded2 key (c1 c2 : bool) key' m1 m2 e :
  lookup key (if c1 then assign key' m1 e
              else if c2 then assign key' m2 e else e)
  = if String.eqb key' key
    then (if c1 then Some m1 else if c2 then Some m2 else lookup key e)
    else lookup key e.
Proof.
  destruct c1; [apply lookup_assign|]. destruct c2; [apply lookup_assign|].
  now destruct (String.eqb key' key).
Qed.

Lemma isEmpty_false (v : jsstring) : isEmpty v = false <-> v <> [].
Proof. destruct v; cbn; split; congruence. Qed.

Lemma test_nonempty r (v : jsstring) :
  Regex.nullable r = false -> Regex.test r v = true -> isEmpty v = false.
Proof. destruct v; cbn; [congruence|reflexivity]. Qed.

Lemma signUp_validate_nil form :
  SignUp.validate form = [] <->
  Regex.test Regex.emailPattern (SignUp.email form) = true /\
  SignUp.firstName form <> [] /\
  SignUp.lastName form <> [] /\
  Regex.test Regex.phonePattern (SignUp.phone form) = true /\
  (8 <= List.length (SignUp.password form))%nat /\
  SignUp.terms form = true /\
  SignUp.organization form <> [] /\
  SignUp.location form <> [].
Proof.
  unfold SignUp.validate. cbv zeta.
  repeat (rewrite guarded_assign_nil || rewrite guarded_assign2_nil).
  rewrite !isEmpty_false, !negb_false_iff, Z.ltb_ge.
  split.
  - intros (Hloc & Horg & Hterms & _ & Hpw & _ & Hphone & Hlast & Hfirst
            & _ & Hemail & _).
    repeat split; trivial; lia.
  - intros (Hemail & Hfirst & Hlast & Hphone & Hpw & Hterms & Horg & Hloc).
    repeat split; trivial; try lia.
    + destruct (SignUp.password form); [cbn in Hpw; lia|discriminate].
    + apply isEmpty_false.
      now apply (test_nonempty Regex.phonePattern).
    + apply isEmpty_false.
      now apply (test_nonempty Regex.emailPattern).
Qed.

(** X17. Sign-up succeeds exactly on complete forms: [validate] returns no
    error, and [handleSubmit] raises the success alert with the country
    code and phone number, if and only if the email matches the email
    pattern, the phone number is 6 to 15 digits, the password has at least
    8 code units, the terms are accepted and first name, last name,
    organization and location are non-empty. *)
Theorem signUp_submit_succeeds_iff (form : SignUp.Form) :
  let complete :=
    Regex.test Regex.emailPattern (SignUp.email form) = true /\
    SignUp.firstName form <> [] /\
    SignUp.lastName form <> [] /\
    ((6 <= List.length (SignUp.phone form) <= 15)%nat /\
     forallb Regex.isDigit (SignUp.phone form) = true) /\
    (8 <= List.length (SignUp.password form))%nat /\
    SignUp.terms form = true /\
    SignUp.organization form <> [] /\
    SignUp.location form <> [] in
  (SignUp.validate form = [] <-> complete) /\
  (SignUp.handleSubmit form
   = ([], Some (SignUp.country form, SignUp.phone form)) <-> complete) /\
  (~ complete ->
   SignUp.validate form <> [] /\ snd (SignUp.handleSubmit form) = None).
Proof.
  intros complete.
  assert (Hv : SignUp.validate form = [] <-> complete).
  { unfold complete. rewrite signUp_validate_nil.
    now rewrite phone_pattern_accepts_6_to_15_digits. }
  split; [exact Hv|]. split.
  - rewrite <- Hv. unfold SignUp.handleSubmit. split.
    + intros H. now injection H.
    + intros ->. reflexivity.
  - intros Hnot. rewrite <- Hv in Hnot. split; [exact Hnot|].
    unfold SignUp.handleSubmit. cbn [snd].
    destruct (SignUp.validate form); [contradiction|reflexivity].
Qed.

Lemma signUp_submit_succeeds_iff_witness :
  SignUp.validate SignUp.initialForm <> [] /\
  snd (SignUp.handleSubmit SignUp.initialForm) = None.
Proof.
  apply (proj2 (proj2 (signUp_submit_succeeds_iff SignUp.initialForm))).
  intros (H & _). discriminate H.
Defined.

(** X18. Each message depends on its own field only. After [validate],
    [errors.email] is the required message for an empty email, the format
    message for a non-empty email the pattern rejects, and absent
    otherwise; likewise for phone and password, and for the fields that
    are only required; no field's message is overwritten by another
    field's check. The same holds for the login form. *)
Theorem validation_messages_by_field :
  (forall form,
      let e := SignUp.validate form in
      lookup "email" e
      = (if isEmpty (SignUp.email form) then Some "Email is required."
         else if negb (Regex.test Regex.emailPattern (SignUp.email form))
              then Some "Enter a valid email address." else None) /\
      lookup "firstName" e
      = (if isEmpty (SignUp.firstName form)
         then Some "First name is required." else None) /\
      lookup "lastName" e
      = (if isEmpty (SignUp.lastName form)
         then Some "Last name is required." else None) /\
      lookup "phone" e
      = (if isEmpty (SignUp.phone form) then Some "Phone number is required."
         else if negb (Regex.test Regex.phonePattern (SignUp.phone form))
              then Some
                     "Enter a valid phone number (6-15 digits, no country code)."
              else None) /\
      lookup "password" e
      = (if isEmpty (SignUp.password form) then Some "Password is required."
         else if Z.of_nat (List.length (SignUp.password form)) <? 8
              then Some "Password must be at least 8 characters."
              else None) /\
      lookup "terms" e
      = (if negb (SignUp.terms form)
         then Some "You must agree to the terms." else None) /\
      lookup "organization" e
      = (if isEmpty (SignUp.organization form)
         then Some "Organization is required." else None) /\
      lookup "location" e
      = (if isEmpty (SignUp.location form)
         then Some "Location is required." else None)) /\
  (forall form,
      let e := Login.validate form in
      lookup "email" e
      = (if isEmpty (Login.email form) then Some "Email is required."
         else if negb (Regex.test Regex.emailPattern (Login.email form))
              then Some "Enter a valid email address." else None) /\
      lookup "password" e
      = (if isEmpty (Login.password form)
         then Some "Password is required." else None) /\
      lookup "organisation" e
      = (if isEmpty (Login.organisation form)
         then Some "Organisation is required." else None) /\
      lookup "location" e
      = (if isEmpty (Login.location form)
         then Some "Location is required." else None)).
Proof.
  split; intros form e; subst e;
    unfold SignUp.validate, Login.validate; cbv zeta;
    repeat apply conj;
    repeat (rewrite lookup_guarded || rewrite lookup_guarded2);
    cbn [String.eqb Ascii.eqb Bool.eqb andb lookup];
    rewrite ?andb_true_r, ?andb_false_r; reflexivity.
Qed.

Lemma login_validate_nil form :
  Login.validate form = [] <->
  Regex.test Regex.emailPattern (Login.email form) = true /\
  Login.password form <> [] /\
  Login.organisation form <> [] /\
  Login.location form <> [].
Proof.
  unfold Login.validate. cbv zeta.
  repeat (rewrite guarded_assign_nil || rewrite guarded_assign2_nil).
  rewrite !isEmpty_false, !negb_false_iff.
  split.
  - intros (Hloc & Horg & Hpw & _ & Hemail & _). now repeat split.
  - intros (Hemail & Hpw & Horg & Hloc). repeat split; trivial.
    apply isEmpty_false. now apply (test_nonempty Regex.emailPattern).
Qed.

(** X19. Login succeeds exactly when the email matches the email pattern
    and password, organisation and location are non-empty; there is no
    length check on the password. Every email, password, organization and
    location with which sign-up succeeds passes the login form. *)
Theorem login_submit_succeeds_iff :
  (forall form,
      Login.handleSubmit form = ([], true) <->
      Regex.test Regex.emailPattern (Login.email form) = true /\
      Login.password form <> [] /\
      Login.organisation form <> [] /\
      Login.location form <> []) /\
  (forall form,
      snd (Login.handleSubmit form) = false <-> Login.validate form <> []) /\
  (forall form,
      SignUp.validate form = [] ->
      Login.handleSubmit
        (Login.mkForm (SignUp.email form) (SignUp.password form)
           (SignUp.organization form) (SignUp.location form))
      = ([], true)).
Proof.
  assert (Hok : forall form,
            Login.handleSubmit form = ([], true) <-> Login.validate form = []).
  { intros form. unfold Login.handleSubmit. split.
    - intros H. now injection H.
    - intros ->. reflexivity. }
  split; [|split].
  - intros form. rewrite Hok. apply login_validate_nil.
  - intros form. unfold Login.handleSubmit. cbn [snd].
    destruct (Login.validate form); cbn; split; congruence.
  - intros form H. apply Hok, login_validate_nil. cbn.
    apply signUp_validate_nil in H
      as (Hemail & _ & _ & _ & Hpw & _ & Horg & Hloc).
    repeat split; trivial.
    destruct (SignUp.password form); [cbn in Hpw; lia|discriminate].
Qed.

Lemma login_submit_succeeds_iff_witness :
  Login.handleSubmit
    (Login.mkForm (SignUp.email
                     (SignUp.mkForm [97; 64; 98; 46; 99] [65] [66] [43; 49]
                        [49; 50; 51; 52; 53; 54]
                        [112; 97; 115; 115; 119; 111; 114; 100] true [67]
                        [68]))
       [112; 97; 115; 115; 119; 111; 114; 100] [67] [68])
  = ([], true).
Proof.
  apply (proj2 (proj2 login_submit_succeeds_iff)
           (SignUp.mkForm [97; 64; 98; 46; 99] [65] [66] [43; 49]
              [49; 50; 51; 52; 53; 54]
              [112; 97; 115; 115; 119; 111; 114; 100] true [67] [68])).
  reflexivity.
Defined.

(** X20. An input changes the validation message of its own field only:
    after [handleChange], [validate] gives every other key the message it
    gave before, and a change of the country code changes no message. *)
Theorem input_changes_its_own_message_only
  (e : SignUp.Input) (form : SignUp.Form) (key : string) :
  SignUp.inputKey e <> Some key ->
  lookup key (SignUp.validate (SignUp.handleChange e form))
  = lookup key (SignUp.validate form).
Proof.
  intros H.
  assert (Hother : forall k, SignUp.inputKey e = Some k ->
                             String.eqb k key = false).
  { intros k Hk. apply String.eqb_neq. intros ->. now apply H. }
  unfold SignUp.validate. cbv zeta.
  destruct e; cbn [SignUp.handleChange SignUp.email SignUp.firstName
                   SignUp.lastName SignUp.country SignUp.phone
                   SignUp.password SignUp.terms SignUp.organization
                   SignUp.location];
    repeat (rewrite lookup_guarded || rewrite lookup_guarded2);
    try reflexivity;
    rewrite (Hother _ eq_refl), ?andb_false_r; reflexivity.
Qed.

Lemma input_changes_its_own_message_only_witness :
  lookup "email"
    (SignUp.validate
       (SignUp.handleChange (SignUp.InPassword [112; 119]) SignUp.initialForm))
  = lookup "email" (SignUp.validate SignUp.initialForm).
Proof.
  apply input_changes_its_own_message_only. discriminate.
Defined.
